(** * kj-speech-mcp: the speak and list_voices handlers

    A shallow embedding of [main.go] (and of its refactored revision, which
    routes command failures through [formatCommandError]) together with the
    parts of the Go standard library and of mcp-go that the handlers call:
    [strings.TrimSpace], [strings.Split], [strings.Contains],
    [strings.ToLower], [fmt.Sprintf] with its "%.0f" verb, the [regexp]
    matcher on the voice pattern, [json.MarshalIndent] on the response
    structure, [exec.CommandContext]/[CombinedOutput] as an effect, and
    [CallToolRequest.RequireString]/[GetArguments].

    Go strings are byte sequences; they are modelled as [list ascii]. *)

From Stdlib Require Import ZArith Ascii String SpecFloat Lia.
From Stdlib Require Import Numbers.DecimalString.
From stdpp Require Import base list option strings gmap.

Set Default Proof Using "Type".
Set Warnings "-register-all".
Local Open Scope list_scope.

(** ** Go strings as byte sequences *)

Abbreviation gostring := (list ascii).

(** [B "abc"] is the Go string literal ["abc"]. *)
Definition B (s : string) : gostring := list_ascii_of_string s.

Definition byte_tab : ascii := "009"%char.
Definition byte_lf : ascii := "010"%char.
Definition byte_vt : ascii := "011"%char.
Definition byte_ff : ascii := "012"%char.
Definition byte_cr : ascii := "013"%char.
Definition byte_sp : ascii := " "%char.
Definition byte_dquote : ascii := "034"%char.
Definition byte_hash : ascii := "#"%char.

(** [utf8.RuneSelf]: bytes below 0x80 are single-byte runes. *)
Definition RuneSelf : nat := 128.

Definition isASCII (b : ascii) : bool := nat_of_ascii b <? RuneSelf.

(** [strings.HasPrefix(s, p)], also returning the remainder. *)
Fixpoint stripPrefix (p s : gostring) : option gostring :=
  match p, s with
  | [], _ => Some s
  | a :: p', b :: s' => if Ascii.eqb a b then stripPrefix p' s' else None
  | _ :: _, [] => None
  end.

Definition HasPrefix (s p : gostring) : bool :=
  match stripPrefix p s with Some _ => true | None => false end.

(** [strings.Index(s, substr)]: the index of the first occurrence, [None]
    standing for Go's -1. *)
Fixpoint Index (s substr : gostring) : option nat :=
  if HasPrefix s substr then Some 0
  else match s with
       | [] => None
       | _ :: t => S <$> Index t substr
       end.

(** [strings.Contains(s, substr)] is [Index(s, substr) >= 0]. *)
Definition Contains (s substr : gostring) : bool :=
  match Index s substr with Some _ => true | None => false end.

(** [strings.Split(s, sep)] for a non-empty separator: cut at each
    occurrence of [sep], left to right (Go's [genSplit]); the fuel bounds
    the number of cuts by the length of [s]. *)
Fixpoint genSplit (fuel : nat) (s sep : gostring) : list gostring :=
  match fuel with
  | 0 => [s]
  | S fuel' =>
      match Index s sep with
      | None => [s]
      | Some m => take m s :: genSplit fuel' (drop (m + length sep) s) sep
      end
  end.

Definition Split (s sep : gostring) : list gostring :=
  genSplit (length s) s sep.

(** [strings.ToLower] on its ASCII path: 'A'..'Z' map to 'a'..'z', other
    bytes are kept. That is what Go does for a string of bytes below
    0x80, and both call sites pass such a literal; for a string with a
    byte of 0x80 or more Go maps rune by rune through the Unicode case
    tables, which this definition does not follow. *)
Definition lowerByte (b : ascii) : ascii :=
  let n := nat_of_ascii b in
  if (65 <=? n) && (n <=? 90) then ascii_of_nat (n + 32) else b.

Definition ToLower (s : gostring) : gostring := map lowerByte s.

(** *** White space, as [unicode.IsSpace] sees it through UTF-8

    The code points with the White_Space property and their UTF-8
    encodings: the six ASCII ones, U+0085, U+00A0, U+1680, U+2000..U+200A,
    U+2028, U+2029, U+202F, U+205F and U+3000. *)
Definition spaceEncodings : list gostring :=
  [ [byte_tab]; [byte_lf]; [byte_vt]; [byte_ff]; [byte_cr]; [byte_sp];
    ["194"; "133"]; ["194"; "160"];
    ["225"; "154"; "128"];
    ["226"; "128"; "128"]; ["226"; "128"; "129"]; ["226"; "128"; "130"];
    ["226"; "128"; "131"]; ["226"; "128"; "132"]; ["226"; "128"; "133"];
    ["226"; "128"; "134"]; ["226"; "128"; "135"]; ["226"; "128"; "136"];
    ["226"; "128"; "137"]; ["226"; "128"; "138"];
    ["226"; "128"; "168"]; ["226"; "128"; "169"]; ["226"; "128"; "175"];
    ["226"; "129"; "159"];
    ["227"; "128"; "128"] ]%char.

(** The rest of [s] after one leading white-space rune, if [s] starts
    with one. Every encoding above is well-formed UTF-8, other
    well-formed sequences decode to other runes and ill-formed bytes
    decode to U+FFFD, which is not white space: [s] starts with a
    white-space rune exactly when it starts with one of the encodings. *)
Definition leadingSpace (s : gostring) : option gostring :=
  foldr (fun enc acc =>
           match stripPrefix enc s with Some r => Some r | None => acc end)
        None spaceEncodings.

(** [s] without one trailing white-space rune, if it ends with one.
    [utf8.DecodeLastRuneInString] steps back from the last byte to the
    nearest byte that starts a rune and decodes from there, so a string
    ends with a white-space rune exactly when it ends with one of the
    encodings above, whatever comes before. *)
Definition trailingSpace (s : gostring) : option gostring :=
  foldr (fun enc acc =>
           match stripPrefix (rev enc) (rev s) with
           | Some r => Some (rev r)
           | None => acc
           end)
        None spaceEncodings.

Fixpoint trimLeftLoop (fuel : nat) (s : gostring) : gostring :=
  match fuel with
  | 0 => s
  | S fuel' =>
      match leadingSpace s with
      | Some r => trimLeftLoop fuel' r
      | None => s
      end
  end.

Fixpoint trimRightLoop (fuel : nat) (s : gostring) : gostring :=
  match fuel with
  | 0 => s
  | S fuel' =>
      match trailingSpace s with
      | Some r => trimRightLoop fuel' r
      | None => s
      end
  end.

(** [strings.TrimLeftFunc(s, unicode.IsSpace)]. *)
Definition TrimLeftSpace (s : gostring) : gostring := trimLeftLoop (length s) s.

(** [strings.TrimRightFunc(s, unicode.IsSpace)]. *)
Definition TrimRightSpace (s : gostring) : gostring := trimRightLoop (length s) s.

(** [strings.TrimSpace]: leading white space is removed first, then
    trailing white space of what is left (Go's fast path for ASCII falls
    back to exactly this on the first byte above 0x7F). *)
Definition TrimSpace (s : gostring) : gostring :=
  TrimRightSpace (TrimLeftSpace s).

(** ** Go values, errors and the execution context *)

(** IEEE-754 binary64, as the Standard Library specifies it. *)
Abbreviation float64 := spec_float.

Definition Float64OfZ (z : Z) : float64 := binary_normalize 53 1024 z 0 false.

(** A value of Go's [any], as [encoding/json] decodes request arguments:
    nil, bool, float64, string, slice and string-keyed map. *)
Inductive any : Type :=
| ANil
| ABool (b : bool)
| AFloat64 (f : float64)
| AString (s : gostring)
| ASlice (l : list any)
| AMap (m : gmap gostring any).

(** Go's [error] values that reach the handlers: the two sentinels of
    package [context], and any other error, known by its message. *)
Inductive error : Type :=
| Canceled
| DeadlineExceeded
| errorString (msg : gostring).

Global Instance error_eq_dec : EqDecision error.
Proof. solve_decision. Defined.

(** [err.Error()]. *)
Definition Error (e : error) : gostring :=
  match e with
  | Canceled => B "context canceled"
  | DeadlineExceeded => B "context deadline exceeded"
  | errorString msg => msg
  end.

(** [errors.Is(err, target)] for a sentinel [target]; [None] is nil. *)
Definition errors_Is (err : option error) (target : error) : bool :=
  match err with
  | Some e => bool_decide (e = target)
  | None => false
  end.

(** The state of a [context.Context] as the handler observes it once the
    command has returned. *)
Inductive Context : Type :=
| ctxActive
| ctxCanceled
| ctxDeadlineExceeded.

(** [ctx.Err()]. *)
Definition Err (ctx : Context) : option error :=
  match ctx with
  | ctxActive => None
  | ctxCanceled => Some Canceled
  | ctxDeadlineExceeded => Some DeadlineExceeded
  end.

(** "%v" applied to an error; a nil error prints as "<nil>". *)
Definition fmt_v (err : option error) : gostring :=
  match err with
  | Some e => Error e
  | None => B "<nil>"
  end.

(** ** mcp-go: requests and results *)

Record CallToolRequest : Type := { Arguments : any }.

(** [request.GetArguments()]: the argument map, or a nil map when the
    arguments are not a map. *)
Definition GetArguments (request : CallToolRequest) : gmap gostring any :=
  match Arguments request with
  | AMap m => m
  | _ => ∅
  end.

(** "%q" on a key made of printable ASCII without quotes or backslashes. *)
Definition fmt_q (key : gostring) : gostring :=
  [byte_dquote] ++ key ++ [byte_dquote].

(** [request.RequireString(key)] of mcp-go: the string under [key], or an
    error that tells a missing argument from one of another type. *)
Definition RequireString (request : CallToolRequest) (key : gostring)
  : gostring * option error :=
  match GetArguments request !! key with
  | Some (AString str) => (str, None)
  | Some _ =>
      ([], Some (errorString (B "argument " ++ fmt_q key ++ B " is not a string")))
  | None =>
      ([], Some (errorString (B "required argument " ++ fmt_q key ++ B " not found")))
  end.

(** The text content and the error flag of a [*mcp.CallToolResult]. *)
Record CallToolResult : Type := { Text : gostring; IsError : bool }.

Definition NewToolResultText (text : gostring) : CallToolResult :=
  {| Text := text; IsError := false |}.

Definition NewToolResultError (text : gostring) : CallToolResult :=
  {| Text := text; IsError := true |}.

(** ** fmt: the "%.0f" verb *)

(** The decimal digits of a natural number. *)
Definition decimal (n : Z) : gostring :=
  B (NilEmpty.string_of_uint (N.to_uint (Z.to_N n))).

(** [m * 2^e] rounded to an integer, ties to even: what [strconv] does for
    precision 0 on the exact decimal expansion of the value. *)
Definition roundHalfEven (m : positive) (e : Z) : Z :=
  if (0 <=? e)%Z then (Z.pos m * 2 ^ e)%Z
  else
    let d := (2 ^ (- e))%Z in
    let q := (Z.pos m / d)%Z in
    let r := (Z.pos m mod d)%Z in
    if (2 * r <? d)%Z then q
    else if (d <? 2 * r)%Z then (q + 1)%Z
    else if Z.even q then q else (q + 1)%Z.

(** [fmt.Sprintf("%.0f", f)]. *)
Definition fmt_f0 (f : float64) : gostring :=
  match f with
  | S754_nan => B "NaN"
  | S754_infinity false => B "+Inf"
  | S754_infinity true => B "-Inf"
  | S754_zero s => (if s then B "-" else []) ++ B "0"
  | S754_finite s m e => (if s then B "-" else []) ++ decimal (roundHalfEven m e)
  end.

(** The float64 constants that the rate checks compare against. *)
Definition f64_0 : float64 := S754_zero false.
Definition f64_90 : float64 := Eval vm_compute in Float64OfZ 90.
Definition f64_500 : float64 := Eval vm_compute in Float64OfZ 500.

(** ** os/exec as an effect *)

Record Cmd : Type := { cmdCtx : Context; Path : gostring; Args : list gostring }.

(** [exec.CommandContext(ctx, name, args...)]. *)
Definition CommandContext (ctx : Context) (name : gostring) (args : list gostring) : Cmd :=
  {| cmdCtx := ctx; Path := name; Args := args |}.

(** A handler either returns, or runs a command with [CombinedOutput] and
    goes on with the captured output and the error. *)
Inductive Exec (A : Type) : Type :=
| Ret (a : A)
| CombinedOutput (cmd : Cmd) (k : gostring * option error -> Exec A).

Arguments Ret {A} a.
Arguments CombinedOutput {A} cmd k.

(** The operating system: what each command outputs and how it ends. *)
Definition System : Type := Cmd -> gostring * option error.

(** Running a handler against a system: its return value and the commands
    it started, in order. *)
Fixpoint runExec {A : Type} (sys : System) (p : Exec A) : A * list Cmd :=
  match p with
  | Ret a => (a, [])
  | CombinedOutput cmd k =>
      let '(a, log) := runExec sys (k (sys cmd)) in (a, cmd :: log)
  end.

Definition isEmpty (s : gostring) : bool :=
  match s with [] => true | _ :: _ => false end.

Definition sayCommand : gostring := B "/usr/bin/say".

Definition newline : gostring := [byte_lf].

Definition permissionGuidance : gostring :=
  newline ++ newline ++
  B "Permission denied. Please ensure:" ++ newline ++
  B "1. The application has accessibility permissions in System Preferences" ++ newline ++
  B "2. You are running in a user session with audio output available" ++ newline ++
  B "3. You are not running in an SSH session without audio forwarding".

(** ** regexp: a backtracking matcher with Go's leftmost-first preference

    The matcher works on bytes. For the voice pattern this agrees with Go's
    rune-wise matching: every boundary between two pieces of the pattern
    is next to an ASCII byte (a white-space byte or '#') or at an end of
    the text, and bytes of a multi-byte rune are neither '\n' nor in \s. *)

Inductive regex : Type :=
| EmptyMatch
| Class (p : ascii -> bool)          (* one byte of a class: ., \s, \S, a literal *)
| Concat (r1 r2 : regex)
| Star (greedy : bool) (r : regex)    (* r* when greedy, r*? otherwise *)
| Capture (n : nat) (r : regex)       (* the n-th parenthesised group *)
| BeginText                           (* ^ without the m flag *)
| EndText.                            (* $ without the m flag *)

(** x+ is x followed by x*, x+? is x followed by x*?. *)
Definition Plus (greedy : bool) (r : regex) : regex := Concat r (Star greedy r).

(** The positions [(start, end)] recorded for the groups, latest first. *)
Definition captures : Type := list (nat * (nat * nat)).

(** The positions recorded last for group [n]. *)
Fixpoint lookupGroup (c : captures) (n : nat) : option (nat * nat) :=
  match c with
  | [] => None
  | (m, ij) :: c' => if m =? n then Some ij else lookupGroup c' n
  end.

Definition orElse {A : Type} (x y : option A) : option A :=
  match x with Some a => Some a | None => y end.

Section Matcher.

Variable s : gostring.

Definition cont : Type := nat -> captures -> option captures.

(** Iterating [step]: a greedy loop prefers one more iteration, a lazy
    one prefers to leave; an iteration must consume input. *)
Fixpoint loop (step : nat -> captures -> cont -> option captures)
         (greedy : bool) (fuel : nat) (i : nat) (c : captures) (k : cont)
  : option captures :=
  match fuel with
  | 0 => k i c
  | S fuel' =>
      let again :=
        step i c (fun j c' => if i <? j then loop step greedy fuel' j c' k else None) in
      if greedy then orElse again (k i c) else orElse (k i c) again
  end.

Fixpoint run (r : regex) (i : nat) (c : captures) (k : cont) : option captures :=
  match r with
  | EmptyMatch => k i c
  | Class p =>
      match s !! i with
      | Some a => if p a then k (S i) c else None
      | None => None
      end
  | Concat r1 r2 => run r1 i c (fun j c' => run r2 j c' k)
  | Star greedy r' => loop (run r') greedy (S (length s - i)) i c k
  | Capture n r' => run r' i c (fun j c' => k j ((n, (i, j)) :: c'))
  | BeginText => if i =? 0 then k i c else None
  | EndText => if i =? length s then k i c else None
  end.

(** The first start position, from the left, at which [r] matches. *)
Fixpoint search (r : regex) (fuel : nat) (start : nat) : option captures :=
  match run r start [] (fun j c => Some ((0, (start, j)) :: c)) with
  | Some c => Some c
  | None =>
      match fuel with
      | 0 => None
      | S fuel' => search r fuel' (S start)
      end
  end.

Definition substr (i j : nat) : gostring := take (j - i) (drop i s).

(** The text of the n-th group; a group that took no part is empty. *)
Definition group (c : captures) (n : nat) : gostring :=
  match lookupGroup c n with
  | Some (i, j) => substr i j
  | None => []
  end.

End Matcher.

Arguments substr : simpl never.

Record Regexp : Type := { expr : regex; NumSubexp : nat }.

(** [re.FindStringSubmatch(s)]: [None] is the nil slice of "no match";
    otherwise the whole match followed by the groups. *)
Definition FindStringSubmatch (re : Regexp) (s : gostring) : option (list gostring) :=
  match search s (expr re) (length s) 0 with
  | Some c => Some (map (group s c) (seq 0 (S (NumSubexp re))))
  | None => None
  end.

(** The classes of the voice pattern. *)
Definition anyCharNotNL (b : ascii) : bool := negb (Ascii.eqb b byte_lf).

Definition perlSpace (b : ascii) : bool :=
  Ascii.eqb b byte_tab || Ascii.eqb b byte_lf || Ascii.eqb b byte_ff
  || Ascii.eqb b byte_cr || Ascii.eqb b byte_sp.

Definition notPerlSpace (b : ascii) : bool := negb (perlSpace b).

Definition isHash (b : ascii) : bool := Ascii.eqb b byte_hash.

(** The compiled voice pattern; piece by piece it reads
    [^], [(.+?)], [\s+], [(\S+)], [\s+], [#], [\s*], [( .* )], [$]. *)
Definition voicePattern : Regexp :=
  {| expr :=
       Concat BeginText
      (Concat (Capture 1 (Plus false (Class anyCharNotNL)))
      (Concat (Plus true (Class perlSpace))
      (Concat (Capture 2 (Plus true (Class notPerlSpace)))
      (Concat (Plus true (Class perlSpace))
      (Concat (Class isHash)
      (Concat (Star true (Class perlSpace))
      (Concat (Capture 3 (Star true (Class anyCharNotNL)))
              EndText)))))));
     NumSubexp := 3 |}.

(** ** The voice-list parser *)

Record Voice : Type := { Name : gostring; Locale : gostring; Description : gostring }.

(** The body of the [for _, line := range lines] loop: the voices a line
    appends. *)
Definition parseLine (line : gostring) : list Voice :=
  let line := TrimSpace line in
  if isEmpty line then []
  else
    match FindStringSubmatch voicePattern line with
    | Some [_; m1; m2; m3] =>
        [ {| Name := TrimSpace m1; Locale := TrimSpace m2; Description := TrimSpace m3 |} ]
    | _ => []
    end.

(** Lines 175-196 of main.go: split the output into lines and collect the
    voices in order. *)
Definition parseVoices (output : gostring) : list Voice :=
  let lines := Split output newline in
  foldl (fun voices line => voices ++ parseLine line) [] lines.

(** ** encoding/json: MarshalIndent on the response structure *)

(** [utf8.DecodeRuneInString]: the rune and its width in bytes; an invalid
    or short sequence decodes to [(RuneError, 1)], the empty string to
    [(RuneError, 0)]. *)
Definition RuneError : N := 65533.

Definition inRange (lo hi b : N) : bool := ((lo <=? b) && (b <=? hi))%N.

Definition DecodeRuneInString (s : gostring) : N * nat :=
  match map N_of_ascii s with
  | [] => (RuneError, 0)
  | s0 :: rest =>
      if (s0 <? 128)%N then (s0, 1)
      else
        (* size and accepted range of the second byte, from Go's [first] table *)
        let info : option (nat * N * N) :=
          if inRange 194%N 223%N s0 then Some (2, 128%N, 191%N)
          else if (s0 =? 224)%N then Some (3, 160%N, 191%N)
          else if inRange 225%N 236%N s0 then Some (3, 128%N, 191%N)
          else if (s0 =? 237)%N then Some (3, 128%N, 159%N)
          else if inRange 238%N 239%N s0 then Some (3, 128%N, 191%N)
          else if (s0 =? 240)%N then Some (4, 144%N, 191%N)
          else if inRange 241%N 243%N s0 then Some (4, 128%N, 191%N)
          else if (s0 =? 244)%N then Some (4, 128%N, 143%N)
          else None in
        match info with
        | None => (RuneError, 1)
        | Some (sz, lo, hi) =>
            if length s <? sz then (RuneError, 1)
            else
              match rest with
              | s1 :: rest1 =>
                  if negb (inRange lo hi s1) then (RuneError, 1)
                  else if sz <=? 2 then
                    ((N.land s0 31 * 64 + N.land s1 63)%N, 2)
                  else
                    match rest1 with
                    | s2 :: rest2 =>
                        if negb (inRange 128%N 191%N s2) then (RuneError, 1)
                        else if sz <=? 3 then
                          ((N.land s0 15 * 4096 + N.land s1 63 * 64 + N.land s2 63)%N, 3)
                        else
                          match rest2 with
                          | s3 :: _ =>
                              if negb (inRange 128%N 191%N s3) then (RuneError, 1)
                              else
                                ((N.land s0 7 * 262144 + N.land s1 63 * 4096
                                  + N.land s2 63 * 64 + N.land s3 63)%N, 4)
                          | [] => (RuneError, 1)
                          end
                    | [] => (RuneError, 1)
                    end
              | [] => (RuneError, 1)
              end
        end
  end.

Definition hexDigit (n : N) : ascii :=
  nth (N.to_nat n) (B "0123456789abcdef") "0"%char.

Definition byte_backslash : ascii := "092"%char.

(** The bytes that [appendString] copies unescaped when HTML escaping is
    on: printable ASCII (and DEL) except the quote, the backslash, and
    the three HTML characters. *)
Definition htmlSafe (b : ascii) : bool :=
  let n := N_of_ascii b in
  (32 <=? n)%N && (n <? 128)%N
  && negb (Ascii.eqb b byte_dquote) && negb (Ascii.eqb b byte_backslash)
  && negb (Ascii.eqb b "<"%char) && negb (Ascii.eqb b ">"%char)
  && negb (Ascii.eqb b "&"%char).

(** The escape of an ASCII byte that is not [htmlSafe] (backspace and
    form feed have had short escapes since Go 1.22). *)
Definition escapeByte (b : ascii) : gostring :=
  if Ascii.eqb b byte_backslash || Ascii.eqb b byte_dquote then [byte_backslash; b]
  else if Ascii.eqb b "008"%char then [byte_backslash; "b"%char]
  else if Ascii.eqb b byte_ff then [byte_backslash; "f"%char]
  else if Ascii.eqb b byte_lf then [byte_backslash; "n"%char]
  else if Ascii.eqb b byte_cr then [byte_backslash; "r"%char]
  else if Ascii.eqb b byte_tab then [byte_backslash; "t"%char]
  else
    let n := N_of_ascii b in
    [byte_backslash; "u"; "0"; "0"; hexDigit (n / 16); hexDigit (n mod 16)]%char.

(** U+FFFD in UTF-8. *)
Definition replacementBytes : gostring := ["239"; "191"; "189"]%char.

(** The body of a JSON string: ASCII is copied or escaped, a valid
    multi-byte rune is copied (U+2028 and U+2029 are escaped), an invalid
    byte becomes U+FFFD, written as its three bytes. (Releases of Go
    whose encoder predates the json/v2 implementation wrote the six-byte
    escape of U+FFFD there; a reader of JSON gets the same string.) *)
Fixpoint appendStringLoop (fuel : nat) (src : gostring) : gostring :=
  match fuel with
  | 0 => []
  | S fuel' =>
      match src with
      | [] => []
      | b :: rest =>
          if isASCII b then
            (if htmlSafe b then [b] else escapeByte b) ++ appendStringLoop fuel' rest
          else
            let '(c, size) := DecodeRuneInString (take 4 src) in
            if (c =? RuneError)%N && (size =? 1) then
              replacementBytes ++ appendStringLoop fuel' rest
            else if (c =? 8232)%N || (c =? 8233)%N then
              [byte_backslash; "u"; "2"; "0"; "2"; hexDigit (N.land c 15)]%char
              ++ appendStringLoop fuel' (drop size src)
            else
              take size src ++ appendStringLoop fuel' (drop size src)
      end
  end.

Definition appendString (src : gostring) : gostring :=
  [byte_dquote] ++ appendStringLoop (length src) src ++ [byte_dquote].

(** The JSON values that the response structure marshals to. *)
Inductive json : Type :=
| JString (s : gostring)
| JArray (items : list json)
| JObject (fields : list (gostring * json)).

(** [sep]-separated concatenation. *)
Fixpoint joinWith (sep : gostring) (parts : list gostring) : gostring :=
  match parts with
  | [] => []
  | [x] => x
  | x :: rest => x ++ sep ++ joinWith sep rest
  end.

Fixpoint repeatString (n : nat) (s : gostring) : gostring :=
  match n with 0 => [] | S n' => s ++ repeatString n' s end.

(** [json.Indent] after [json.Marshal]: every element of a non-empty
  array or object starts on a line of its own, indented by [prefix]
  and [depth] copies of [indent]; a colon is followed by one space;
  empty arrays and objects stay closed on the spot. *)
Section Indent.

Variables prefix indent : gostring.

Definition indentLine (depth : nat) : gostring :=
  newline ++ prefix ++ repeatString depth indent.

Fixpoint marshalValue (depth : nat) (v : json) : gostring :=
  match v with
  | JString s => appendString s
  | JArray [] => B "[]"
  | JArray items =>
      B "[" ++ indentLine (S depth)
      ++ joinWith (B "," ++ indentLine (S depth)) (map (marshalValue (S depth)) items)
      ++ indentLine depth ++ B "]"
  | JObject [] => B "{}"
  | JObject fields =>
      B "{" ++ indentLine (S depth)
      ++ joinWith (B "," ++ indentLine (S depth))
           (map (fun kv => let '(k, x) := kv in
                           appendString k ++ B ": " ++ marshalValue (S depth) x) fields)
      ++ indentLine depth ++ B "}"
  end.

End Indent.

(** The struct tags: a [Voice] marshals to an object with the fields
    name, locale and description, in the order of declaration. *)
Definition jsonOfVoice (v : Voice) : json :=
  JObject [ (B "name", JString (Name v));
            (B "locale", JString (Locale v));
            (B "description", JString (Description v)) ].

Record VoicesResponse : Type := { Voices : list Voice }.

Definition jsonOfVoicesResponse (r : VoicesResponse) : json :=
  JObject [ (B "voices", JArray (map jsonOfVoice (Voices r))) ].

(** [json.MarshalIndent(response, prefix, indent)]; strings, slices and
    structs of strings never fail to marshal, so the error is nil. *)
Definition MarshalIndent (r : VoicesResponse) (prefix indent : gostring)
  : gostring * option error :=
  (marshalValue prefix indent 0 (jsonOfVoicesResponse r), None).

(** ** The handlers *)

(** The optional-parameter steps of [handleSpeak] are the same in both
    revisions of the file; each step either extends [args] or returns. *)

(** [if voice, ok := allArgs["voice"].(string); ok && voice != ""]. *)
Definition addVoice (allArgs : gmap gostring any) (args : list gostring) : list gostring :=
  match allArgs !! B "voice" with
  | Some (AString voice) =>
      if negb (isEmpty voice) then args ++ [B "-v"; voice] else args
  | _ => args
  end.

(** [if rate, ok := allArgs["rate"].(float64); ok && rate > 0]: an early
    return with the range error, or the extended [args]. *)
Definition addRate (allArgs : gmap gostring any) (args : list gostring)
  : CallToolResult + list gostring :=
  match allArgs !! B "rate" with
  | Some (AFloat64 rate) =>
      if SFltb f64_0 rate then
        if SFltb rate f64_90 || SFltb f64_500 rate then
          inl (NewToolResultError
                 (B "Rate " ++ fmt_f0 rate ++
                  B " is outside acceptable range (90-500 words per minute)"))
        else inr (args ++ [B "-r"; fmt_f0 rate])
      else inr args
  | _ => inr args
  end.

Module Main.

(** [handleSpeak] of main.go. *)
Definition handleSpeak (ctx : Context) (request : CallToolRequest)
  : Exec (CallToolResult * option error) :=
  match RequireString request (B "text") with
  | (_, Some err) =>
      Ret (NewToolResultError (B "Invalid parameter 'text': " ++ Error err), None)
  | (text, None) =>
      let text := TrimSpace text in
      if isEmpty text then
        Ret (NewToolResultError (B "Parameter 'text' cannot be empty"), None)
      else
        let args : list gostring := [] in
        let allArgs := GetArguments request in
        let args := addVoice allArgs args in
        match addRate allArgs args with
        | inl failure => Ret (failure, None)
        | inr args =>
            let args := args ++ [text] in
            let cmd := CommandContext ctx sayCommand args in
            CombinedOutput cmd (fun '(output, err) =>
              match err with
              | Some err =>
                  if errors_Is (Err ctx) Canceled || errors_Is (Err ctx) DeadlineExceeded then
                    Ret (NewToolResultError
                           (B "Speech synthesis cancelled: " ++ fmt_v (Err ctx)), None)
                  else
                    let errMsg := B "Failed to execute speech synthesis: " ++ Error err in
                    let errMsg :=
                      if 0 <? length output
                      then errMsg ++ newline ++ B "Output: " ++ output
                      else errMsg in
                    let errMsg :=
                      if Contains (Error err) (B "permission denied")
                      then errMsg ++ permissionGuidance
                      else errMsg in
                    Ret (NewToolResultError errMsg, None)
              | None =>
                  Ret (NewToolResultText (B "Successfully spoke: " ++ text), None)
              end)
        end
  end.

(** [handleVoices] of main.go. *)
Definition handleVoices (ctx : Context) (request : CallToolRequest)
  : Exec (CallToolResult * option error) :=
  let cmd := CommandContext ctx sayCommand [B "-v"; B "?"] in
  CombinedOutput cmd (fun '(output, err) =>
    match err with
    | Some err =>
        if errors_Is (Err ctx) Canceled || errors_Is (Err ctx) DeadlineExceeded then
          Ret (NewToolResultError (B "Voice listing cancelled: " ++ fmt_v (Err ctx)), None)
        else
          let errMsg := B "Failed to retrieve voice list: " ++ Error err in
          let errMsg :=
            if 0 <? length output
            then errMsg ++ newline ++ B "Output: " ++ output
            else errMsg in
          Ret (NewToolResultError errMsg, None)
    | None =>
        let voices := parseVoices output in
        let response := {| Voices := voices |} in
        match MarshalIndent response [] (B "  ") with
        | (_, Some err) =>
            Ret (NewToolResultError (B "Failed to format voice list: " ++ Error err), None)
        | (jsonData, None) => Ret (NewToolResultText jsonData, None)
        end
    end).

End Main.

Module Refactored.

(** [formatCommandError] builds an error message for say command failures. *)
Definition formatCommandError (ctx : Context) (action : gostring) (err : error)
           (output : gostring) : gostring :=
  if errors_Is (Err ctx) Canceled || errors_Is (Err ctx) DeadlineExceeded then
    action ++ B " cancelled: " ++ fmt_v (Err ctx)
  else
    let errMsg := B "Failed to " ++ ToLower action ++ B ": " ++ Error err in
    let errMsg :=
      if 0 <? length output
      then errMsg ++ newline ++ B "Output: " ++ output
      else errMsg in
    let errMsg :=
      if Contains (Error err) (B "permission denied")
      then errMsg ++ permissionGuidance
      else errMsg in
    errMsg.

(** [handleSpeak] of the revision with [formatCommandError]. *)
Definition handleSpeak (ctx : Context) (request : CallToolRequest)
  : Exec (CallToolResult * option error) :=
  match RequireString request (B "text") with
  | (_, Some err) =>
      Ret (NewToolResultError (B "Invalid parameter 'text': " ++ Error err), None)
  | (text, None) =>
      let text := TrimSpace text in
      if isEmpty text then
        Ret (NewToolResultError (B "Parameter 'text' cannot be empty"), None)
      else
        let args : list gostring := [] in
        let allArgs := GetArguments request in
        let args := addVoice allArgs args in
        match addRate allArgs args with
        | inl failure => Ret (failure, None)
        | inr args =>
            let args := args ++ [text] in
            let cmd := CommandContext ctx sayCommand args in
            CombinedOutput cmd (fun '(output, err) =>
              match err with
              | Some err =>
                  Ret (NewToolResultError
                         (formatCommandError ctx (B "Execute speech synthesis") err output),
                       None)
              | None =>
                  Ret (NewToolResultText (B "Successfully spoke: " ++ text), None)
              end)
        end
  end.

(** [handleVoices] of the revision with [formatCommandError]. *)
Definition handleVoices (ctx : Context) (request : CallToolRequest)
  : Exec (CallToolResult * option error) :=
  let cmd := CommandContext ctx sayCommand [B "-v"; B "?"] in
  CombinedOutput cmd (fun '(output, err) =>
    match err with
    | Some err =>
        Ret (NewToolResultError
               (formatCommandError ctx (B "Retrieve voice list") err output), None)
    | None =>
        let voices := parseVoices output in
        match MarshalIndent {| Voices := voices |} [] (B "  ") with
        | (_, Some err) =>
            Ret (NewToolResultError (B "Failed to format voice list: " ++ Error err), None)
        | (jsonData, None) => Ret (NewToolResultText jsonData, None)
        end
    end).

End Refactored.

(** ** Sample inputs *)

(** The nearest binary64 to 120.4 is 0x405E19999999999A. *)
Definition f64_120_4 : float64 := S754_finite false 8472396798990746 (-46).

Definition sysOK : System := fun _ => ([], None).

(** * The vocabulary of the properties *)

(** ** Rounding and the argument list *)

(** [n] is an integer nearest to [m * 2^e]: equal to it when the value is
    an integer, else at distance at most one half (both sides of the
    inequality are scaled by [2 * 2^(-e)]). *)
Definition nearestInteger (m : positive) (e : Z) (n : Z) : Prop :=
  if (0 <=? e)%Z then n = (Z.pos m * 2 ^ e)%Z
  else (Z.abs (2 * Z.pos m - 2 * n * 2 ^ (- e)) <= 2 ^ (- e))%Z.

(** A decimal digit. *)
Definition isDigit (b : ascii) : bool :=
  let n := nat_of_ascii b in (48 <=? n) && (n <=? 57).

Definition allOf (p : ascii -> bool) (w : gostring) : Prop :=
  Forall (fun a => p a = true) w.

(** The tokens that the voice and the rate contribute. *)
Definition voiceTokens (voice : option gostring) : list gostring :=
  match voice with Some v => [B "-v"; v] | None => [] end.

Definition rateTokens (rate : option float64) : list gostring :=
  match rate with
  | Some r => if SFltb f64_0 r then [B "-r"; fmt_f0 r] else []
  | None => []
  end.

(** The optional voice of a request: absent, or a non-empty string. *)
Definition voiceIs (allArgs : gmap gostring any) (voice : option gostring) : Prop :=
  match voice with
  | Some v => allArgs !! B "voice" = Some (AString v) /\ v <> []
  | None => allArgs !! B "voice" = None
  end.

(** The optional rate of a request: absent, or a number that lies in
    [90, 500] when it is above zero. *)
Definition rateIs (allArgs : gmap gostring any) (rate : option float64) : Prop :=
  match rate with
  | Some r => allArgs !! B "rate" = Some (AFloat64 r)
              /\ (SFltb f64_0 r = true ->
                  SFleb f64_90 r = true /\ SFleb r f64_500 = true)
  | None => allArgs !! B "rate" = None
  end.

(** The expected argument list: the voice pair, then the
    rate pair, then the trimmed text. *)
Definition speakArgs (text : gostring) (voice : option gostring) (rate : option float64)
  : list gostring :=
  voiceTokens voice ++ rateTokens rate ++ [TrimSpace text].

(** Text made of white-space runes only. *)
Definition whitespaceOnly (s : gostring) : Prop :=
  exists runes, Forall (fun enc => enc ∈ spaceEncodings) runes /\ s = concat runes.

(** ** Validation *)

(** The ways in which a speak request fails validation. *)
Inductive failsValidation (request : CallToolRequest) : Prop :=
| textMissing :
    GetArguments request !! B "text" = None -> failsValidation request
| textNotString (v : any) :
    GetArguments request !! B "text" = Some v -> (forall s, v <> AString s) ->
    failsValidation request
| textEmpty (text : gostring) :
    GetArguments request !! B "text" = Some (AString text) -> TrimSpace text = [] ->
    failsValidation request
| textWhitespace (text : gostring) :
    GetArguments request !! B "text" = Some (AString text) -> whitespaceOnly text ->
    failsValidation request
| rateOutOfRange (rate : float64) :
    GetArguments request !! B "rate" = Some (AFloat64 rate) ->
    SFltb f64_0 rate = true ->
    SFltb rate f64_90 = true \/ SFltb f64_500 rate = true ->
    failsValidation request.

(** A handler that returns an error result at once: no command is run,
    whatever the system. *)
Definition rejectsLocally (p : Exec (CallToolResult * option error)) : Prop :=
  (exists msg, p = Ret (NewToolResultError msg, None))
  /\ forall sys, snd (runExec sys p) = [].

(** ** Optional entries of the wrong type *)

Definition requestOf (m : gmap gostring any) : CallToolRequest :=
  {| Arguments := AMap m |}.

(** An optional entry whose value has the wrong type: a voice that is
    not a string, a rate that is not a float64. *)
Definition wrongType (key : gostring) (v : any) : Prop :=
  (key = B "voice" /\ forall s, v <> AString s)
  \/ (key = B "rate" /\ forall f, v <> AFloat64 f).

(** ** Command failures: cancellation and permission guidance *)

(** The context is done: cancelled or past its deadline. *)
Definition cancelled (ctx : Context) : Prop :=
  ctx = ctxCanceled \/ ctx = ctxDeadlineExceeded.

(** The message of the cancellation class: the action and the cause. *)
Definition cancellationMessage (action : gostring) (ctx : Context) : gostring :=
  action ++ B " cancelled: " ++ fmt_v (Err ctx).

(** The messages of the execution-failure class start with "Failed to ". *)
Definition executionFailureClass (msg : gostring) : bool :=
  HasPrefix msg (B "Failed to ").

(** The message of the execution-failure class before any guidance: the
    action, the underlying error, and the captured output if there is any. *)
Definition baseErrorMessage (action : gostring) (err : error) (output : gostring)
  : gostring :=
  let errMsg := B "Failed to " ++ action ++ B ": " ++ Error err in
  if 0 <? length output then errMsg ++ newline ++ B "Output: " ++ output else errMsg.

(** What a handler does once its command has returned [res]; [None] when
    the handler returns without running a command. *)
Definition afterCommand {A : Type} (p : Exec A) (res : gostring * option error)
  : option (Exec A) :=
  match p with
  | CombinedOutput _ k => Some (k res)
  | Ret _ => None
  end.

(** A request to say "Hi", and a system whose every command fails to
    start for lack of permission. *)
Definition requestHi : CallToolRequest := requestOf {[ B "text" := AString (B "Hi") ]}.

Definition errDenied : error :=
  errorString (B "fork/exec /usr/bin/say: permission denied").

Definition sysDenied : System := fun _ => ([], Some errDenied).

(** A system whose commands do not start because the context is already
    cancelled: [CombinedOutput] returns the context's error. *)
Definition sysCanceled : System := fun _ => ([], Some Canceled).

(** ** Matches of an expression *)

(** [Matches s r i c j c']: [r] can match the bytes of [s] from [i] up to
    [j], turning the captures [c] into [c']. *)
Inductive Matches (s : gostring) : regex -> nat -> captures -> nat -> captures -> Prop :=
| M_Empty i c : Matches s EmptyMatch i c i c
| M_Class p i c a :
    s !! i = Some a -> p a = true -> Matches s (Class p) i c (S i) c
| M_Concat r1 r2 i c j c1 k c2 :
    Matches s r1 i c j c1 -> Matches s r2 j c1 k c2 -> Matches s (Concat r1 r2) i c k c2
| M_StarStop g r i c : Matches s (Star g r) i c i c
| M_StarStep g r i c j c1 k c2 :
    Matches s r i c j c1 -> i < j -> Matches s (Star g r) j c1 k c2 ->
    Matches s (Star g r) i c k c2
| M_Capture n r i c j c1 :
    Matches s r i c j c1 -> Matches s (Capture n r) i c j ((n, (i, j)) :: c1)
| M_Begin c : Matches s BeginText 0 c 0 c
| M_End c : Matches s EndText (length s) c (length s) c.

(** ** The shape of a catalog line *)

(** [t] reads: a name, white space, a locale without white space, white
    space, '#', optional white space, a description. White space here is
    the class \s of the pattern; the name and the description are [m1]
    and [m3], the locale is [m2]. *)
Definition voiceShape (t m1 m2 m3 : gostring) : Prop :=
  exists ws1 ws2 ws3,
    t = m1 ++ ws1 ++ m2 ++ ws2 ++ [byte_hash] ++ ws3 ++ m3
    /\ m1 <> [] /\ allOf anyCharNotNL m1
    /\ ws1 <> [] /\ allOf perlSpace ws1
    /\ m2 <> [] /\ allOf notPerlSpace m2
    /\ ws2 <> [] /\ allOf perlSpace ws2
    /\ allOf perlSpace ws3
    /\ allOf anyCharNotNL m3.

Definition voiceOf (m1 m2 m3 : gostring) : Voice :=
  {| Name := TrimSpace m1; Locale := TrimSpace m2; Description := TrimSpace m3 |}.

(** The pattern after its first group: [\s+], [(\S+)], [\s+], [#], [\s*],
    the last group and [$]. *)
Definition voiceTail : regex :=
  Concat (Plus true (Class perlSpace))
 (Concat (Capture 2 (Plus true (Class notPerlSpace)))
 (Concat (Plus true (Class perlSpace))
 (Concat (Class isHash)
 (Concat (Star true (Class perlSpace))
 (Concat (Capture 3 (Star true (Class anyCharNotNL)))
         EndText))))).

(** The cut that the pattern makes: of the ways to read [t] as a catalog
    line, the one with the shortest name, the first group being lazy. *)
Definition firstCut (t m1 m2 m3 : gostring) : Prop :=
  voiceShape t m1 m2 m3
  /\ forall m1' m2' m3', voiceShape t m1' m2' m3' -> length m1 <= length m1'.

(** [r] does not start with a byte of the class [p]. *)
Definition headFails (p : ascii -> bool) (r : gostring) : Prop :=
  match r with a :: _ => p a = false | [] => True end.

(** ** Well-formed lines and interleavings *)

(** A well-formed catalog line: once trimmed it reads name, white space,
    locale, white space, '#', optional white space, description. *)
Definition wellFormedLine (line : gostring) : Prop :=
  exists m1 m2 m3, voiceShape (TrimSpace line) m1 m2 m3.

(** [interleaved xs ys l]: [l] interleaves [xs] and [ys], keeping the
    order of each. *)
Inductive interleaved {A : Type} : list A -> list A -> list A -> Prop :=
| interleaved_nil : interleaved [] [] []
| interleaved_left x xs ys l :
    interleaved xs ys l -> interleaved (x :: xs) ys (x :: l)
| interleaved_right y xs ys l :
    interleaved xs ys l -> interleaved xs (y :: ys) (y :: l).

(** ** The list_voices payload *)

(** The layout of the payload, written out: one object per voice with
    the fields name, locale and description, each on a line of its own
    six spaces in; the objects four spaces in, separated by commas; the
    array under the single field voices, two spaces in. *)
Definition voiceObject (v : Voice) : gostring :=
  B "{" ++ newline
  ++ B "      " ++ appendString (B "name") ++ B ": " ++ appendString (Name v)
  ++ B "," ++ newline
  ++ B "      " ++ appendString (B "locale") ++ B ": " ++ appendString (Locale v)
  ++ B "," ++ newline
  ++ B "      " ++ appendString (B "description") ++ B ": "
  ++ appendString (Description v) ++ newline
  ++ B "    }".

Definition voicesDocument (voices : list Voice) : gostring :=
  B "{" ++ newline
  ++ B "  " ++ appendString (B "voices") ++ B ": "
  ++ match voices with
     | [] => B "[]"
     | _ :: _ =>
         B "[" ++ newline ++ B "    "
         ++ joinWith (B "," ++ newline ++ B "    ") (map voiceObject voices)
         ++ newline ++ B "  ]"
     end
  ++ newline ++ B "}".

(** ** JSON texts and what they denote *)

(** The white space of JSON: space, tab, line feed, carriage return. *)
Definition isWS (b : ascii) : bool :=
  Ascii.eqb b byte_sp || Ascii.eqb b byte_tab || Ascii.eqb b byte_lf
  || Ascii.eqb b byte_cr.

Fixpoint skipWS (s : gostring) : gostring :=
  match s with
  | b :: r => if isWS b then skipWS r else s
  | [] => []
  end.

(** The value of a hexadecimal digit, in either case. *)
Definition hexValue (b : ascii) : option N :=
  let n := N_of_ascii b in
  if inRange 48 57 n then Some (n - 48)%N
  else if inRange 97 102 n then Some (n - 87)%N
  else if inRange 65 70 n then Some (n - 55)%N
  else None.

Definition hex4 (a b c d : ascii) : option N :=
  match hexValue a, hexValue b, hexValue c, hexValue d with
  | Some x, Some y, Some z, Some w => Some (x * 4096 + y * 256 + z * 16 + w)%N
  | _, _, _, _ => None
  end.

(** The UTF-8 encoding of a code point. *)
Definition encodeRune (r : N) : gostring :=
  if (r <? 128)%N then [ascii_of_N r]
  else if (r <? 2048)%N then
    [ascii_of_N (192 + r / 64); ascii_of_N (128 + r mod 64)]
  else if (r <? 65536)%N then
    [ascii_of_N (224 + r / 4096); ascii_of_N (128 + (r / 64) mod 64);
     ascii_of_N (128 + r mod 64)]
  else
    [ascii_of_N (240 + r / 262144); ascii_of_N (128 + (r / 4096) mod 64);
     ascii_of_N (128 + (r / 64) mod 64); ascii_of_N (128 + r mod 64)].

(** What stands between the quotes of a string literal: bytes written as
    they are, and 16-bit units written as a backslash, the letter u and
    four hexadecimal digits. *)
Inductive item : Type :=
| Lit (b : ascii)
| Unit16 (n : N).

(** The byte that stands after a backslash for a two-byte escape. *)
Definition simpleEscape (e : ascii) : option ascii :=
  if Ascii.eqb e byte_dquote then Some byte_dquote
  else if Ascii.eqb e byte_backslash then Some byte_backslash
  else if Ascii.eqb e "/"%char then Some "/"%char
  else if Ascii.eqb e "b"%char then Some "008"%char
  else if Ascii.eqb e "f"%char then Some byte_ff
  else if Ascii.eqb e "n"%char then Some byte_lf
  else if Ascii.eqb e "r"%char then Some byte_cr
  else if Ascii.eqb e "t"%char then Some byte_tab
  else None.

Definition consItem (x : item) (o : option (list item * gostring))
  : option (list item * gostring) :=
  match o with
  | Some (l, r) => Some (x :: l, r)
  | None => None
  end.

(** The items of a string literal after its opening quote, up to the
    closing quote, and the text that follows. Control characters must be
    escaped; an unknown escape or a missing closing quote is an error. *)
Fixpoint readItems (s : gostring) : option (list item * gostring) :=
  match s with
  | [] => None
  | b :: r =>
      if Ascii.eqb b byte_dquote then Some ([], r)
      else if Ascii.eqb b byte_backslash then
        match r with
        | [] => None
        | e :: r1 =>
            if Ascii.eqb e "u"%char then
              match r1 with
              | h1 :: h2 :: h3 :: h4 :: r2 =>
                  match hex4 h1 h2 h3 h4 with
                  | Some n => consItem (Unit16 n) (readItems r2)
                  | None => None
                  end
              | _ => None
              end
            else
              match simpleEscape e with
              | Some c => consItem (Lit c) (readItems r1)
              | None => None
              end
        end
      else if (N_of_ascii b <? 32)%N then None
      else consItem (Lit b) (readItems r)
  end.

Definition isHighSurrogate (n : N) : bool := inRange 55296 56319 n.
Definition isLowSurrogate (n : N) : bool := inRange 56320 57343 n.

(** The bytes that the items stand for: a unit is a code point, written
    in UTF-8, unless it is half of a surrogate pair; a pair is one code
    point above U+FFFF, and a half without its other half reads as
    U+FFFD. *)
Fixpoint decodeItems (l : list item) : gostring :=
  match l with
  | [] => []
  | Lit b :: r => b :: decodeItems r
  | Unit16 hi :: r =>
      if isHighSurrogate hi then
        match r with
        | Unit16 lo :: r' =>
            if isLowSurrogate lo then
              encodeRune (65536 + (hi - 55296) * 1024 + (lo - 56320))%N ++ decodeItems r'
            else encodeRune RuneError ++ decodeItems r
        | _ => encodeRune RuneError ++ decodeItems r
        end
      else if isLowSurrogate hi then encodeRune RuneError ++ decodeItems r
      else encodeRune hi ++ decodeItems r
  end.

(** The string that a literal denotes, when [lit] is one string literal
    and nothing else. *)
Definition readString (lit : gostring) : option gostring :=
  match lit with
  | q :: r =>
      if Ascii.eqb q byte_dquote then
        match readItems r with
        | Some (items, []) => Some (decodeItems items)
        | _ => None
        end
      else None
  | [] => None
  end.

(** A reader of the JSON texts (RFC 8259) that are made of objects,
    arrays and strings: the value at the head of [s] and the text after
    it. White space may stand before every token. The fuel bounds the
    number of nested calls; the length of the text is enough. *)
Fixpoint readValue (fuel : nat) (s : gostring) : option (json * gostring) :=
  match fuel with
  | 0 => None
  | S fuel' =>
      match skipWS s with
      | [] => None
      | b :: r =>
          if Ascii.eqb b byte_dquote then
            match readItems r with
            | Some (items, rest) => Some (JString (decodeItems items), rest)
            | None => None
            end
          else if Ascii.eqb b "["%char then
            match skipWS r with
            | [] => None
            | c :: r' =>
                if Ascii.eqb c "]"%char then Some (JArray [], r')
                else
                  match readElements fuel' r with
                  | Some (items, rest) => Some (JArray items, rest)
                  | None => None
                  end
            end
          else if Ascii.eqb b "{"%char then
            match skipWS r with
            | [] => None
            | c :: r' =>
                if Ascii.eqb c "}"%char then Some (JObject [], r')
                else
                  match readMembers fuel' r with
                  | Some (fields, rest) => Some (JObject fields, rest)
                  | None => None
                  end
            end
          else None
      end
  end
with readElements (fuel : nat) (s : gostring) : option (list json * gostring) :=
  match fuel with
  | 0 => None
  | S fuel' =>
      match readValue fuel' s with
      | None => None
      | Some (v, r) =>
          match skipWS r with
          | [] => None
          | c :: r' =>
              if Ascii.eqb c ","%char then
                match readElements fuel' r' with
                | Some (vs, rest) => Some (v :: vs, rest)
                | None => None
                end
              else if Ascii.eqb c "]"%char then Some ([v], r')
              else None
          end
      end
  end
with readMembers (fuel : nat) (s : gostring)
  : option (list (gostring * json) * gostring) :=
  match fuel with
  | 0 => None
  | S fuel' =>
      match skipWS s with
      | [] => None
      | q :: r =>
          if Ascii.eqb q byte_dquote then
            match readItems r with
            | None => None
            | Some (items, r1) =>
                match skipWS r1 with
                | [] => None
                | c :: r2 =>
                    if Ascii.eqb c ":"%char then
                      match readValue fuel' r2 with
                      | None => None
                      | Some (v, r3) =>
                          match skipWS r3 with
                          | [] => None
                          | d :: r4 =>
                              if Ascii.eqb d ","%char then
                                match readMembers fuel' r4 with
                                | Some (fields, rest) =>
                                    Some ((decodeItems items, v) :: fields, rest)
                                | None => None
                                end
                              else if Ascii.eqb d "}"%char then
                                Some ([(decodeItems items, v)], r4)
                              else None
                          end
                      end
                    else None
                end
            end
          else None
      end
  end.

(** The value that a whole text denotes. *)
Definition readJSON (s : gostring) : option json :=
  match readValue (length s) s with
  | Some (v, rest) => if isEmpty (skipWS rest) then Some v else None
  | None => None
  end.

(** ** What the payload denotes *)

(** A string with each byte that is not part of a well-formed UTF-8
    sequence replaced by U+FFFD; a string of well-formed UTF-8 is left as
    it is. This is what a reader of JSON can get back of a Go string. *)
Fixpoint replaceInvalidLoop (fuel : nat) (s : gostring) : gostring :=
  match fuel with
  | 0 => []
  | S fuel' =>
      match s with
      | [] => []
      | _ :: rest =>
          let '(c, size) := DecodeRuneInString (take 4 s) in
          if (c =? RuneError)%N && (size =? 1) then
            replacementBytes ++ replaceInvalidLoop fuel' rest
          else take size s ++ replaceInvalidLoop fuel' (drop size s)
      end
  end.

Definition replaceInvalid (s : gostring) : gostring :=
  replaceInvalidLoop (length s) s.

(** The three string literals of a record, as they stand in the text. *)
Record Literals : Type :=
  { nameLit : gostring; localeLit : gostring; descriptionLit : gostring }.

(** A key between quotes. *)
Definition quoted (key : gostring) : gostring :=
  [byte_dquote] ++ key ++ [byte_dquote].

(** The lines of a record: the braces four spaces in, each field on a
    line of its own six spaces in, a colon and one space after the key,
    a comma after every field but the last. *)
Definition recordLines (lits : Literals) : list gostring :=
  [ B "    {";
    B "      " ++ quoted (B "name") ++ B ": " ++ nameLit lits ++ B ",";
    B "      " ++ quoted (B "locale") ++ B ": " ++ localeLit lits ++ B ",";
    B "      " ++ quoted (B "description") ++ B ": " ++ descriptionLit lits;
    B "    }" ].

Definition recordText (lits : Literals) : gostring :=
  joinWith newline (recordLines lits).

(** The text of the document: the single field voices two spaces in, its
    array closed on the spot when there is no record, else one record
    after the other, separated by a comma at the end of the line. *)
Definition documentText (records : list Literals) : gostring :=
  joinWith newline
    (match records with
     | [] => [ B "{"; B "  " ++ quoted (B "voices") ++ B ": []"; B "}" ]
     | _ :: _ =>
         [ B "{";
           B "  " ++ quoted (B "voices") ++ B ": [";
           joinWith (B "," ++ newline) (map recordText records);
           B "  ]";
           B "}" ]
     end).

(** The literals denote the fields of the voice. *)
Definition denoted (lits : Literals) (v : Voice) : Prop :=
  readString (nameLit lits) = Some (replaceInvalid (Name v))
  /\ readString (localeLit lits) = Some (replaceInvalid (Locale v))
  /\ readString (descriptionLit lits) = Some (replaceInvalid (Description v)).

(** The value of the document: an object with the single field voices,
    an array of objects with exactly the fields name, locale and
    description. *)
Definition recordValue (v : Voice) : json :=
  JObject [ (B "name", JString (replaceInvalid (Name v)));
            (B "locale", JString (replaceInvalid (Locale v)));
            (B "description", JString (replaceInvalid (Description v))) ].

Definition documentValue (voices : list Voice) : json :=
  JObject [ (B "voices", JArray (map recordValue voices)) ].

(** The literals that the encoder writes for a voice. *)
Definition literalsOf (v : Voice) : Literals :=
  {| nameLit := appendString (Name v);
     localeLit := appendString (Locale v);
     descriptionLit := appendString (Description v) |}.

(** What stands between two records of [voicesDocument]. *)
Definition recordSeparator : gostring := B "," ++ newline ++ B "    ".

(** Items put in front of a result of [readItems]. *)
Fixpoint consItems (w : list item) (o : option (list item * gostring))
  : option (list item * gostring) :=
  match w with
  | [] => o
  | x :: w' => consItem x (consItems w' o)
  end.

(** [v] is the record of [line]: the three groups of the cut that the
    pattern makes of the trimmed line, each trimmed. *)
Definition recordOfLine (line : gostring) (v : Voice) : Prop :=
  exists m1 m2 m3, firstCut (TrimSpace line) m1 m2 m3 /\ v = voiceOf m1 m2 m3.

(** A string with a quote, a letter of two bytes, a byte that is not
    UTF-8, a line separator, control characters and a backslash. *)
Definition sampleBytes : gostring :=
  ([ "a"; "<"; byte_dquote; "195"; "169"; "255"; "226"; "128"; "168"; byte_ff; "001";
     byte_backslash; "/" ])%char.

(** ** Sample requests and catalogs *)

Definition requestFull : CallToolRequest :=
  requestOf (<[B "rate" := AFloat64 (Float64OfZ 120)]>
             (<[B "voice" := AString (B "Alex")]>
              {[ B "text" := AString (B "  Hello ") ]})).

Definition requestBlank : CallToolRequest :=
  requestOf {[ B "text" := AString (B "   ") ]}.

Definition requestTooFast : CallToolRequest :=
  requestOf (<[B "rate" := AFloat64 (Float64OfZ 900)]> {[ B "text" := AString (B "Hi") ]}).

Definition albertLine : gostring := B "Albert    en_US    # Hello! My name is Albert.".

Definition albert : Voice :=
  {| Name := B "Albert"; Locale := B "en_US";
     Description := B "Hello! My name is Albert." |}.

Definition request120_4 : CallToolRequest :=
  requestOf (<[B "rate" := AFloat64 f64_120_4]> {[ B "text" := AString (B "Hello") ]}).

Definition argsBoolVoice : gmap gostring any :=
  <[B "voice" := ABool true]> {[ B "text" := AString (B "Hi") ]}.

(** A catalog with a header, three voices and an empty line in between. *)
Definition catalogGood : list gostring :=
  [ albertLine; B "Alice     it_IT    # Ciao! Mi chiamo Alice."; B "Zoe en_GB # Hi" ].

Definition catalogBad : list gostring := [ B "Voices available:"; [] ].

Definition catalogLines : list gostring :=
  [ B "Voices available:"; albertLine; [];
    B "Alice     it_IT    # Ciao! Mi chiamo Alice."; B "Zoe en_GB # Hi" ].

(** * Further vocabulary *)

(** ** The tools that [main] registers *)

(** The type of a tool parameter: [mcp.WithString] or [mcp.WithNumber]. *)
Inductive ParamType : Type := PString | PNumber.

(** One parameter of a tool: its name, its type, whether [mcp.Required()]
    was given, and its description. *)
Record ToolParam : Type :=
  { paramName : gostring; paramType : ParamType;
    paramRequired : bool; paramDescription : gostring }.

(** [mcp.NewTool(name, mcp.WithDescription(...), parameters...)]. *)
Record Tool : Type :=
  { toolName : gostring; toolDescription : gostring; toolParams : list ToolParam }.

Definition speakTool : Tool :=
  {| toolName := B "speak";
     toolDescription := B "Converts text to audible speech using macOS text-to-speech";
     toolParams :=
       [ {| paramName := B "text"; paramType := PString; paramRequired := true;
            paramDescription := B "The text to be spoken aloud" |};
         {| paramName := B "voice"; paramType := PString; paramRequired := false;
            paramDescription :=
              B "Voice to use for speech synthesis (optional, uses system default if not specified)" |};
         {| paramName := B "rate"; paramType := PNumber; paramRequired := false;
            paramDescription :=
              B "Speech rate in words per minute (optional, uses system default if not specified)" |} ] |}.

Definition listVoicesTool : Tool :=
  {| toolName := B "list_voices";
     toolDescription :=
       B "List all available text-to-speech voices on the system with their locales and descriptions";
     toolParams := [] |}.

(** A value of the declared type. *)
Definition hasType (v : any) (t : ParamType) : Prop :=
  match t with
  | PString => exists s, v = AString s
  | PNumber => exists f, v = AFloat64 f
  end.

(** Arguments that conform to a tool's declaration: every declared
    parameter that is present has the declared type, and every required
    one is present. *)
Definition conforms (tool : Tool) (args : gmap gostring any) : Prop :=
  forall p, p ∈ toolParams tool ->
    match args !! paramName p with
    | Some v => hasType v (paramType p)
    | None => paramRequired p = false
    end.

(** ** Values that the optional steps skip *)

(** An entry of the right type that [handleSpeak] passes over: the empty
    voice, and a rate that is not above zero (zero, a negative number,
    minus infinity, or NaN). *)
Definition skippedValue (key : gostring) (v : any) : Prop :=
  (key = B "voice" /\ v = AString [])
  \/ (key = B "rate" /\ exists f, v = AFloat64 f /\ SFltb f64_0 f = false).

(** The binary64 values 89.5 and 500.5. *)
Definition f64_89_5 : float64 := S754_finite false 6298002603900928 (-46).
Definition f64_500_5 : float64 := S754_finite false 8804889115230208 (-44).

(** The error that reports a rate out of range. *)
Definition rateErrorMessage (shown : gostring) : gostring :=
  B "Rate " ++ shown ++ B " is outside acceptable range (90-500 words per minute)".

(** ** Lines of a text *)

(** The maximal newline-free pieces of a text, in order. *)
Fixpoint linesOf (s : gostring) : list gostring :=
  match s with
  | [] => [[]]
  | a :: t =>
      if Ascii.eqb a byte_lf then [] :: linesOf t
      else match linesOf t with
           | l :: ls => (a :: l) :: ls
           | [] => [[a]]
           end
  end.

(** The number of newline bytes of a text. *)
Definition countNewlines (s : gostring) : nat :=
  length (filter (fun a => a = byte_lf) s).

(** ** Sample inputs *)

Definition f64_89_7 : float64 := S754_finite false 6312076352736461 (-46).

Definition request89_7 : CallToolRequest :=
  requestOf (<[B "rate" := AFloat64 f64_89_7]> {[ B "text" := AString (B "Hi") ]}).

Definition argsZeroRate : gmap gostring any :=
  <[B "rate" := AFloat64 (S754_zero false)]> {[ B "text" := AString (B "Hi") ]}.

Definition argsPadded : gmap gostring any := {[ B "text" := AString (B "  Hello ") ]}.

Definition errCapital : error :=
  errorString (B "fork/exec /usr/bin/say: Permission denied").

(** * Examples *)

Example TrimSpace_ex1 : TrimSpace (B "  Hello world  ") = B "Hello world".
Proof. vm_compute. reflexivity. Qed.

Example TrimSpace_ex2 :
  TrimSpace ([byte_tab; "194"; "160"; "a"; byte_vt; "b"; "227"; "128"; "128"; byte_lf])%char
  = ["a"; byte_vt; "b"]%char.
Proof. vm_compute. reflexivity. Qed.

Example Split_ex1 : Split (B "a,b,,c") (B ",") = [B "a"; B "b"; B ""; B "c"].
Proof. vm_compute. reflexivity. Qed.

Example Split_ex2 : Split (B "") [byte_lf] = [[]].
Proof. vm_compute. reflexivity. Qed.

Example parse_albert :
  parseVoices (B "Albert    en_US    # Hello! My name is Albert.")
  = [ {| Name := B "Albert"; Locale := B "en_US";
         Description := B "Hello! My name is Albert." |} ].
Proof. vm_compute. reflexivity. Qed.

Example parse_multiword :
  parseVoices (B "Eddy (English (US))  en_US    # Hi # there")
  = [ {| Name := B "Eddy (English (US))"; Locale := B "en_US";
         Description := B "Hi # there" |} ].
Proof. vm_compute. reflexivity. Qed.

(** Of the two ways to cut this line, the pattern takes the one with
    the shorter name. *)
Example parse_two_cuts :
  parseVoices (B "a b # c d # e")
  = [ {| Name := B "a"; Locale := B "b"; Description := B "c d # e" |} ].
Proof. vm_compute. reflexivity. Qed.

Example marshal_empty :
  MarshalIndent {| Voices := [] |} [] (B "  ")
  = (B "{" ++ newline ++ B "  " ++ [byte_dquote] ++ B "voices" ++ [byte_dquote]
       ++ B ": []" ++ newline ++ B "}", None).
Proof. vm_compute. reflexivity. Qed.

Example speak_ex1 :
  runExec sysOK (Main.handleSpeak ctxActive
     {| Arguments :=
          AMap (<[B "rate" := AFloat64 (Float64OfZ 120)]>
                {[ B "text" := AString (B "Hello") ]}) |})
  = ((NewToolResultText (B "Successfully spoke: Hello"), None),
     [CommandContext ctxActive sayCommand [B "-r"; B "120"; B "Hello"]]).
Proof. vm_compute. reflexivity. Qed.

Example appendString_ex :
  appendString ([ "a"; "<"; byte_dquote; "195"; "169"; "255"; "226"; "128"; "168"; byte_ff; "001" ])%char
  = [byte_dquote] ++ B "a" ++ [byte_backslash] ++ B "u003c"
    ++ [byte_backslash; byte_dquote] ++ ["195"; "169"]%char
    ++ replacementBytes ++ [byte_backslash] ++ B "u2028"
    ++ [byte_backslash] ++ B "f" ++ [byte_backslash] ++ B "u0001" ++ [byte_dquote].
Proof. vm_compute. reflexivity. Qed.

Example readJSON_ex :
  readJSON (B " [ [ ] , { } ] ") = Some (JArray [JArray []; JObject []])
  /\ readJSON (B "{ } x") = None
  /\ readJSON ([byte_dquote; "a"; "010"; byte_dquote])%char = None
  /\ readJSON (B "[" ++ quoted (B "a") ++ B ",]") = None.
Proof. vm_compute. repeat split; reflexivity. Qed.

Example readString_ex :
  readString (quoted ([byte_backslash] ++ B "u00e9" ++ [byte_backslash] ++ B "n"))
  = Some (["195"; "169"; "010"]%char)
  /\ readString (quoted ([byte_backslash] ++ B "ud83d" ++ [byte_backslash] ++ B "ude00"))
     = Some (["240"; "159"; "152"; "128"]%char)
  /\ readString (quoted (B "a") ++ B "b") = None.
Proof. vm_compute. repeat split; reflexivity. Qed.

Example replaceInvalid_ex :
  replaceInvalid sampleBytes
  = ([ "a"; "<"; byte_dquote; "195"; "169"; "239"; "191"; "189"; "226"; "128"; "168";
       byte_ff; "001"; byte_backslash; "/" ])%char
  /\ readString (appendString sampleBytes) = Some (replaceInvalid sampleBytes).
Proof. vm_compute. split; reflexivity. Qed.

Example payload_reads_back :
  let vs := [ {| Name := sampleBytes; Locale := B "x"; Description := [] |};
              {| Name := B "n"; Locale := sampleBytes; Description := sampleBytes |} ] in
  readJSON (fst (MarshalIndent {| Voices := vs |} [] (B "  "))) = Some (documentValue vs)
  /\ fst (MarshalIndent {| Voices := vs |} [] (B "  ")) = documentText (map literalsOf vs).
Proof. vm_compute. split; reflexivity. Qed.

Example payload_empty_reads_back :
  readJSON (fst (MarshalIndent {| Voices := [] |} [] (B "  "))) = Some (documentValue [])
  /\ fst (MarshalIndent {| Voices := [] |} [] (B "  ")) = documentText [].
Proof. vm_compute. split; reflexivity. Qed.

(** * Properties *)

(** ** Comparisons and rounding on binary64 *)

Lemma SFleb_SFltb (a b : float64) : SFleb a b = true -> SFltb b a = false.
Proof.
  unfold SFleb, SFltb.
  destruct a as [sa|sa| |sa ma ea], b as [sb|sb| |sb mb eb]; simpl;
    repeat match goal with s : bool |- _ => destruct s end; simpl; try done.
  all: rewrite (Z.compare_antisym ea eb);
    destruct (ea ?= eb)%Z; simpl; try done;
    change (Pos.compare_cont Eq mb ma) with (Pos.compare mb ma);
    change (Pos.compare_cont Eq ma mb) with (Pos.compare ma mb);
    rewrite (Pos.compare_antisym ma mb);
    destruct (ma ?= mb)%positive; simpl; done.
Qed.

(** A float above zero is a positive finite number or plus infinity. *)
Lemma SFltb_zero_inv (r : float64) :
  SFltb f64_0 r = true ->
  r = S754_infinity false \/ exists m e, r = S754_finite false m e.
Proof.
  unfold SFltb. destruct r as [s|s| |s m e]; simpl; try done.
  - destruct s; [done | by left].
  - destruct s; [done | right; eauto].
Qed.

Lemma roundHalfEven_nearest (m : positive) (e : Z) :
  nearestInteger m e (roundHalfEven m e).
Proof.
  unfold nearestInteger, roundHalfEven.
  destruct (0 <=? e)%Z eqn:He; [done|].
  apply Z.leb_gt in He.
  assert (Hd : (0 < 2 ^ (- e))%Z) by (apply Z.pow_pos_nonneg; lia).
  set (d := (2 ^ (- e))%Z) in *.
  pose proof (Z.div_mod (Z.pos m) d ltac:(lia)) as Hdm.
  pose proof (Z.mod_pos_bound (Z.pos m) d Hd) as Hr.
  set (q := (Z.pos m / d)%Z) in *. set (r := (Z.pos m mod d)%Z) in *.
  destruct (2 * r <? d)%Z eqn:H1; [apply Z.ltb_lt in H1; nia|].
  apply Z.ltb_ge in H1.
  destruct (d <? 2 * r)%Z eqn:H2; [apply Z.ltb_lt in H2; nia|].
  apply Z.ltb_ge in H2.
  destruct (Z.even q); nia.
Qed.

Lemma string_of_uint_digits (u : Decimal.uint) :
  allOf isDigit (B (NilEmpty.string_of_uint u)).
Proof. induction u; simpl; constructor; auto. Qed.

Lemma decimal_digits (n : Z) : allOf isDigit (decimal n).
Proof. apply string_of_uint_digits. Qed.

(** ** The argument builder *)

Lemma isEmpty_false (s : gostring) : s <> [] -> isEmpty s = false.
Proof. by destruct s. Qed.

Lemma addVoice_tokens allArgs voice args :
  voiceIs allArgs voice -> addVoice allArgs args = args ++ voiceTokens voice.
Proof.
  unfold voiceIs, addVoice. destruct voice as [v|].
  - intros [-> Hv]. by rewrite (isEmpty_false v Hv).
  - intros ->. simpl. by rewrite app_nil_r.
Qed.

Lemma addRate_tokens allArgs rate args :
  rateIs allArgs rate -> addRate allArgs args = inr (args ++ rateTokens rate).
Proof.
  unfold rateIs, addRate, rateTokens. destruct rate as [r|].
  - intros [-> Hr]. destruct (SFltb f64_0 r) eqn:Hpos.
    + destruct (Hr eq_refl) as [Hlo Hhi].
      by rewrite (SFleb_SFltb _ _ Hlo), (SFleb_SFltb _ _ Hhi).
    + by rewrite app_nil_r.
  - intros ->. by rewrite app_nil_r.
Qed.

(** C1 fails as stated: the request {text: "Hi", rate: 0} meets every
    condition of the claim (the range is asked of a rate above zero
    only) and a rate is present, yet no rate flag is passed: both
    revisions start the say command with the text alone. *)
Lemma C1_zero_rate_adds_no_flag :
  argsZeroRate !! B "text" = Some (AString (B "Hi"))
  /\ TrimSpace (B "Hi") <> []
  /\ voiceIs argsZeroRate None
  /\ rateIs argsZeroRate (Some (S754_zero false))
  /\ snd (runExec sysOK (Main.handleSpeak ctxActive (requestOf argsZeroRate)))
     = [CommandContext ctxActive sayCommand [B "Hi"]]
  /\ snd (runExec sysOK (Refactored.handleSpeak ctxActive (requestOf argsZeroRate)))
     = [CommandContext ctxActive sayCommand [B "Hi"]]
  /\ [B "Hi"] <> [B "-r"; fmt_f0 (S754_zero false); B "Hi"].
Proof.
  split; [vm_compute; reflexivity|].
  split; [vm_compute; discriminate|].
  split; [vm_compute; reflexivity|].
  split; [split; [vm_compute; reflexivity | vm_compute; discriminate]|].
  split; [vm_compute; reflexivity|].
  split; [vm_compute; reflexivity|].
  vm_compute. discriminate.
Qed.

(** C1, amended: for a request whose trimmed text is non-empty, whose
    voice (when present) is a non-empty string and whose rate (when
    present and above zero) lies in [90, 500], both revisions of
    [handleSpeak] start the say command with exactly: "-v" and the voice
    (if a voice is present), then "-r" and the rate token (if a rate is
    present and above zero; a rate that is not above zero adds nothing),
    then the trimmed text as the last token; nothing else is added. *)
Theorem C1_speak_args_exact (ctx : Context) (request : CallToolRequest)
        (text : gostring) (voice : option gostring) (rate : option float64) :
  GetArguments request !! B "text" = Some (AString text) ->
  TrimSpace text <> [] ->
  voiceIs (GetArguments request) voice ->
  rateIs (GetArguments request) rate ->
  (exists k, Main.handleSpeak ctx request
             = CombinedOutput (CommandContext ctx sayCommand (speakArgs text voice rate)) k)
  /\ (exists k, Refactored.handleSpeak ctx request
                = CombinedOutput (CommandContext ctx sayCommand (speakArgs text voice rate)) k).
Proof.
  intros Htext Hne Hvoice Hrate.
  unfold Main.handleSpeak, Refactored.handleSpeak, RequireString.
  rewrite Htext. rewrite (isEmpty_false _ Hne).
  rewrite (addVoice_tokens _ voice [] Hvoice).
  rewrite (addRate_tokens _ rate _ Hrate).
  unfold speakArgs. simpl. rewrite <- !app_assoc.
  split; eexists; reflexivity.
Qed.

(** ** strings: prefixes and white space *)

Lemma stripPrefix_Some (p s r : gostring) : stripPrefix p s = Some r <-> s = p ++ r.
Proof.
  revert s. induction p as [|a p IH]; intros s; simpl.
  - split; [by intros [= ->] | by intros ->].
  - destruct s as [|b s]; [split; intros; discriminate|].
    destruct (Ascii.eqb a b) eqn:Hab.
    + apply Ascii.eqb_eq in Hab as ->. rewrite IH. split; [by intros -> | by intros [= ->]].
    + apply Ascii.eqb_neq in Hab. split; [done | by intros [= -> ->]].
Qed.

Ltac each_space H :=
  unfold spaceEncodings in H;
  repeat (apply elem_of_cons in H; destruct H as [->|H]);
  [..| by apply elem_of_nil in H].

Lemma leadingSpace_Some (s r : gostring) :
  leadingSpace s = Some r -> exists enc, enc ∈ spaceEncodings /\ s = enc ++ r.
Proof.
  unfold leadingSpace. induction spaceEncodings as [|enc l IH]; simpl; [done|].
  destruct (stripPrefix enc s) as [r'|] eqn:Hp.
  - intros [= ->]. apply stripPrefix_Some in Hp. exists enc. split; [left | done].
  - intros H. destruct (IH H) as (e & He & ->). exists e. split; [by right | done].
Qed.

Lemma leadingSpace_enc (enc r : gostring) :
  enc ∈ spaceEncodings -> leadingSpace (enc ++ r) = Some r.
Proof. intros H. each_space H; reflexivity. Qed.

Lemma trailingSpace_Some (s r : gostring) :
  trailingSpace s = Some r -> exists enc, enc ∈ spaceEncodings /\ s = r ++ enc.
Proof.
  unfold trailingSpace. induction spaceEncodings as [|enc l IH]; simpl; [done|].
  destruct (stripPrefix (rev enc) (rev s)) as [r'|] eqn:Hp.
  - intros [= <-]. apply stripPrefix_Some in Hp. exists enc. split; [left|].
    rewrite <- (rev_involutive s), Hp, rev_app_distr, rev_involutive. done.
  - intros H. destruct (IH H) as (e & He & ->). exists e. split; [by right | done].
Qed.

Lemma space_enc_length (enc : gostring) : enc ∈ spaceEncodings -> 0 < length enc.
Proof. intros H. each_space H; simpl; lia. Qed.

(** A white-space rune starts with an ASCII white-space byte or with a
    byte above 0x7F. *)
Lemma space_enc_head (enc : gostring) :
  enc ∈ spaceEncodings ->
  exists b t, enc = b :: t /\ (isASCII b = false \/ perlSpace b = true \/ b = byte_vt).
Proof. intros H. each_space H; do 2 eexists; (split; [reflexivity|]); vm_compute; auto. Qed.

Lemma trimLeftLoop_suffix (fuel : nat) (s : gostring) :
  exists p, s = p ++ trimLeftLoop fuel s.
Proof.
  revert s. induction fuel as [|fuel IH]; intros s; simpl; [by exists []|].
  destruct (leadingSpace s) as [r|] eqn:Hl; [|by exists []].
  apply leadingSpace_Some in Hl as (enc & _ & ->).
  destruct (IH r) as [p Hp]. exists (enc ++ p). by rewrite <- app_assoc, <- Hp.
Qed.

Lemma trimLeftLoop_done (fuel : nat) (s : gostring) :
  length s <= fuel -> leadingSpace (trimLeftLoop fuel s) = None.
Proof.
  revert s. induction fuel as [|fuel IH]; intros s Hlen; simpl.
  - destruct s; [reflexivity | simpl in Hlen; lia].
  - destruct (leadingSpace s) as [r|] eqn:Hl; [|done].
    apply IH. apply leadingSpace_Some in Hl as (enc & Henc & ->).
    apply space_enc_length in Henc. rewrite length_app in Hlen. lia.
Qed.

Lemma trimRightLoop_prefix (fuel : nat) (s : gostring) :
  exists q, s = trimRightLoop fuel s ++ q.
Proof.
  revert s. induction fuel as [|fuel IH]; intros s; simpl; [exists []; by rewrite app_nil_r|].
  destruct (trailingSpace s) as [r|] eqn:Hl; [|exists []; by rewrite app_nil_r].
  apply trailingSpace_Some in Hl as (enc & _ & ->).
  destruct (IH r) as [q Hq]. exists (q ++ enc). by rewrite app_assoc, <- Hq.
Qed.

(** A string that the right trim empties was empty or began with white
    space. *)
Lemma trimRightLoop_nil (fuel : nat) (s : gostring) :
  trimRightLoop fuel s = [] -> s = [] \/ leadingSpace s <> None.
Proof.
  revert s. induction fuel as [|fuel IH]; intros s; simpl; [by left|].
  destruct (trailingSpace s) as [r|] eqn:Hl; [|by left].
  apply trailingSpace_Some in Hl as (enc & Henc & ->).
  intros H. right. destruct (IH r H) as [-> | Hr].
  - simpl. rewrite <- (app_nil_r enc). by rewrite leadingSpace_enc.
  - destruct (leadingSpace r) as [r'|] eqn:Hr'; [|done].
    apply leadingSpace_Some in Hr' as (e & He & ->).
    rewrite <- app_assoc. by rewrite leadingSpace_enc.
Qed.

Lemma leadingSpace_prefix (p q : gostring) :
  p <> [] -> leadingSpace (p ++ q) = None -> leadingSpace p = None.
Proof.
  intros Hp H. destruct (leadingSpace p) as [r|] eqn:Hr; [|done].
  apply leadingSpace_Some in Hr as (e & He & ->).
  rewrite <- app_assoc in H. by rewrite leadingSpace_enc in H.
Qed.

(** The result of [TrimSpace] is a piece of its argument. *)
Lemma TrimSpace_infix (s : gostring) : exists p q, s = p ++ TrimSpace s ++ q.
Proof.
  unfold TrimSpace, TrimRightSpace, TrimLeftSpace.
  destruct (trimLeftLoop_suffix (length s) s) as [p Hp].
  destruct (trimRightLoop_prefix (length (trimLeftLoop (length s) s))
              (trimLeftLoop (length s) s)) as [q Hq].
  exists p, q. by rewrite <- Hq.
Qed.

(** A non-empty result of [TrimSpace] does not begin with white space. *)
Lemma TrimSpace_no_leading (s : gostring) :
  TrimSpace s <> [] -> leadingSpace (TrimSpace s) = None.
Proof.
  intros Hne. unfold TrimSpace, TrimRightSpace in *.
  set (u := TrimLeftSpace s) in *.
  destruct (trimRightLoop_prefix (length u) u) as [q Hq].
  apply (leadingSpace_prefix _ q Hne). rewrite <- Hq.
  by apply trimLeftLoop_done.
Qed.

(** A non-empty string that does not begin with white space keeps at
    least its first rune under [TrimSpace]. *)
Lemma TrimSpace_nonempty (s : gostring) :
  s <> [] -> leadingSpace s = None -> TrimSpace s <> [].
Proof.
  intros Hne Hl. unfold TrimSpace, TrimLeftSpace.
  replace (trimLeftLoop (length s) s) with s
    by (destruct s; [done | simpl; by rewrite Hl]).
  intros H. destruct (trimRightLoop_nil _ _ H); done.
Qed.

Lemma trimLeftLoop_whitespace (runes : list gostring) (fuel : nat) :
  Forall (fun enc => enc ∈ spaceEncodings) runes ->
  length (concat runes) <= fuel ->
  trimLeftLoop fuel (concat runes) = [].
Proof.
  intros H. revert fuel. induction H as [|enc rest Henc _ IH]; intros fuel Hlen.
  - by destruct fuel.
  - simpl in *. rewrite length_app in Hlen.
    pose proof (space_enc_length _ Henc).
    destruct fuel as [|fuel]; [lia|]. simpl.
    rewrite (leadingSpace_enc _ _ Henc). apply IH. lia.
Qed.

Lemma TrimSpace_whitespaceOnly (s : gostring) : whitespaceOnly s -> TrimSpace s = [].
Proof.
  intros (runes & H & ->). unfold TrimSpace, TrimLeftSpace.
  by rewrite (trimLeftLoop_whitespace runes _ H).
Qed.

(** ** Validation *)

Lemma rejectsLocally_Ret (msg : gostring) :
  rejectsLocally (Ret (NewToolResultError msg, None)).
Proof. split; [by exists msg | done]. Qed.

Lemma addRate_out_of_range allArgs args rate :
  allArgs !! B "rate" = Some (AFloat64 rate) ->
  SFltb f64_0 rate = true ->
  SFltb rate f64_90 = true \/ SFltb f64_500 rate = true ->
  exists msg, addRate allArgs args = inl (NewToolResultError msg).
Proof.
  intros Hr Hpos Hout. unfold addRate. rewrite Hr, Hpos.
  replace (SFltb rate f64_90 || SFltb f64_500 rate) with true
    by (destruct Hout as [-> | ->]; by rewrite ?orb_true_r).
  eauto.
Qed.

Lemma Main_handleSpeak_empty ctx request text :
  GetArguments request !! B "text" = Some (AString text) -> TrimSpace text = [] ->
  Main.handleSpeak ctx request
  = Ret (NewToolResultError (B "Parameter 'text' cannot be empty"), None).
Proof.
  intros Ht He. unfold Main.handleSpeak, RequireString. by rewrite Ht, He.
Qed.

Lemma Refactored_handleSpeak_empty ctx request text :
  GetArguments request !! B "text" = Some (AString text) -> TrimSpace text = [] ->
  Refactored.handleSpeak ctx request
  = Ret (NewToolResultError (B "Parameter 'text' cannot be empty"), None).
Proof.
  intros Ht He. unfold Refactored.handleSpeak, RequireString. by rewrite Ht, He.
Qed.

(** C2: a speak request that fails validation (text missing or not a
    string, text empty after trimming, or a rate above zero outside
    [90, 500]) is answered with an error result at once and no command is
    run; for text that trims to nothing, as white-space-only text does,
    the error is the one about the empty parameter. *)
Theorem C2_validation_runs_no_process (ctx : Context) (request : CallToolRequest) :
  failsValidation request ->
  rejectsLocally (Main.handleSpeak ctx request)
  /\ rejectsLocally (Refactored.handleSpeak ctx request)
  /\ (forall text,
        GetArguments request !! B "text" = Some (AString text) ->
        TrimSpace text = [] \/ whitespaceOnly text ->
        Main.handleSpeak ctx request
        = Ret (NewToolResultError (B "Parameter 'text' cannot be empty"), None)
        /\ Refactored.handleSpeak ctx request
           = Ret (NewToolResultError (B "Parameter 'text' cannot be empty"), None)).
Proof.
  intros Hfail.
  assert (Hws : forall text,
             GetArguments request !! B "text" = Some (AString text) ->
             TrimSpace text = [] \/ whitespaceOnly text ->
             Main.handleSpeak ctx request
             = Ret (NewToolResultError (B "Parameter 'text' cannot be empty"), None)
             /\ Refactored.handleSpeak ctx request
                = Ret (NewToolResultError (B "Parameter 'text' cannot be empty"), None)).
  { intros text Ht He.
    assert (TrimSpace text = []) as He'
        by (destruct He; [done | by apply TrimSpace_whitespaceOnly]).
    split; [by eapply Main_handleSpeak_empty | by eapply Refactored_handleSpeak_empty]. }
  split; [|split; [|exact Hws]].
  - destruct Hfail as [Ht | v Ht Hv | text Ht He | text Ht He | rate Hr Hpos Hout].
    + unfold Main.handleSpeak, RequireString. rewrite Ht. apply rejectsLocally_Ret.
    + unfold Main.handleSpeak, RequireString. rewrite Ht.
      destruct v; try apply rejectsLocally_Ret. by destruct (Hv s).
    + destruct (Hws text Ht (or_introl He)) as [-> _]. apply rejectsLocally_Ret.
    + destruct (Hws text Ht (or_intror He)) as [-> _]. apply rejectsLocally_Ret.
    + unfold Main.handleSpeak, RequireString.
      destruct (GetArguments request !! B "text") as [[]|]; try apply rejectsLocally_Ret.
      destruct (isEmpty (TrimSpace s)); [apply rejectsLocally_Ret|].
      destruct (addRate_out_of_range _ (addVoice (GetArguments request) []) _ Hr Hpos Hout)
        as [msg ->].
      apply rejectsLocally_Ret.
  - destruct Hfail as [Ht | v Ht Hv | text Ht He | text Ht He | rate Hr Hpos Hout].
    + unfold Refactored.handleSpeak, RequireString. rewrite Ht. apply rejectsLocally_Ret.
    + unfold Refactored.handleSpeak, RequireString. rewrite Ht.
      destruct v; try apply rejectsLocally_Ret. by destruct (Hv s).
    + destruct (Hws text Ht (or_introl He)) as [_ ->]. apply rejectsLocally_Ret.
    + destruct (Hws text Ht (or_intror He)) as [_ ->]. apply rejectsLocally_Ret.
    + unfold Refactored.handleSpeak, RequireString.
      destruct (GetArguments request !! B "text") as [[]|]; try apply rejectsLocally_Ret.
      destruct (isEmpty (TrimSpace s)); [apply rejectsLocally_Ret|].
      destruct (addRate_out_of_range _ (addVoice (GetArguments request) []) _ Hr Hpos Hout)
        as [msg ->].
      apply rejectsLocally_Ret.
Qed.

(** ** The rate token *)

Lemma rate_in_range_finite (rate : float64) :
  SFltb f64_0 rate = true -> SFleb rate f64_500 = true ->
  exists m e, rate = S754_finite false m e.
Proof.
  intros Hpos Hhi. destruct (SFltb_zero_inv _ Hpos) as [-> | H]; [discriminate | done].
Qed.

Example f64_120_4_is_binary64 : valid_binary 53 1024 f64_120_4 = true.
Proof. reflexivity. Qed.

(** 120.4 = 602/5 lies within half a unit in the last place (2^-47) of
    [f64_120_4]: the inequality is scaled by [5 * 2^47]. *)
Example f64_120_4_nearest :
  (Z.abs (2 * 5 * 8472396798990746 - 2 * 602 * 2 ^ 46) <= 5)%Z.
Proof. vm_compute. discriminate. Qed.

(** C7: for a speak request with a rate above zero in [90, 500], the
    rate step appends "-r" and a token that is made of decimal digits
    only and renders an integer nearest to the rate; when the text is
    valid this is the token that the say command receives after "-r";
    for the binary64 nearest to 120.4 the token is "120". *)
Theorem C7_rate_token_rounds (ctx : Context) (request : CallToolRequest)
        (rate : float64) :
  GetArguments request !! B "rate" = Some (AFloat64 rate) ->
  SFltb f64_0 rate = true ->
  SFleb f64_90 rate = true ->
  SFleb rate f64_500 = true ->
  exists (m : positive) (e n : Z),
    rate = S754_finite false m e
    /\ nearestInteger m e n
    /\ allOf isDigit (decimal n)
    /\ (rate = f64_120_4 -> decimal n = B "120")
    /\ (forall args,
          addRate (GetArguments request) args = inr (args ++ [B "-r"; decimal n]))
    /\ (forall text,
          GetArguments request !! B "text" = Some (AString text) ->
          TrimSpace text <> [] ->
          (exists pre k,
              Main.handleSpeak ctx request
              = CombinedOutput
                  (CommandContext ctx sayCommand
                     (pre ++ [B "-r"; decimal n; TrimSpace text])) k)
          /\ (exists pre k,
                Refactored.handleSpeak ctx request
                = CombinedOutput
                    (CommandContext ctx sayCommand
                       (pre ++ [B "-r"; decimal n; TrimSpace text])) k)).
Proof.
  intros Hrate Hpos Hlo Hhi.
  destruct (rate_in_range_finite _ Hpos Hhi) as (m & e & ->).
  exists m, e, (roundHalfEven m e).
  split; [done|]. split; [apply roundHalfEven_nearest|].
  split; [apply decimal_digits|].
  split; [by intros [= -> ->]|].
  assert (Hadd : forall args,
             addRate (GetArguments request) args
             = inr (args ++ [B "-r"; decimal (roundHalfEven m e)])).
  { intros args. unfold addRate. rewrite Hrate, Hpos.
    by rewrite (SFleb_SFltb _ _ Hlo), (SFleb_SFltb _ _ Hhi). }
  split; [exact Hadd|].
  intros text Htext Hne. split.
  - exists (addVoice (GetArguments request) []). eexists.
    unfold Main.handleSpeak, RequireString.
    rewrite Htext, (isEmpty_false _ Hne), Hadd. simpl.
    rewrite <- app_assoc. reflexivity.
  - exists (addVoice (GetArguments request) []). eexists.
    unfold Refactored.handleSpeak, RequireString.
    rewrite Htext, (isEmpty_false _ Hne), Hadd. simpl.
    rewrite <- app_assoc. reflexivity.
Qed.

(** ** Optional entries of the wrong type *)

Lemma addVoice_wrong_type m v args :
  m !! B "voice" = Some v -> (forall s, v <> AString s) -> addVoice m args = args.
Proof. intros Hm Hv. unfold addVoice. rewrite Hm. destruct v; try done. by destruct (Hv s). Qed.

Lemma addRate_wrong_type m v args :
  m !! B "rate" = Some v -> (forall f, v <> AFloat64 f) -> addRate m args = inr args.
Proof. intros Hm Hv. unfold addRate. rewrite Hm. destruct v; try done. by destruct (Hv f). Qed.

Lemma addVoice_absent m args : m !! B "voice" = None -> addVoice m args = args.
Proof. intros Hm. unfold addVoice. by rewrite Hm. Qed.

Lemma addRate_absent m args : m !! B "rate" = None -> addRate m args = inr args.
Proof. intros Hm. unfold addRate. by rewrite Hm. Qed.

Lemma addVoice_ext m1 m2 args :
  m1 !! B "voice" = m2 !! B "voice" -> addVoice m1 args = addVoice m2 args.
Proof. intros H. unfold addVoice. by rewrite H. Qed.

Lemma addRate_ext m1 m2 args :
  m1 !! B "rate" = m2 !! B "rate" -> addRate m1 args = addRate m2 args.
Proof. intros H. unfold addRate. by rewrite H. Qed.

(** The handlers read the request only through these three steps. *)
Lemma Main_handleSpeak_ext ctx r1 r2 :
  RequireString r1 (B "text") = RequireString r2 (B "text") ->
  (forall args, addVoice (GetArguments r1) args = addVoice (GetArguments r2) args) ->
  (forall args, addRate (GetArguments r1) args = addRate (GetArguments r2) args) ->
  Main.handleSpeak ctx r1 = Main.handleSpeak ctx r2.
Proof. intros Ht Hv Hr. unfold Main.handleSpeak. by rewrite Ht, Hv, Hr. Qed.

Lemma Refactored_handleSpeak_ext ctx r1 r2 :
  RequireString r1 (B "text") = RequireString r2 (B "text") ->
  (forall args, addVoice (GetArguments r1) args = addVoice (GetArguments r2) args) ->
  (forall args, addRate (GetArguments r1) args = addRate (GetArguments r2) args) ->
  Refactored.handleSpeak ctx r1 = Refactored.handleSpeak ctx r2.
Proof. intros Ht Hv Hr. unfold Refactored.handleSpeak. by rewrite Ht, Hv, Hr. Qed.

(** C8: a voice entry that is not a string, or a rate entry that is not
    a number, adds no flag and raises no error, and both revisions of
    [handleSpeak] go on exactly as for the request without that entry. *)
Theorem C8_wrong_type_ignored (ctx : Context) (m : gmap gostring any)
        (key : gostring) (v : any) :
  m !! key = Some v ->
  wrongType key v ->
  (forall args, key = B "voice" -> addVoice m args = args)
  /\ (forall args, key = B "rate" -> addRate m args = inr args)
  /\ Main.handleSpeak ctx (requestOf m) = Main.handleSpeak ctx (requestOf (delete key m))
  /\ Refactored.handleSpeak ctx (requestOf m)
     = Refactored.handleSpeak ctx (requestOf (delete key m)).
Proof.
  intros Hm Hwrong.
  assert (Hv : forall args, key = B "voice" -> addVoice m args = args).
  { intros args ->. destruct Hwrong as [[_ H] | [[=] _]]. by eapply addVoice_wrong_type. }
  assert (Hr : forall args, key = B "rate" -> addRate m args = inr args).
  { intros args ->. destruct Hwrong as [[[=] _] | [_ H]]. by eapply addRate_wrong_type. }
  split; [done|]. split; [done|].
  assert (Htext : RequireString (requestOf m) (B "text")
                  = RequireString (requestOf (delete key m)) (B "text")).
  { unfold RequireString, requestOf, GetArguments. simpl.
    rewrite lookup_delete_ne; [done|]. by destruct Hwrong as [[-> _] | [-> _]]. }
  assert (Hvoice : forall args,
             addVoice (GetArguments (requestOf m)) args
             = addVoice (GetArguments (requestOf (delete key m))) args).
  { intros args. unfold requestOf, GetArguments. simpl.
    destruct Hwrong as [[-> _] | [-> _]].
    - rewrite (Hv args eq_refl). symmetry. apply addVoice_absent, lookup_delete_eq.
    - apply addVoice_ext. by rewrite lookup_delete_ne. }
  assert (Hrate : forall args,
             addRate (GetArguments (requestOf m)) args
             = addRate (GetArguments (requestOf (delete key m))) args).
  { intros args. unfold requestOf, GetArguments. simpl.
    destruct Hwrong as [[-> _] | [-> _]].
    - apply addRate_ext. by rewrite lookup_delete_ne.
    - rewrite (Hr args eq_refl). symmetry. apply addRate_absent, lookup_delete_eq. }
  split; [by apply Main_handleSpeak_ext | by apply Refactored_handleSpeak_ext].
Qed.

(** ** Command failures: cancellation and permission guidance *)

Lemma cancelled_Is (ctx : Context) :
  cancelled ctx ->
  errors_Is (Err ctx) Canceled || errors_Is (Err ctx) DeadlineExceeded = true.
Proof. by intros [-> | ->]. Qed.

Lemma active_Is :
  errors_Is (Err ctxActive) Canceled || errors_Is (Err ctxActive) DeadlineExceeded = false.
Proof. reflexivity. Qed.

Lemma cancelled_cause (ctx : Context) :
  cancelled ctx ->
  fmt_v (Err ctx) = B "context canceled" \/ fmt_v (Err ctx) = B "context deadline exceeded".
Proof. intros [-> | ->]; [by left | by right]. Qed.

Lemma Main_handleSpeak_after ctx request output err p :
  afterCommand (Main.handleSpeak ctx request) (output, Some err) = Some p ->
  p = if errors_Is (Err ctx) Canceled || errors_Is (Err ctx) DeadlineExceeded
      then Ret (NewToolResultError (cancellationMessage (B "Speech synthesis") ctx), None)
      else Ret (NewToolResultError
                  (let errMsg := baseErrorMessage (B "execute speech synthesis") err output in
                   if Contains (Error err) (B "permission denied")
                   then errMsg ++ permissionGuidance else errMsg), None).
Proof.
  unfold Main.handleSpeak.
  destruct (RequireString request (B "text")) as [text [e|]]; [done|].
  destruct (isEmpty (TrimSpace text)); [done|].
  destruct (addRate _ _); [done|]. simpl. intros [= <-]. reflexivity.
Qed.

Lemma Refactored_handleSpeak_after ctx request output err p :
  afterCommand (Refactored.handleSpeak ctx request) (output, Some err) = Some p ->
  p = Ret (NewToolResultError
             (Refactored.formatCommandError ctx (B "Execute speech synthesis") err output),
           None).
Proof.
  unfold Refactored.handleSpeak.
  destruct (RequireString request (B "text")) as [text [e|]]; [done|].
  destruct (isEmpty (TrimSpace text)); [done|].
  destruct (addRate _ _); [done|]. simpl. by intros [= <-].
Qed.

Lemma Main_handleVoices_after ctx request output err :
  afterCommand (Main.handleVoices ctx request) (output, Some err)
  = Some (if errors_Is (Err ctx) Canceled || errors_Is (Err ctx) DeadlineExceeded
          then Ret (NewToolResultError (cancellationMessage (B "Voice listing") ctx), None)
          else Ret (NewToolResultError
                      (baseErrorMessage (B "retrieve voice list") err output), None)).
Proof. reflexivity. Qed.

Lemma Refactored_handleVoices_after ctx request output err :
  afterCommand (Refactored.handleVoices ctx request) (output, Some err)
  = Some (Ret (NewToolResultError
                 (Refactored.formatCommandError ctx (B "Retrieve voice list") err output),
               None)).
Proof. reflexivity. Qed.

Lemma formatCommandError_cancelled ctx action err output :
  cancelled ctx ->
  Refactored.formatCommandError ctx action err output = cancellationMessage action ctx.
Proof.
  intros Hc. unfold Refactored.formatCommandError. by rewrite (cancelled_Is _ Hc).
Qed.

Lemma formatCommandError_active action err output :
  Refactored.formatCommandError ctxActive action err output
  = let errMsg := baseErrorMessage (ToLower action) err output in
    if Contains (Error err) (B "permission denied")
    then errMsg ++ permissionGuidance else errMsg.
Proof. reflexivity. Qed.

(** C4: when the context is cancelled or past its deadline and the
    command returns an error, every handler of both revisions reports the
    cancellation message (the action, then the cause, which is one of
    the two context errors), whatever the command's own error and
    output; that message is not of the execution-failure class. *)
Theorem C4_cancellation_takes_precedence (ctx : Context) (request : CallToolRequest)
        (err : error) (output : gostring) :
  cancelled ctx ->
  (fmt_v (Err ctx) = B "context canceled"
   \/ fmt_v (Err ctx) = B "context deadline exceeded")
  /\ (forall p, afterCommand (Main.handleSpeak ctx request) (output, Some err) = Some p ->
        p = Ret (NewToolResultError (cancellationMessage (B "Speech synthesis") ctx), None))
  /\ (forall p, afterCommand (Refactored.handleSpeak ctx request) (output, Some err) = Some p ->
        p = Ret (NewToolResultError
                   (cancellationMessage (B "Execute speech synthesis") ctx), None))
  /\ afterCommand (Main.handleVoices ctx request) (output, Some err)
     = Some (Ret (NewToolResultError (cancellationMessage (B "Voice listing") ctx), None))
  /\ afterCommand (Refactored.handleVoices ctx request) (output, Some err)
     = Some (Ret (NewToolResultError
                    (cancellationMessage (B "Retrieve voice list") ctx), None))
  /\ (forall action,
        Refactored.formatCommandError ctx action err output = cancellationMessage action ctx)
  /\ Forall (fun action => executionFailureClass (cancellationMessage action ctx) = false)
       [B "Speech synthesis"; B "Execute speech synthesis";
        B "Voice listing"; B "Retrieve voice list"].
Proof.
  intros Hc. pose proof (cancelled_Is _ Hc) as HIs.
  split; [by apply cancelled_cause|].
  split. { intros p Hp. apply Main_handleSpeak_after in Hp. by rewrite HIs in Hp. }
  split. { intros p Hp. apply Refactored_handleSpeak_after in Hp.
           by rewrite formatCommandError_cancelled in Hp. }
  split. { rewrite Main_handleVoices_after. by rewrite HIs. }
  split. { rewrite Refactored_handleVoices_after. by rewrite formatCommandError_cancelled. }
  split. { intros action. by apply formatCommandError_cancelled. }
  repeat constructor.
Qed.

(** C5 fails as stated: with a cancelled context, a command failure
    whose message contains "permission denied" is reported as a
    cancellation, without the guidance text. *)
Lemma C5_cancelled_has_no_guidance :
  Contains (Error errDenied) (B "permission denied") = true
  /\ fst (runExec sysDenied (Main.handleSpeak ctxCanceled requestHi))
     = (NewToolResultError (B "Speech synthesis cancelled: context canceled"), None)
  /\ Contains (B "Speech synthesis cancelled: context canceled") permissionGuidance = false
  /\ fst (runExec sysDenied (Refactored.handleSpeak ctxCanceled requestHi))
     = (NewToolResultError (B "Execute speech synthesis cancelled: context canceled"), None)
  /\ Contains (B "Execute speech synthesis cancelled: context canceled") permissionGuidance
     = false.
Proof. vm_compute. repeat split; reflexivity. Qed.

(** C5, amended: take a failure of the say command whose message
    contains "permission denied", reported by [handleSpeak] (either
    revision) or by [handleVoices] of the revision with
    [formatCommandError]. When the context is neither cancelled nor past
    its deadline, the message is the base error message followed by the
    permission guidance (so does [formatCommandError] for every action
    written in ASCII). When the context is cancelled or past its
    deadline, the message is the cancellation message, which does not
    contain the guidance. *)
Theorem C5_permission_guidance_appended (ctx : Context) (request : CallToolRequest)
        (err : error) (output : gostring) :
  Contains (Error err) (B "permission denied") = true ->
  (ctx = ctxActive ->
   (forall p, afterCommand (Main.handleSpeak ctx request) (output, Some err) = Some p ->
      p = Ret (NewToolResultError
                 (baseErrorMessage (B "execute speech synthesis") err output
                  ++ permissionGuidance), None))
   /\ (forall p,
         afterCommand (Refactored.handleSpeak ctx request) (output, Some err) = Some p ->
         p = Ret (NewToolResultError
                    (baseErrorMessage (B "execute speech synthesis") err output
                     ++ permissionGuidance), None))
   /\ afterCommand (Refactored.handleVoices ctx request) (output, Some err)
      = Some (Ret (NewToolResultError
                     (baseErrorMessage (B "retrieve voice list") err output
                      ++ permissionGuidance), None))
   /\ (forall action,
         Forall (fun b => isASCII b = true) action ->
         Refactored.formatCommandError ctx action err output
         = baseErrorMessage (ToLower action) err output ++ permissionGuidance))
  /\ (cancelled ctx ->
      (forall p, afterCommand (Main.handleSpeak ctx request) (output, Some err) = Some p ->
         p = Ret (NewToolResultError (cancellationMessage (B "Speech synthesis") ctx), None))
      /\ (forall p,
            afterCommand (Refactored.handleSpeak ctx request) (output, Some err) = Some p ->
            p = Ret (NewToolResultError
                       (cancellationMessage (B "Execute speech synthesis") ctx), None))
      /\ afterCommand (Refactored.handleVoices ctx request) (output, Some err)
         = Some (Ret (NewToolResultError
                        (cancellationMessage (B "Retrieve voice list") ctx), None))
      /\ Forall (fun action =>
                   Contains (cancellationMessage action ctx) permissionGuidance = false)
           [B "Speech synthesis"; B "Execute speech synthesis"; B "Retrieve voice list"]).
Proof.
  intros Hperm. split.
  - intros ->.
    assert (Hfmt : forall action,
               Refactored.formatCommandError ctxActive action err output
               = baseErrorMessage (ToLower action) err output ++ permissionGuidance).
    { intros action. rewrite formatCommandError_active. cbv zeta. by rewrite Hperm. }
    split.
    { intros p Hp. apply Main_handleSpeak_after in Hp. rewrite active_Is in Hp.
      cbv zeta in Hp. by rewrite Hperm in Hp. }
    split.
    { intros p Hp. apply Refactored_handleSpeak_after in Hp. by rewrite Hfmt in Hp. }
    split; [|by intros action _].
    rewrite Refactored_handleVoices_after. by rewrite Hfmt.
  - intros Hc. pose proof (cancelled_Is _ Hc) as HIs.
    split. { intros p Hp. apply Main_handleSpeak_after in Hp. by rewrite HIs in Hp. }
    split. { intros p Hp. apply Refactored_handleSpeak_after in Hp.
             by rewrite formatCommandError_cancelled in Hp. }
    split. { rewrite Refactored_handleVoices_after.
             by rewrite formatCommandError_cancelled. }
    destruct Hc as [-> | ->]; repeat constructor.
Qed.

(** ** The two revisions side by side *)

(** C10 fails as stated: when the context was cancelled and the command
    returns the context's error, the two revisions name the action
    differently, for either handler; and when the listing command fails
    for lack of permission under a live context, only the revision with
    [formatCommandError] appends the guidance. *)
Lemma C10_revisions_differ :
  fst (fst (runExec sysCanceled (Main.handleSpeak ctxCanceled requestHi)))
  = NewToolResultError (B "Speech synthesis cancelled: context canceled")
  /\ fst (fst (runExec sysCanceled (Refactored.handleSpeak ctxCanceled requestHi)))
     = NewToolResultError (B "Execute speech synthesis cancelled: context canceled")
  /\ fst (fst (runExec sysCanceled (Main.handleVoices ctxCanceled requestHi)))
     = NewToolResultError (B "Voice listing cancelled: context canceled")
  /\ fst (fst (runExec sysCanceled (Refactored.handleVoices ctxCanceled requestHi)))
     = NewToolResultError (B "Retrieve voice list cancelled: context canceled")
  /\ runExec sysCanceled (Main.handleSpeak ctxCanceled requestHi)
     <> runExec sysCanceled (Refactored.handleSpeak ctxCanceled requestHi)
  /\ runExec sysCanceled (Main.handleVoices ctxCanceled requestHi)
     <> runExec sysCanceled (Refactored.handleVoices ctxCanceled requestHi)
  /\ runExec sysDenied (Main.handleVoices ctxActive requestHi)
     <> runExec sysDenied (Refactored.handleVoices ctxActive requestHi).
Proof.
  repeat split; try (vm_compute; reflexivity); vm_compute; discriminate.
Qed.

(** A handler that runs a command has started it, whatever comes next. *)
Lemma runExec_starts {A : Type} (sys : System) (cmd : Cmd)
      (k : gostring * option error -> Exec A) :
  cmd ∈ snd (runExec sys (CombinedOutput cmd k)).
Proof. cbn [runExec]. destruct (runExec sys (k (sys cmd))). apply list_elem_of_here. Qed.

(** C10, amended: run against the same system, the two revisions start
    the same commands and return the same results for every request and
    context, provided that no command they start fails while the context
    is cancelled or past its deadline and, for [handleVoices], that the
    listing command does not fail with a message that contains
    "permission denied". *)
Theorem C10_revisions_agree (ctx : Context) (request : CallToolRequest) (sys : System) :
  (forall cmd err,
      cmd ∈ snd (runExec sys (Main.handleSpeak ctx request))
      \/ cmd ∈ snd (runExec sys (Main.handleVoices ctx request)) ->
      snd (sys cmd) = Some err -> ctx = ctxActive) ->
  runExec sys (Main.handleSpeak ctx request)
  = runExec sys (Refactored.handleSpeak ctx request)
  /\ ((forall err,
         snd (sys (CommandContext ctx sayCommand [B "-v"; B "?"])) = Some err ->
         Contains (Error err) (B "permission denied") = false) ->
      runExec sys (Main.handleVoices ctx request)
      = runExec sys (Refactored.handleVoices ctx request)).
Proof.
  intros Hctx. split.
  - assert (Hs : forall cmd err,
               cmd ∈ snd (runExec sys (Main.handleSpeak ctx request)) ->
               snd (sys cmd) = Some err -> ctx = ctxActive) by eauto.
    clear Hctx. revert Hs.
    unfold Main.handleSpeak, Refactored.handleSpeak.
    destruct (RequireString request (B "text")) as [text [e|]]; [done|].
    destruct (isEmpty (TrimSpace text)); [done|].
    destruct (addRate _ _) as [failure|args]; [done|].
    intros Hs.
    pose proof (fun err => Hs _ err (runExec_starts _ _ _)) as Hs'. clear Hs.
    cbn [runExec].
    destruct (sys _) as [output [err|]] eqn:Hsys; [|done].
    rewrite (Hs' err eq_refl). reflexivity.
  - intros Hperm.
    assert (Hv : forall err,
               snd (sys (CommandContext ctx sayCommand [B "-v"; B "?"])) = Some err ->
               ctx = ctxActive).
    { intros err Herr.
      apply (Hctx (CommandContext ctx sayCommand [B "-v"; B "?"]) err); [|done].
      right. apply runExec_starts. }
    unfold Main.handleVoices, Refactored.handleVoices. cbn [runExec].
    destruct (sys _) as [output [err|]] eqn:Hsys; [|done].
    pose proof (Hv err eq_refl) as Hactive. cbn [snd] in Hperm.
    pose proof (Hperm err eq_refl) as Hnp.
    revert Hsys. rewrite Hactive. intros Hsys.
    rewrite formatCommandError_active. cbv zeta. rewrite Hnp. reflexivity.
Qed.

(** ** regexp: what the backtracking matcher finds *)

Section MatcherFacts.

Variable s : gostring.

Lemma Matches_bounds r i c j c' :
  Matches s r i c j c' -> i <= j /\ (i < j -> j <= length s).
Proof.
  induction 1; try lia.
  apply lookup_lt_Some in H. lia.
Qed.

Lemma orElse_Some {A} (x y : option A) (a : A) :
  orElse x y = Some a -> x = Some a \/ (x = None /\ y = Some a).
Proof. destruct x; simpl; [by left | by right]. Qed.

Lemma orElse_is_Some {A} (x y : option A) :
  is_Some x \/ is_Some y -> is_Some (orElse x y).
Proof. destruct x; simpl; [eauto | by intros [[? [=]] | ?]]. Qed.

(** Whatever the matcher returns comes from a match of the expression
    followed by a success of the continuation. *)
Lemma loop_sound g r fuel :
  (forall i c k res, run s r i c k = Some res ->
     exists j c', Matches s r i c j c' /\ k j c' = Some res) ->
  forall i c k res, loop (run s r) g fuel i c k = Some res ->
    exists j c', Matches s (Star g r) i c j c' /\ k j c' = Some res.
Proof.
  intros IHr. induction fuel as [|fuel IH]; intros i c k res; simpl.
  - intros H. exists i, c. split; [constructor | done].
  - intros H.
    assert (Hagain :
              run s r i c (fun j c' => if i <? j then loop (run s r) g fuel j c' k else None)
              = Some res ->
              exists j c', Matches s (Star g r) i c j c' /\ k j c' = Some res).
    { intros Ha. apply IHr in Ha as (j & c1 & Hm & Hk).
      destruct (i <? j) eqn:Hij; [|done]. apply Nat.ltb_lt in Hij.
      apply IH in Hk as (j' & c2 & Hm' & Hk').
      exists j', c2. split; [by eapply M_StarStep | done]. }
    assert (Hstop : k i c = Some res ->
                    exists j c', Matches s (Star g r) i c j c' /\ k j c' = Some res).
    { intros Hk. exists i, c. split; [constructor | done]. }
    destruct g; apply orElse_Some in H as [H | [_ H]]; auto.
Qed.

Lemma run_sound r :
  forall i c k res, run s r i c k = Some res ->
    exists j c', Matches s r i c j c' /\ k j c' = Some res.
Proof.
  induction r as [|p|r1 IH1 r2 IH2|g r IH|n r IH| |]; intros i c k res H.
  - exists i, c. split; [constructor | done].
  - simpl in H. destruct (s !! i) as [a|] eqn:Ha; [|done].
    destruct (p a) eqn:Hp; [|done].
    exists (S i), c. split; [by econstructor | done].
  - simpl in H. apply IH1 in H as (j & c1 & Hm1 & H).
    apply IH2 in H as (j' & c2 & Hm2 & H).
    exists j', c2. split; [by econstructor | done].
  - change (loop (run s r) g (S (length s - i)) i c k = Some res) in H.
    by apply loop_sound in H.
  - simpl in H. apply IH in H as (j & c1 & Hm & H).
    exists j, ((n, (i, j)) :: c1). split; [by constructor | done].
  - simpl in H. destruct (i =? 0) eqn:Hi; [|done]. apply Nat.eqb_eq in Hi as ->.
    exists 0, c. split; [constructor | done].
  - simpl in H. destruct (i =? length s) eqn:Hi; [|done]. apply Nat.eqb_eq in Hi as ->.
    exists (length s), c. split; [constructor | done].
Qed.

Lemma loop_stop g step fuel i c (k : cont) :
  is_Some (k i c) -> is_Some (loop step g fuel i c k).
Proof.
  intros Hk. destruct fuel as [|fuel]; simpl; [done|].
  destruct g; apply orElse_is_Some; auto.
Qed.

(** Whenever the expression can match in a way that the continuation
    accepts, the matcher succeeds (with that match or with one that it
    prefers). *)
Lemma run_complete r i c j c' :
  Matches s r i c j c' ->
  forall k, is_Some (k j c') ->
    is_Some (run s r i c k)
    /\ (forall g r' fuel, r = Star g r' -> length s - i < fuel ->
          is_Some (loop (run s r') g fuel i c k)).
Proof.
  induction 1 as [i c|p i c a Ha Hp|r1 r2 i c j c1 k' c2 _ IH1 _ IH2
                  |g r i c|g r i c j c1 k' c2 Hm IH1 Hij _ IH2
                  |n r i c j c1 _ IH|c|c];
    intros k Hk.
  - split; [done | discriminate].
  - split; [|discriminate]. simpl. by rewrite Ha, Hp.
  - split; [|discriminate]. simpl. apply IH1. by apply IH2.
  - split; [by apply loop_stop|]. intros g' r' fuel [= -> ->] _. by apply loop_stop.
  - assert (Hgen : forall fuel, length s - i < fuel ->
                     is_Some (loop (run s r) g fuel i c k)).
    { intros fuel Hfuel. destruct fuel as [|fuel]; [lia|]. simpl.
      assert (is_Some (run s r i c
                (fun j c' => if i <? j then loop (run s r) g fuel j c' k else None)))
        as Hagain.
      { apply IH1. destruct (i <? j) eqn:Hlt; [|apply Nat.ltb_ge in Hlt; lia].
        destruct (IH2 k Hk) as [_ Hloop]. apply (Hloop g r fuel eq_refl).
        apply Matches_bounds in Hm. lia. }
      destruct g; apply orElse_is_Some; auto. }
    split; [apply Hgen; lia|]. intros g' r' fuel [= -> ->]. apply Hgen.
  - split; [|discriminate]. simpl. by apply IH.
  - split; [done | discriminate].
  - split; [|discriminate]. simpl. by rewrite Nat.eqb_refl.
Qed.

End MatcherFacts.

(** *** Pieces of a match *)

Section Pieces.

Variable s : gostring.

Lemma substr_app (i j k : nat) :
  i <= j -> j <= k -> substr s i k = substr s i j ++ substr s j k.
Proof.
  intros Hij Hjk. unfold substr.
  replace (k - i) with ((j - i) + (k - j)) by lia.
  rewrite <- take_take_drop, drop_drop. do 3 f_equal. lia.
Qed.

Lemma substr_whole : substr s 0 (length s) = s.
Proof. unfold substr. rewrite Nat.sub_0_r. simpl. by apply take_ge. Qed.

Lemma substr_one (i : nat) (a : ascii) : s !! i = Some a -> substr s i (S i) = [a].
Proof.
  intros Ha. unfold substr. replace (S i - i) with 1 by lia.
  rewrite (drop_S _ _ _ Ha). done.
Qed.

Lemma substr_length (i j : nat) : i <= j -> j <= length s -> length (substr s i j) = j - i.
Proof. intros. unfold substr. rewrite length_take, length_drop. lia. Qed.

Lemma Matches_Concat_inv r1 r2 i c k c2 :
  Matches s (Concat r1 r2) i c k c2 ->
  exists j c1, Matches s r1 i c j c1 /\ Matches s r2 j c1 k c2.
Proof. inversion 1; subst; eauto. Qed.

Lemma Matches_Capture_inv n r i c j c' :
  Matches s (Capture n r) i c j c' ->
  exists c1, Matches s r i c j c1 /\ c' = (n, (i, j)) :: c1.
Proof. inversion 1; subst; eauto. Qed.

Lemma Matches_Class_inv p i c j c' :
  Matches s (Class p) i c j c' ->
  j = S i /\ c' = c /\ exists a, s !! i = Some a /\ p a = true.
Proof. inversion 1; subst; eauto. Qed.

(** A loop over a class consumes a run of bytes of that class. *)
Lemma Matches_Star_Class_inv g p i c j c' :
  Matches s (Star g (Class p)) i c j c' ->
  c' = c /\ i <= j /\ (i < j -> j <= length s)
  /\ Forall (fun a => p a = true) (substr s i j).
Proof.
  intros H. remember (Star g (Class p)) as r eqn:Hr.
  induction H as [| | |g' r' i c|g' r' i c j c1 k c2 Hm _ Hij Hrest IH| | |];
    try discriminate; injection Hr as -> ->.
  - split; [done|]. split; [done|]. split; [lia|].
    unfold substr. rewrite Nat.sub_diag. constructor.
  - apply Matches_Class_inv in Hm as (-> & -> & a & Ha & Hp).
    destruct (IH eq_refl) as (-> & Hle & Hlen & Hall).
    split; [done|]. split; [lia|].
    split. { intros _. apply lookup_lt_Some in Ha. lia. }
    rewrite (substr_app i (S i) k) by lia. rewrite (substr_one _ _ Ha).
    by constructor.
Qed.

Lemma Matches_Plus_Class_inv g p i c j c' :
  Matches s (Plus g (Class p)) i c j c' ->
  c' = c /\ i < j /\ j <= length s /\ Forall (fun a => p a = true) (substr s i j).
Proof.
  intros H. apply Matches_Concat_inv in H as (j1 & c1 & H1 & H2).
  apply Matches_Class_inv in H1 as (-> & -> & a & Ha & Hp).
  apply Matches_Star_Class_inv in H2 as (-> & Hle & Hlen & Hall).
  pose proof (lookup_lt_Some _ _ _ Ha) as Hlt.
  split; [done|]. split; [lia|]. split; [lia|].
  rewrite (substr_app i (S i) j) by lia.
  rewrite (substr_one _ _ Ha). by constructor.
Qed.

(** Conversely, a run of bytes of a class is matched by a loop. *)
Lemma Matches_Star_Class_intro g p c (w : gostring) :
  Forall (fun a => p a = true) w ->
  forall pre post, s = pre ++ w ++ post ->
    Matches s (Star g (Class p)) (length pre) c (length (pre ++ w)) c.
Proof.
  induction 1 as [|a w Ha _ IH]; intros pre post Hs.
  - rewrite app_nil_r. constructor.
  - eapply (M_StarStep s g _ _ c (S (length pre)) c).
    + econstructor; [|exact Ha]. rewrite Hs. by apply list_lookup_middle.
    + lia.
    + specialize (IH (pre ++ [a]) post).
      rewrite length_app in IH. simpl in IH. rewrite Nat.add_1_r in IH.
      replace (length (pre ++ a :: w)) with (length ((pre ++ [a]) ++ w))
        by (by rewrite <- app_assoc).
      apply IH. by rewrite <- app_assoc.
Qed.

Lemma Matches_Plus_Class_intro g p c (w : gostring) :
  w <> [] -> Forall (fun a => p a = true) w ->
  forall pre post, s = pre ++ w ++ post ->
    Matches s (Plus g (Class p)) (length pre) c (length (pre ++ w)) c.
Proof.
  intros Hne Hall pre post Hs. destruct w as [|a w]; [done|].
  apply Forall_cons in Hall as [Ha Hw].
  eapply (M_Concat _ _ _ _ _ (S (length pre)) c).
  - econstructor; [|exact Ha]. rewrite Hs. by apply list_lookup_middle.
  - pose proof (Matches_Star_Class_intro g p c w Hw (pre ++ [a]) post) as H.
    rewrite length_app in H. simpl in H. rewrite Nat.add_1_r in H.
    replace (length (pre ++ a :: w)) with (length ((pre ++ [a]) ++ w))
      by (by rewrite <- app_assoc).
    apply H. by rewrite <- app_assoc.
Qed.

(** An anchored expression is only tried with success at position 0. *)
Lemma search_anchored r fuel start :
  0 < start -> search s (Concat BeginText r) fuel start = None.
Proof.
  revert start. induction fuel as [|fuel IH]; intros start Hs; simpl;
    destruct (start =? 0) eqn:H0; try (apply Nat.eqb_eq in H0; lia); try done.
  apply IH. lia.
Qed.

Lemma search_anchored_0 r fuel :
  search s (Concat BeginText r) fuel 0
  = run s (Concat BeginText r) 0 [] (fun j c => Some ((0, (0, j)) :: c)).
Proof.
  destruct fuel as [|fuel]; simpl.
  - by destruct (run s r 0 [] _).
  - destruct (run s r 0 [] _); [done|]. apply search_anchored. lia.
Qed.

End Pieces.

(** ** The shape of a catalog line *)

Lemma substr_nonempty (s : gostring) (i j : nat) :
  i < j -> j <= length s -> substr s i j <> [].
Proof.
  intros Hij Hj H. apply (f_equal length) in H.
  rewrite substr_length in H by lia. simpl in H. lia.
Qed.

Lemma Matches_Begin_inv (s : gostring) i c j c' :
  Matches s BeginText i c j c' -> i = 0 /\ j = 0 /\ c' = c.
Proof. by inversion 1. Qed.

Lemma Matches_End_inv (s : gostring) i c j c' :
  Matches s EndText i c j c' -> i = length s /\ j = length s /\ c' = c.
Proof. by inversion 1. Qed.

Lemma isHash_eq (a : ascii) : isHash a = true -> a = byte_hash.
Proof. unfold isHash. by intros ?%Ascii.eqb_eq. Qed.

(** A successful submatch returns the whole line and three groups that
    cut the line into the shape of a catalog line. *)
Lemma voicePattern_sound (t : gostring) (l : list gostring) :
  FindStringSubmatch voicePattern t = Some l ->
  exists m1 m2 m3, l = [t; m1; m2; m3] /\ voiceShape t m1 m2 m3.
Proof.
  unfold FindStringSubmatch. cbn [expr voicePattern NumSubexp].
  rewrite search_anchored_0.
  destruct (run t _ 0 [] _) as [res|] eqn:Hrun; [|done].
  intros [= <-].
  apply run_sound in Hrun as (j & c' & H & [= <-]).
  apply Matches_Concat_inv in H as (j0 & c0 & Hb & H).
  apply Matches_Begin_inv in Hb as (_ & -> & ->).
  apply Matches_Concat_inv in H as (p1 & c1 & H1 & H).
  apply Matches_Capture_inv in H1 as (c1' & H1 & ->).
  apply Matches_Plus_Class_inv in H1 as (-> & Hp1 & Hp1' & Hm1).
  apply Matches_Concat_inv in H as (p2 & c2 & H2 & H).
  apply Matches_Plus_Class_inv in H2 as (-> & Hp2 & Hp2' & Hw1).
  apply Matches_Concat_inv in H as (p3 & c3 & H3 & H).
  apply Matches_Capture_inv in H3 as (c3' & H3 & ->).
  apply Matches_Plus_Class_inv in H3 as (-> & Hp3 & Hp3' & Hm2).
  apply Matches_Concat_inv in H as (p4 & c4 & H4 & H).
  apply Matches_Plus_Class_inv in H4 as (-> & Hp4 & Hp4' & Hw2).
  apply Matches_Concat_inv in H as (p5 & c5 & H5 & H).
  apply Matches_Class_inv in H5 as (-> & -> & a & Ha & Hhash).
  apply isHash_eq in Hhash as ->.
  apply Matches_Concat_inv in H as (p6 & c6 & H6 & H).
  apply Matches_Star_Class_inv in H6 as (-> & Hp6 & _ & Hw3).
  apply Matches_Concat_inv in H as (p7 & c7 & H7 & H).
  apply Matches_Capture_inv in H7 as (c7' & H7 & ->).
  apply Matches_Star_Class_inv in H7 as (-> & Hp7 & _ & Hm3).
  apply Matches_End_inv in H as (-> & -> & ->).
  pose proof (lookup_lt_Some _ _ _ Ha) as Hlt.
  exists (substr t 0 p1), (substr t p2 p3), (substr t p6 (length t)).
  split.
  { cbn. unfold group. cbn. by rewrite substr_whole. }
  exists (substr t p1 p2), (substr t p3 p4), (substr t (S p4) p6).
  split.
  { rewrite <- (substr_one t p4 _ Ha).
    rewrite <- (substr_app t (S p4) p6 (length t)) by lia.
    rewrite <- (substr_app t p4 (S p4) (length t)) by lia.
    rewrite <- (substr_app t p3 p4 (length t)) by lia.
    rewrite <- (substr_app t p2 p3 (length t)) by lia.
    rewrite <- (substr_app t p1 p2 (length t)) by lia.
    rewrite <- (substr_app t 0 p1 (length t)) by lia.
    by rewrite substr_whole. }
  repeat split; try done; apply substr_nonempty; lia.
Qed.

(** A line of that shape is matched. *)
Lemma voicePattern_complete (t m1 m2 m3 : gostring) :
  voiceShape t m1 m2 m3 -> is_Some (FindStringSubmatch voicePattern t).
Proof.
  intros (ws1 & ws2 & ws3 & Ht & Hn1 & Hm1 & Hnw1 & Hw1 & Hn2 & Hm2 & Hnw2 & Hw2 & Hw3 & Hm3).
  set (pre2 := m1 ++ ws1). set (pre3 := pre2 ++ m2). set (pre4 := pre3 ++ ws2).
  set (pre5 := pre4 ++ [byte_hash]). set (pre6 := pre5 ++ ws3).
  assert (Hlen : length t = length (pre6 ++ m3)).
  { rewrite Ht. unfold pre6, pre5, pre4, pre3, pre2. by rewrite <- !app_assoc. }
  assert (Hmatch : exists c, Matches t (expr voicePattern) 0 [] (length t) c).
  { eexists. cbn [expr voicePattern].
    eapply M_Concat; [apply M_Begin|].
    eapply M_Concat.
    { apply M_Capture.
      apply (Matches_Plus_Class_intro t false _ [] m1 Hn1 Hm1 []
               (ws1 ++ m2 ++ ws2 ++ [byte_hash] ++ ws3 ++ m3)). exact Ht. }
    eapply M_Concat.
    { apply (Matches_Plus_Class_intro t true _ _ ws1 Hnw1 Hw1 m1
               (m2 ++ ws2 ++ [byte_hash] ++ ws3 ++ m3)). exact Ht. }
    eapply M_Concat.
    { apply M_Capture.
      apply (Matches_Plus_Class_intro t true _ _ m2 Hn2 Hm2 pre2
               (ws2 ++ [byte_hash] ++ ws3 ++ m3)).
      rewrite Ht. unfold pre2. by rewrite <- !app_assoc. }
    eapply M_Concat.
    { apply (Matches_Plus_Class_intro t true _ _ ws2 Hnw2 Hw2 pre3
               ([byte_hash] ++ ws3 ++ m3)).
      rewrite Ht. unfold pre3, pre2. by rewrite <- !app_assoc. }
    eapply M_Concat.
    { apply (M_Class t isHash (length pre4) _ byte_hash); [|reflexivity].
      rewrite Ht. fold pre2 pre3 pre4.
      replace (m1 ++ ws1 ++ m2 ++ ws2 ++ [byte_hash] ++ ws3 ++ m3)
        with (pre4 ++ byte_hash :: ws3 ++ m3)
        by (unfold pre4, pre3, pre2; by rewrite <- !app_assoc).
      by apply list_lookup_middle. }
    replace (S (length pre4)) with (length pre5)
      by (unfold pre5; rewrite length_app; simpl; lia).
    eapply M_Concat.
    { apply (Matches_Star_Class_intro t true _ _ ws3 Hw3 pre5 m3).
      rewrite Ht. unfold pre5, pre4, pre3, pre2. by rewrite <- !app_assoc. }
    eapply M_Concat.
    { apply M_Capture.
      apply (Matches_Star_Class_intro t true _ _ m3 Hm3 pre6 []).
      rewrite Ht. unfold pre6, pre5, pre4, pre3, pre2.
      by rewrite app_nil_r, <- !app_assoc. }
    rewrite <- Hlen. apply M_End. }
  destruct Hmatch as [c Hc].
  unfold FindStringSubmatch. cbn [expr voicePattern NumSubexp] in *.
  rewrite search_anchored_0.
  destruct (run_complete t _ _ _ _ _ Hc (fun j c => Some ((0, (0, j)) :: c)))
    as [[res Hres] _]; [by eexists|].
  rewrite Hres. by eexists.
Qed.

(** ** The parser, line by line *)

(** A line appends a voice only if, once trimmed, it has the shape of a
    catalog line; the voice is made of the three groups, each trimmed. *)
Lemma parseLine_sound (line : gostring) (v : Voice) (rest : list Voice) :
  parseLine line = v :: rest ->
  rest = [] /\ TrimSpace line <> []
  /\ exists m1 m2 m3, voiceShape (TrimSpace line) m1 m2 m3 /\ v = voiceOf m1 m2 m3.
Proof.
  unfold parseLine.
  destruct (isEmpty (TrimSpace line)) eqn:He; [done|].
  destruct (FindStringSubmatch voicePattern (TrimSpace line)) as [l|] eqn:Hf; [|done].
  apply voicePattern_sound in Hf as (m1 & m2 & m3 & -> & Hshape).
  intros [= <- <-]. split; [done|]. split; [by destruct (TrimSpace line)|].
  by exists m1, m2, m3.
Qed.

(** A line that has the shape once trimmed appends exactly one voice. *)
Lemma parseLine_complete (line m1 m2 m3 : gostring) :
  voiceShape (TrimSpace line) m1 m2 m3 -> exists v, parseLine line = [v].
Proof.
  intros Hshape. unfold parseLine.
  destruct (isEmpty (TrimSpace line)) eqn:He.
  { destruct Hshape as (ws1 & ws2 & ws3 & Ht & Hn1 & _).
    destruct (TrimSpace line); [|done]. by destruct m1. }
  destruct (voicePattern_complete _ _ _ _ Hshape) as [l Hl]. rewrite Hl.
  apply voicePattern_sound in Hl as (m1' & m2' & m3' & -> & _). by eexists.
Qed.

(** ** strings.Split on newlines *)

Lemma HasPrefix_newline (a : ascii) (t : gostring) :
  HasPrefix (a :: t) newline = Ascii.eqb byte_lf a.
Proof.
  unfold HasPrefix, newline. cbn [stripPrefix]. by destruct (Ascii.eqb byte_lf a).
Qed.

Lemma Index_newline_none (l : gostring) : byte_lf ∉ l -> Index l newline = None.
Proof.
  induction l as [|a l IH]; intros Hl; [done|].
  apply not_elem_of_cons in Hl as [Ha Hl].
  cbn [Index]. rewrite HasPrefix_newline.
  destruct (Ascii.eqb byte_lf a) eqn:E; [apply Ascii.eqb_eq in E; congruence|].
  by rewrite (IH Hl).
Qed.

Lemma Index_newline_app (l t : gostring) :
  byte_lf ∉ l -> Index (l ++ byte_lf :: t) newline = Some (length l).
Proof.
  induction l as [|a l IH]; intros Hl.
  - cbn [app Index]. rewrite HasPrefix_newline. by rewrite Ascii.eqb_refl.
  - apply not_elem_of_cons in Hl as [Ha Hl].
    cbn [app Index]. rewrite HasPrefix_newline.
    destruct (Ascii.eqb byte_lf a) eqn:E; [apply Ascii.eqb_eq in E; congruence|].
    by rewrite (IH Hl).
Qed.

Lemma joinWith_cons (sep x y : gostring) (rest : list gostring) :
  joinWith sep (x :: y :: rest) = x ++ sep ++ joinWith sep (y :: rest).
Proof. reflexivity. Qed.

Lemma genSplit_join (lines : list gostring) :
  Forall (fun l => byte_lf ∉ l) lines -> lines <> [] ->
  forall fuel, length lines <= S fuel ->
    genSplit fuel (joinWith newline lines) newline = lines.
Proof.
  induction 1 as [|l rest Hl Hrest IH]; intros Hne fuel Hfuel; [done|].
  destruct rest as [|l' rest].
  - cbn [joinWith]. destruct fuel; cbn [genSplit]; [done|].
    by rewrite (Index_newline_none _ Hl).
  - rewrite joinWith_cons. set (tail := joinWith newline (l' :: rest)) in *.
    destruct fuel as [|fuel]; [simpl in Hfuel; lia|].
    cbn [genSplit].
    change (l ++ newline ++ tail) with (l ++ byte_lf :: tail).
    rewrite (Index_newline_app _ _ Hl).
    rewrite take_app_length. f_equal.
    change (l ++ byte_lf :: tail) with (l ++ newline ++ tail).
    rewrite app_assoc.
    rewrite drop_app_length' by (by rewrite length_app).
    apply IH; [done | simpl in *; lia].
Qed.

Lemma joinWith_length_ge (sep : gostring) (lines : list gostring) :
  0 < length sep -> length lines <= S (length (joinWith sep lines)).
Proof.
  intros Hsep. induction lines as [|l rest IH]; [simpl; lia|].
  destruct rest as [|l' rest]; [simpl; lia|].
  cbn [joinWith length] in *. rewrite !length_app. lia.
Qed.

(** Splitting the newline-joined lines gives the lines back. *)
Lemma Split_join (lines : list gostring) :
  Forall (fun l => byte_lf ∉ l) lines -> lines <> [] ->
  Split (joinWith newline lines) newline = lines.
Proof.
  intros Hl Hne. unfold Split. apply genSplit_join; [done..|].
  apply joinWith_length_ge. simpl. lia.
Qed.

(** Every piece of a split is made of bytes of the text. *)
Lemma genSplit_Forall (P : ascii -> Prop) (sep : gostring) (fuel : nat) (s : gostring) :
  Forall P s -> Forall (Forall P) (genSplit fuel s sep).
Proof.
  revert s. induction fuel as [|fuel IH]; intros s Hs; simpl; [by repeat constructor|].
  destruct (Index s sep) as [m|]; [|by repeat constructor].
  constructor; [by apply Forall_take|]. apply IH. by apply Forall_drop.
Qed.

(** The loop of [parseVoices] appends the voices of each line in turn. *)
Lemma foldl_parseLine (lines : list gostring) (acc : list Voice) :
  foldl (fun voices line => voices ++ parseLine line) acc lines
  = acc ++ concat (map parseLine lines).
Proof.
  revert acc. induction lines as [|l lines IH]; intros acc; simpl.
  - by rewrite app_nil_r.
  - by rewrite IH, app_assoc.
Qed.

Lemma linesOf_nonempty (s : gostring) : linesOf s <> [].
Proof.
  destruct s as [|a t]; [done|]. cbn [linesOf].
  destruct (Ascii.eqb a byte_lf); [done|]. by destruct (linesOf t).
Qed.

Lemma linesOf_no_newline (s : gostring) : Forall (fun l => byte_lf ∉ l) (linesOf s).
Proof.
  induction s as [|a t IH]; cbn [linesOf].
  - constructor; [apply not_elem_of_nil | constructor].
  - destruct (Ascii.eqb a byte_lf) eqn:Ha.
    + constructor; [apply not_elem_of_nil | done].
    + apply Ascii.eqb_neq in Ha.
      destruct (linesOf t) as [|l ls].
      * constructor; [|constructor].
        intros Hin%list_elem_of_singleton. congruence.
      * apply Forall_cons in IH as [Hl Hls]. constructor; [|done].
        rewrite elem_of_cons. intros [Heq|Hin]; [congruence | done].
Qed.

Lemma joinWith_cons_head (sep : gostring) (a : ascii) (l : gostring)
      (ls : list gostring) :
  joinWith sep ((a :: l) :: ls) = a :: joinWith sep (l :: ls).
Proof. by destruct ls. Qed.

Lemma joinWith_linesOf (s : gostring) : joinWith newline (linesOf s) = s.
Proof.
  induction s as [|a t IH]; [done|]. cbn [linesOf].
  pose proof (linesOf_nonempty t) as Hne.
  destruct (linesOf t) as [|l ls]; [done|].
  destruct (Ascii.eqb a byte_lf) eqn:Ha.
  - apply Ascii.eqb_eq in Ha as ->. rewrite joinWith_cons. by rewrite IH.
  - by rewrite joinWith_cons_head, IH.
Qed.

(** [strings.Split] on newlines gives the newline-free pieces. *)
Lemma Split_linesOf (s : gostring) : Split s newline = linesOf s.
Proof.
  rewrite <- (joinWith_linesOf s) at 1.
  apply Split_join; [apply linesOf_no_newline | apply linesOf_nonempty].
Qed.

Lemma parseVoices_concat (output : gostring) :
  parseVoices output = concat (map parseLine (Split output newline)).
Proof. unfold parseVoices. by rewrite foldl_parseLine. Qed.

Lemma TrimSpace_Forall (P : ascii -> Prop) (s : gostring) :
  Forall P s -> Forall P (TrimSpace s).
Proof.
  intros Hs. destruct (TrimSpace_infix s) as (p & q & Hpq).
  rewrite Hpq in Hs. by apply Forall_app in Hs as [_ [? _]%Forall_app].
Qed.

Lemma voiceShape_hash (t m1 m2 m3 : gostring) : voiceShape t m1 m2 m3 -> byte_hash ∈ t.
Proof.
  intros (ws1 & ws2 & ws3 & -> & _).
  rewrite !elem_of_app. do 4 right. left. by left.
Qed.

(** A line without '#' appends nothing. *)
Lemma parseLine_no_hash (line : gostring) : byte_hash ∉ line -> parseLine line = [].
Proof.
  intros Hno. destruct (parseLine line) as [|v rest] eqn:Hp; [done|].
  apply parseLine_sound in Hp as (_ & _ & m1 & m2 & m3 & Hshape & _).
  apply voiceShape_hash in Hshape.
  destruct (TrimSpace_infix line) as (p & q & Hpq).
  destruct Hno. rewrite Hpq, !elem_of_app. auto.
Qed.

Lemma parseVoices_no_hash (output : gostring) :
  byte_hash ∉ output -> parseVoices output = [].
Proof.
  intros Hno. rewrite parseVoices_concat.
  assert (Forall (fun a => a <> byte_hash) output) as Hall.
  { apply Forall_forall. intros a Ha ->. done. }
  apply (genSplit_Forall _ newline (length output)) in Hall.
  fold (Split output newline) in Hall.
  induction Hall as [|l ls Hl _ IH]; [done|]. simpl.
  rewrite parseLine_no_hash, IH; [done|].
  intros Hin. rewrite Forall_forall in Hl. by apply (Hl _ Hin).
Qed.

(** ** Well-formed lines and interleavings *)

Lemma parseLine_malformed (line : gostring) : ~ wellFormedLine line -> parseLine line = [].
Proof.
  intros Hbad. destruct (parseLine line) as [|v rest] eqn:Hp; [done|].
  apply parseLine_sound in Hp as (_ & _ & m1 & m2 & m3 & Hshape & _).
  destruct Hbad. by exists m1, m2, m3.
Qed.

Lemma parseLine_wellFormed (line : gostring) :
  wellFormedLine line -> exists v, parseLine line = [v].
Proof. intros (m1 & m2 & m3 & Hshape). by eapply parseLine_complete. Qed.

Lemma parse_interleaved (good bad lines : list gostring) :
  interleaved good bad lines ->
  Forall wellFormedLine good ->
  Forall (fun l => ~ wellFormedLine l) bad ->
  exists vs, concat (map parseLine lines) = vs
             /\ Forall2 (fun l v => parseLine l = [v]) good vs.
Proof.
  induction 1 as [|x xs ys l _ IH|y xs ys l _ IH]; intros Hgood Hbad.
  - exists []. split; [done | constructor].
  - apply Forall_cons in Hgood as [Hx Hgood].
    destruct (IH Hgood Hbad) as (vs & Hvs & Hall).
    destruct (parseLine_wellFormed _ Hx) as [v Hv].
    exists (v :: vs). simpl. rewrite Hv, Hvs. split; [done | by constructor].
  - apply Forall_cons in Hbad as [Hy Hbad].
    destruct (IH Hgood Hbad) as (vs & Hvs & Hall).
    exists vs. simpl. rewrite (parseLine_malformed _ Hy), Hvs. done.
Qed.

Lemma interleaved_nonempty {A : Type} (x : A) (xs ys l : list A) :
  interleaved (x :: xs) ys l -> l <> [].
Proof. by inversion 1. Qed.

Lemma space_enc_no_hash (enc : gostring) : enc ∈ spaceEncodings -> byte_hash ∉ enc.
Proof.
  intros H. each_space H;
    (intros Hin; repeat (apply elem_of_cons in Hin as [Hin|Hin]; [discriminate|]);
     by apply elem_of_nil in Hin).
Qed.

Lemma whitespaceOnly_no_hash (s : gostring) : whitespaceOnly s -> byte_hash ∉ s.
Proof.
  intros (runes & Hall & ->). induction Hall as [|enc rest Henc _ IH]; simpl.
  - apply not_elem_of_nil.
  - rewrite elem_of_app. intros [H|H]; [by apply (space_enc_no_hash enc) | done].
Qed.

(** C3: the catalog line of Albert parses to the one record with name
    "Albert", locale "en_US" and description "Hello! My name is Albert.";
    a header without '#' and a blank line yield no record; three
    well-formed lines interleaved with two malformed or blank lines yield
    exactly three records, those of the well-formed lines in their order. *)
Theorem C3_parser_round_trip_and_order :
  parseVoices (B "Albert    en_US    # Hello! My name is Albert.")
  = [ {| Name := B "Albert"; Locale := B "en_US";
         Description := B "Hello! My name is Albert." |} ]
  /\ (forall header, byte_hash ∉ header -> parseVoices header = [])
  /\ (forall blank, whitespaceOnly blank -> parseVoices blank = [])
  /\ (forall good bad lines,
        interleaved good bad lines ->
        length good = 3 -> length bad = 2 ->
        Forall wellFormedLine good ->
        Forall (fun l => ~ wellFormedLine l) bad ->
        Forall (fun l => byte_lf ∉ l) lines ->
        exists v1 v2 v3,
          parseVoices (joinWith newline lines) = [v1; v2; v3]
          /\ Forall2 (fun l v => parseLine l = [v]) good [v1; v2; v3]).
Proof.
  split; [exact parse_albert|].
  split; [exact parseVoices_no_hash|].
  split. { intros blank Hb. by apply parseVoices_no_hash, whitespaceOnly_no_hash. }
  intros good bad lines Hi Hg Hb Hgood Hbad Hnl.
  destruct (parse_interleaved _ _ _ Hi Hgood Hbad) as (vs & Hvs & Hall).
  pose proof (Forall2_length _ _ _ Hall) as Hlen. rewrite Hg in Hlen.
  destruct vs as [|v1 [|v2 [|v3 [|]]]]; try discriminate.
  exists v1, v2, v3. split; [|done].
  rewrite parseVoices_concat, Split_join; [done..|].
  destruct good; [discriminate|]. by eapply interleaved_nonempty.
Qed.

(** C6 fails as stated: a description may be empty, and so may a locale
    made of white space that the pattern's \s does not know (here a
    vertical tab). *)
Lemma C6_fields_can_be_empty :
  parseVoices (B "Albert en_US #")
  = [ {| Name := B "Albert"; Locale := B "en_US"; Description := [] |} ]
  /\ parseVoices (B "Albert " ++ [byte_vt] ++ B " # Hello")
     = [ {| Name := B "Albert"; Locale := []; Description := B "Hello" |} ].
Proof. split; vm_compute; reflexivity. Qed.

Lemma elem_of_concat_parse (v : Voice) (lines : list gostring) :
  v ∈ concat (map parseLine lines) -> exists line, line ∈ lines /\ v ∈ parseLine line.
Proof.
  induction lines as [|l lines IH]; simpl; [by intros ?%elem_of_nil|].
  rewrite elem_of_app. intros [H|H].
  - exists l. split; [by left | done].
  - destruct (IH H) as (line & Hin & Hv). exists line. split; [by right | done].
Qed.

(** *** The cut that the pattern makes *)

Lemma loop_lazy_first (s : gostring) (p : ascii -> bool) (fuel i : nat) (c : captures)
      (k : cont) (res : captures) :
  loop (run s (Class p)) false fuel i c k = Some res ->
  exists n, i <= n /\ k n c = Some res
            /\ (forall n', i <= n' < n -> k n' c = None)
            /\ (forall n', i <= n' < n -> exists a, s !! n' = Some a /\ p a = true).
Proof.
  revert i. induction fuel as [|fuel IH]; intros i; cbn [loop].
  - intros Hk. exists i. repeat split; [lia | done | intros; lia | intros; lia].
  - destruct (k i c) as [r|] eqn:Hk; cbn [orElse].
    + intros [= ->]. exists i. repeat split; [lia | done | intros; lia | intros; lia].
    + cbn [run]. destruct (s !! i) as [a|] eqn:Ha; [|done].
      destruct (p a) eqn:Hp; [|done].
      replace (i <? S i) with true by (symmetry; apply Nat.ltb_lt; lia).
      intros H. apply IH in H as (n & Hn & Hkn & Hnone & Hall).
      exists n. split; [lia|]. split; [done|]. split.
      * intros n' Hn'. destruct (decide (n' = i)) as [->|]; [done|]. apply Hnone. lia.
      * intros n' Hn'. destruct (decide (n' = i)) as [->|]; [by exists a|]. apply Hall. lia.
Qed.

Lemma run_lazy_name (t : gostring) (p : ascii -> bool) (T : regex) (k0 : cont)
      (res : captures) :
  run t (Concat BeginText (Concat (Capture 1 (Plus false (Class p))) T)) 0 [] k0 = Some res ->
  exists n, 1 <= n
            /\ run t T n [(1, (0, n))] k0 = Some res
            /\ (forall n', 1 <= n' < n -> run t T n' [(1, (0, n'))] k0 = None)
            /\ (forall n', n' < n -> exists a, t !! n' = Some a /\ p a = true).
Proof.
  cbn [run Plus]. cbn [Nat.eqb].
  destruct (t !! 0) as [a|] eqn:Ha; [|done].
  destruct (p a) eqn:Hp; [|done].
  intros H. apply loop_lazy_first in H as (n & Hn & Hk & Hnone & Hall).
  exists n. split; [done|]. split; [done|]. split; [done|].
  intros n' Hn'. destruct n' as [|n']; [by exists a|]. apply Hall. lia.
Qed.

(** The rest of the pattern matches after the name of a cut. *)
Lemma voiceShape_tail (t m1 m2 m3 : gostring) (c : captures) :
  voiceShape t m1 m2 m3 ->
  exists c', Matches t voiceTail (length m1) c (length t) c'.
Proof.
  intros (ws1 & ws2 & ws3 & Ht & Hn1 & Hm1 & Hnw1 & Hw1 & Hn2 & Hm2 & Hnw2 & Hw2 & Hw3 & Hm3).
  set (pre2 := m1 ++ ws1). set (pre3 := pre2 ++ m2). set (pre4 := pre3 ++ ws2).
  set (pre5 := pre4 ++ [byte_hash]). set (pre6 := pre5 ++ ws3).
  assert (Hlen : length t = length (pre6 ++ m3)).
  { rewrite Ht. unfold pre6, pre5, pre4, pre3, pre2. by rewrite <- !app_assoc. }
  eexists. unfold voiceTail.
  eapply M_Concat.
  { apply (Matches_Plus_Class_intro t true _ _ ws1 Hnw1 Hw1 m1
             (m2 ++ ws2 ++ [byte_hash] ++ ws3 ++ m3)). exact Ht. }
  eapply M_Concat.
  { apply M_Capture.
    apply (Matches_Plus_Class_intro t true _ _ m2 Hn2 Hm2 pre2
             (ws2 ++ [byte_hash] ++ ws3 ++ m3)).
    rewrite Ht. unfold pre2. by rewrite <- !app_assoc. }
  eapply M_Concat.
  { apply (Matches_Plus_Class_intro t true _ _ ws2 Hnw2 Hw2 pre3
             ([byte_hash] ++ ws3 ++ m3)).
    rewrite Ht. unfold pre3, pre2. by rewrite <- !app_assoc. }
  eapply M_Concat.
  { apply (M_Class t isHash (length pre4) _ byte_hash); [|reflexivity].
    rewrite Ht. fold pre2 pre3 pre4.
    replace (m1 ++ ws1 ++ m2 ++ ws2 ++ [byte_hash] ++ ws3 ++ m3)
      with (pre4 ++ byte_hash :: ws3 ++ m3)
      by (unfold pre4, pre3, pre2; by rewrite <- !app_assoc).
    by apply list_lookup_middle. }
  replace (S (length pre4)) with (length pre5)
    by (unfold pre5; rewrite length_app; simpl; lia).
  eapply M_Concat.
  { apply (Matches_Star_Class_intro t true _ _ ws3 Hw3 pre5 m3).
    rewrite Ht. unfold pre5, pre4, pre3, pre2. by rewrite <- !app_assoc. }
  eapply M_Concat.
  { apply M_Capture.
    apply (Matches_Star_Class_intro t true _ _ m3 Hm3 pre6 []).
    rewrite Ht. unfold pre6, pre5, pre4, pre3, pre2.
    by rewrite app_nil_r, <- !app_assoc. }
  rewrite <- Hlen. apply M_End.
Qed.

(** A match of the rest of the pattern cuts the rest of the line. *)
Lemma voiceTail_sound (t : gostring) (n : nat) (c : captures) (j : nat) (c' : captures) :
  Matches t voiceTail n c j c' ->
  exists p2 p3 p4 p6,
    j = length t
    /\ c' = (3, (p6, length t)) :: (2, (p2, p3)) :: c
    /\ n < p2 /\ p2 < p3 /\ p3 < p4 /\ p4 < length t /\ S p4 <= p6 /\ p6 <= length t
    /\ allOf perlSpace (substr t n p2)
    /\ allOf notPerlSpace (substr t p2 p3)
    /\ allOf perlSpace (substr t p3 p4)
    /\ t !! p4 = Some byte_hash
    /\ allOf perlSpace (substr t (S p4) p6)
    /\ allOf anyCharNotNL (substr t p6 (length t)).
Proof.
  unfold voiceTail. intros H.
  apply Matches_Concat_inv in H as (p2 & c2 & H2 & H).
  apply Matches_Plus_Class_inv in H2 as (-> & Hp2 & Hp2' & Hw1).
  apply Matches_Concat_inv in H as (p3 & c3 & H3 & H).
  apply Matches_Capture_inv in H3 as (c3' & H3 & ->).
  apply Matches_Plus_Class_inv in H3 as (-> & Hp3 & Hp3' & Hm2).
  apply Matches_Concat_inv in H as (p4 & c4 & H4 & H).
  apply Matches_Plus_Class_inv in H4 as (-> & Hp4 & Hp4' & Hw2).
  apply Matches_Concat_inv in H as (p5 & c5 & H5 & H).
  apply Matches_Class_inv in H5 as (-> & -> & a & Ha & Hhash).
  apply isHash_eq in Hhash as ->.
  apply Matches_Concat_inv in H as (p6 & c6 & H6 & H).
  apply Matches_Star_Class_inv in H6 as (-> & Hp6 & _ & Hw3).
  apply Matches_Concat_inv in H as (p7 & c7 & H7 & H).
  apply Matches_Capture_inv in H7 as (c7' & H7 & ->).
  apply Matches_Star_Class_inv in H7 as (-> & Hp7 & _ & Hm3).
  apply Matches_End_inv in H as (-> & -> & ->).
  pose proof (lookup_lt_Some _ _ _ Ha) as Hlt.
  exists p2, p3, p4, p6. repeat split; try done; lia.
Qed.

Lemma allOf_take (p : ascii -> bool) (t : gostring) (n : nat) :
  (forall n', n' < n -> exists a, t !! n' = Some a /\ p a = true) ->
  allOf p (take n t).
Proof.
  intros H. apply Forall_lookup. intros i x Hx.
  apply lookup_take_Some in Hx as [Hx Hi].
  destruct (H i Hi) as (a & Ha & Hp). congruence.
Qed.

(** What the matcher returns is the cut with the shortest name. *)
Lemma voicePattern_first (t : gostring) (l : list gostring) :
  FindStringSubmatch voicePattern t = Some l ->
  exists m1 m2 m3, l = [t; m1; m2; m3] /\ firstCut t m1 m2 m3.
Proof.
  unfold FindStringSubmatch. cbn [expr voicePattern NumSubexp].
  rewrite search_anchored_0.
  change (Concat (Plus true (Class perlSpace)) _) with voiceTail.
  destruct (run t _ 0 [] _) as [res|] eqn:Hrun; [|done].
  intros [= <-].
  apply run_lazy_name in Hrun as (n & Hn1 & Hk & Hnone & Hall).
  apply run_sound in Hk as (j & c' & Hm & [= <-]).
  apply voiceTail_sound in Hm
    as (p2 & p3 & p4 & p6 & -> & -> & Hp2 & Hp3 & Hp4 & Hlt & Hp6 & Hp6'
        & Hw1 & Hm2 & Hw2 & Ha & Hw3 & Hm3).
  exists (substr t 0 n), (substr t p2 p3), (substr t p6 (length t)).
  split.
  { cbn. unfold group. cbn. by rewrite substr_whole. }
  split.
  - exists (substr t n p2), (substr t p3 p4), (substr t (S p4) p6).
    split.
    { rewrite <- (substr_one t p4 _ Ha).
      rewrite <- (substr_app t (S p4) p6 (length t)) by lia.
      rewrite <- (substr_app t p4 (S p4) (length t)) by lia.
      rewrite <- (substr_app t p3 p4 (length t)) by lia.
      rewrite <- (substr_app t p2 p3 (length t)) by lia.
      rewrite <- (substr_app t n p2 (length t)) by lia.
      rewrite <- (substr_app t 0 n (length t)) by lia.
      by rewrite substr_whole. }
    split; [apply substr_nonempty; lia|].
    split. { unfold substr. rewrite Nat.sub_0_r. cbn [drop]. by apply allOf_take. }
    repeat split; try done; apply substr_nonempty; lia.
  - intros m1' m2' m3' Hshape'.
    rewrite substr_length by lia. rewrite Nat.sub_0_r.
    destruct (Nat.le_gt_cases n (length m1')) as [|Hlt']; [done|]. exfalso.
    assert (Hn' : 1 <= length m1').
    { destruct Hshape' as (? & ? & ? & _ & Hne & _). destruct m1'; [done | simpl; lia]. }
    destruct (voiceShape_tail t m1' m2' m3' [(1, (0, length m1'))] Hshape') as [c2 Hc2].
    destruct (run_complete t _ _ _ _ _ Hc2 (fun j c => Some ((0, (0, j)) :: c)))
      as [[r Hr] _]; [by eexists|].
    rewrite Hnone in Hr by lia. done.
Qed.

(** *** Cuts of a line are unique once the name is fixed *)

Lemma run_cut_unique (p : ascii -> bool) (w w' r r' : gostring) :
  allOf p w -> allOf p w' -> headFails p r -> headFails p r' ->
  w ++ r = w' ++ r' -> w = w' /\ r = r'.
Proof.
  intros Hw. revert w'. induction Hw as [|a w Ha _ IH]; intros w' Hw' Hr Hr' Heq.
  - destruct Hw' as [|a' w' Ha' _]; [done|].
    simpl in Heq. subst r. simpl in Hr. congruence.
  - destruct Hw' as [|a' w' Ha' Hw'].
    + simpl in Heq. subst r'. simpl in Hr'. congruence.
    + injection Heq as -> Heq. destruct (IH w' Hw' Hr Hr' Heq) as [-> ->]. done.
Qed.

Lemma TrimLeftSpace_cons (a : ascii) (r : gostring) :
  perlSpace a = true -> TrimLeftSpace (a :: r) = TrimLeftSpace r.
Proof.
  intros Ha. unfold TrimLeftSpace. cbn [length trimLeftLoop].
  assert (leadingSpace (a :: r) = Some r) as ->; [|done].
  unfold perlSpace in Ha.
  repeat (apply orb_true_iff in Ha as [Ha|Ha]);
    apply Ascii.eqb_eq in Ha as ->; reflexivity.
Qed.

(** White space of the pattern in front of a text is trimmed away. *)
Lemma TrimSpace_perlSpace_app (ws m : gostring) :
  allOf perlSpace ws -> TrimSpace (ws ++ m) = TrimSpace m.
Proof.
  induction 1 as [|a ws Ha _ IH]; [done|].
  unfold TrimSpace in *. cbn [app]. by rewrite TrimLeftSpace_cons.
Qed.

Lemma trimLeftLoop_runes (fuel : nat) (s : gostring) :
  exists runes, Forall (fun enc => enc ∈ spaceEncodings) runes
                /\ s = concat runes ++ trimLeftLoop fuel s.
Proof.
  revert s. induction fuel as [|fuel IH]; intros s; simpl; [by exists []|].
  destruct (leadingSpace s) as [r|] eqn:Hl; [|by exists []].
  apply leadingSpace_Some in Hl as (enc & Henc & ->).
  destruct (IH r) as (runes & Hr & Hs). exists (enc :: runes).
  split; [by constructor|]. simpl. by rewrite <- app_assoc, <- Hs.
Qed.

(** [TrimSpace] empties exactly the texts made of white space. *)
Lemma TrimSpace_nil (s : gostring) : TrimSpace s = [] <-> whitespaceOnly s.
Proof.
  split; [|apply TrimSpace_whitespaceOnly].
  unfold TrimSpace, TrimRightSpace, TrimLeftSpace. intros H.
  destruct (trimLeftLoop_runes (length s) s) as (runes & Hr & Hs).
  pose proof (trimLeftLoop_done (length s) s (le_n _)) as Hdone.
  apply trimRightLoop_nil in H as [H | H]; [|done].
  exists runes. split; [done|]. rewrite Hs at 1. by rewrite H, app_nil_r.
Qed.

Lemma voiceShape_rest_unique (t m1 m2 m3 m2' m3' : gostring) :
  voiceShape t m1 m2 m3 -> voiceShape t m1 m2' m3' ->
  m2 = m2' /\ TrimSpace m3 = TrimSpace m3'.
Proof.
  intros (ws1 & ws2 & ws3 & Ht & _ & _ & Hnw1 & Hw1 & Hn2 & Hm2 & Hnw2 & Hw2 & Hw3 & _).
  intros (ws1' & ws2' & ws3' & Ht' & _ & _ & Hnw1' & Hw1' & Hn2' & Hm2' & Hnw2' & Hw2'
          & Hw3' & _).
  rewrite Ht in Ht'. apply app_inv_head in Ht'.
  assert (Hhead2 : forall m w (x : gostring), m <> [] -> allOf notPerlSpace m ->
                     headFails perlSpace (m ++ w ++ x)).
  { intros m w x Hne Hall. destruct Hall as [|a m Ha _]; [done|].
    simpl. unfold notPerlSpace in Ha. by apply negb_true_iff in Ha. }
  assert (Hhead3 : forall w (x : gostring), w <> [] -> allOf perlSpace w ->
                     headFails notPerlSpace (w ++ x)).
  { intros w x Hne Hall. destruct Hall as [|a w Ha _]; [done|].
    simpl. unfold notPerlSpace. by rewrite Ha. }
  apply (run_cut_unique perlSpace) in Ht' as [-> Ht']; [|by auto..].
  apply (run_cut_unique notPerlSpace) in Ht' as [-> Ht']; [|by auto..].
  apply (run_cut_unique perlSpace) in Ht' as [-> Ht']; [|done..].
  split; [done|]. injection Ht' as Ht'.
  by rewrite <- (TrimSpace_perlSpace_app ws3 m3 Hw3), Ht', TrimSpace_perlSpace_app.
Qed.

(** Two cuts with the shortest name give the same record. *)
Lemma firstCut_record (t m1 m2 m3 m1' m2' m3' : gostring) :
  firstCut t m1 m2 m3 -> firstCut t m1' m2' m3' ->
  voiceOf m1 m2 m3 = voiceOf m1' m2' m3'.
Proof.
  intros [Hs Hmin] [Hs' Hmin'].
  assert (Hlen : length m1 = length m1').
  { pose proof (Hmin _ _ _ Hs'). pose proof (Hmin' _ _ _ Hs). lia. }
  assert (m1 = m1') as <-.
  { destruct Hs as (? & ? & ? & Ht & _). destruct Hs' as (? & ? & ? & Ht' & _).
    rewrite Ht in Ht'. by apply app_inj_1 in Ht' as [? _]. }
  destruct (voiceShape_rest_unique _ _ _ _ _ _ Hs Hs') as [<- Hd].
  unfold voiceOf. by rewrite Hd.
Qed.

(** A line appends a voice only if, once trimmed, it has the shape of a
    catalog line; the voice is made of the groups of the cut with the
    shortest name, each trimmed. *)
Lemma parseLine_first (line : gostring) (v : Voice) (rest : list Voice) :
  parseLine line = v :: rest ->
  rest = []
  /\ exists m1 m2 m3, firstCut (TrimSpace line) m1 m2 m3 /\ v = voiceOf m1 m2 m3.
Proof.
  unfold parseLine.
  destruct (isEmpty (TrimSpace line)) eqn:He; [done|].
  destruct (FindStringSubmatch voicePattern (TrimSpace line)) as [l|] eqn:Hf; [|done].
  apply voicePattern_first in Hf as (m1 & m2 & m3 & -> & Hcut).
  intros [= <- <-]. split; [done|]. by exists m1, m2, m3.
Qed.

(** C6, amended: every record that the parser produces comes from a line
    that, once trimmed, matches the whole pattern; it is made of the
    three groups of the cut that the pattern makes (the one with the
    shortest name), each trimmed, and that cut determines the record.
    Its name is never empty; its locale is empty exactly when the locale
    group consists of white space only (white space that the pattern's
    \s does not know, such as a vertical tab or a no-break space); its
    description is empty exactly when only white space follows the '#'.
    A line that is not well formed produces no record at all, and no
    line produces more than one. *)
Theorem C6_records_come_from_whole_matches (output : gostring) (v : Voice) :
  v ∈ parseVoices output ->
  (exists line m1 m2 m3,
      line ∈ Split output newline
      /\ firstCut (TrimSpace line) m1 m2 m3
      /\ v = voiceOf m1 m2 m3
      /\ (forall m1' m2' m3',
            firstCut (TrimSpace line) m1' m2' m3' -> voiceOf m1' m2' m3' = v)
      /\ (Locale v = [] <-> whitespaceOnly m2)
      /\ (Description v = [] <-> whitespaceOnly m3))
  /\ Name v <> []
  /\ (forall line, ~ wellFormedLine line -> parseLine line = [])
  /\ (forall line, length (parseLine line) <= 1).
Proof.
  intros Hv. rewrite parseVoices_concat in Hv.
  apply elem_of_concat_parse in Hv as (line & Hline & Hv).
  destruct (parseLine line) as [|v' rest] eqn:Hp; [by apply elem_of_nil in Hv|].
  apply parseLine_first in Hp as (-> & m1 & m2 & m3 & Hcut & ->).
  apply list_elem_of_singleton in Hv as ->.
  split.
  { exists line, m1, m2, m3. split; [done|]. split; [done|]. split; [done|].
    split. { intros m1' m2' m3' Hcut'. by apply firstCut_record with (t := TrimSpace line). }
    split; apply TrimSpace_nil. }
  split.
  { destruct Hcut as [(ws1 & ws2 & ws3 & Ht & Hn1 & _) _].
    simpl. apply TrimSpace_nonempty; [done|].
    apply (leadingSpace_prefix m1 (ws1 ++ m2 ++ ws2 ++ [byte_hash] ++ ws3 ++ m3) Hn1).
    rewrite <- Ht. apply TrimSpace_no_leading.
    rewrite Ht. by destruct m1. }
  split; [exact parseLine_malformed|].
  intros l. destruct (parseLine l) as [|v rest] eqn:Hp; [simpl; lia|].
  apply parseLine_first in Hp as (-> & _). simpl. lia.
Qed.

(** ** The list_voices payload *)

Lemma marshalValue_voice (v : Voice) :
  marshalValue [] (B "  ") 2 (jsonOfVoice v) = voiceObject v.
Proof.
  unfold voiceObject, jsonOfVoice. cbn [marshalValue map joinWith].
  unfold indentLine. cbn [repeatString]. rewrite <- !app_assoc. reflexivity.
Qed.

Lemma MarshalIndent_voices (voices : list Voice) :
  MarshalIndent {| Voices := voices |} [] (B "  ") = (voicesDocument voices, None).
Proof.
  unfold MarshalIndent, voicesDocument, jsonOfVoicesResponse. f_equal.
  cbn [Voices marshalValue map joinWith].
  destruct voices as [|v vs]; [reflexivity|].
  cbn [map]. cbn [marshalValue].
  change (marshalValue [] (B "  ") 2 (jsonOfVoice v)
          :: map (marshalValue [] (B "  ") 2) (map jsonOfVoice vs))
    with (map (marshalValue [] (B "  ") 2) (map jsonOfVoice (v :: vs))).
  rewrite map_map.
  rewrite (map_ext _ voiceObject marshalValue_voice).
  unfold indentLine. cbn [repeatString]. rewrite <- !app_assoc. reflexivity.
Qed.

(** ** Reading back the strings of the payload *)

Lemma isASCII_N (b : ascii) : isASCII b = (N_of_ascii b <? 128)%N.
Proof. destruct b as [[] [] [] [] [] [] [] []]; vm_compute; reflexivity. Qed.

Lemma land_low (n : N) (k : N) : N.land n (N.ones k) = (n mod 2 ^ k)%N.
Proof. apply N.land_ones. Qed.

Ltac mod_lia := zify; Z.to_euclidean_division_equations; lia.

Ltac range_facts :=
  repeat match goal with
         | H : inRange _ _ _ = true |- _ =>
             unfold inRange in H; apply andb_true_iff in H as [?%N.leb_le ?%N.leb_le]
         | H : inRange _ _ _ = false |- _ =>
             unfold inRange in H; apply andb_false_iff in H as [?%N.leb_gt | ?%N.leb_gt]
         | H : negb _ = true |- _ => apply negb_true_iff in H
         | H : negb _ = false |- _ => apply negb_false_iff in H
         | H : (_ =? _)%N = true |- _ => apply N.eqb_eq in H
         | H : (_ =? _)%N = false |- _ => apply N.eqb_neq in H
         | H : (_ <? _)%N = true |- _ => apply N.ltb_lt in H
         | H : (_ <? _)%N = false |- _ => apply N.ltb_ge in H
         end.

(** A well-formed sequence of more than one byte: its width, the range
    of its bytes and of its code point. *)
Lemma DecodeRune_wide (b : ascii) (t : gostring) (c : N) (size : nat) :
  isASCII b = false ->
  DecodeRuneInString (b :: t) = (c, size) ->
  (c =? RuneError)%N && (size =? 1) = false ->
  (exists b1 t', t = b1 :: t' /\ size = 2
     /\ (194 <= N_of_ascii b <= 223)%N /\ (128 <= N_of_ascii b1 <= 191)%N
     /\ c = (N.land (N_of_ascii b) 31 * 64 + N.land (N_of_ascii b1) 63)%N)
  \/ (exists b1 b2 t', t = b1 :: b2 :: t' /\ size = 3
        /\ (224 <= N_of_ascii b <= 239)%N /\ (128 <= N_of_ascii b1 <= 191)%N
        /\ (128 <= N_of_ascii b2 <= 191)%N
        /\ c = (N.land (N_of_ascii b) 15 * 4096 + N.land (N_of_ascii b1) 63 * 64
                + N.land (N_of_ascii b2) 63)%N)
  \/ (exists b1 b2 b3 t', t = b1 :: b2 :: b3 :: t' /\ size = 4
        /\ (240 <= N_of_ascii b <= 244)%N /\ (128 <= N_of_ascii b1 <= 191)%N
        /\ (128 <= N_of_ascii b2 <= 191)%N /\ (128 <= N_of_ascii b3 <= 191)%N
        /\ (65536 <= c)%N).
Proof.
  intros Hb. rewrite isASCII_N in Hb.
  unfold DecodeRuneInString. cbn [map]. rewrite Hb.
  set (n0 := N_of_ascii b) in *.
  intros Hdec Hvalid.
  assert (Hbad : forall x, (RuneError, 1) = (c, size) -> x) .
  { intros x [= <- <-]. discriminate Hvalid. }
  destruct t as [|b1 t1].
  { repeat case_match; try (by apply Hbad); simplify_eq; simpl in *; try lia;
      by apply Hbad. }
  cbn [map] in Hdec. set (n1 := N_of_ascii b1) in *.
  destruct t1 as [|b2 t2].
  { repeat case_match; try (by apply Hbad); simplify_eq; range_facts.
    all: try (simpl in *; lia).
    all: left; exists b1, []; repeat split; try done; try lia. }
  cbn [map] in Hdec. set (n2 := N_of_ascii b2) in *.
  destruct t2 as [|b3 t3].
  { repeat case_match; try (by apply Hbad); simplify_eq; range_facts.
    all: try (simpl in *; lia).
    all: first [ left; exists b1, [b2]; repeat split; try done; lia
               | right; left; exists b1, b2, []; repeat split; try done; lia ]. }
  cbn [map] in Hdec. set (n3 := N_of_ascii b3) in *.
  repeat case_match; try (by apply Hbad); simplify_eq; range_facts.
  all: try (simpl in *; lia).
  all: first [ left; exists b1, (b2 :: b3 :: t3); repeat split; try done; lia
             | right; left; exists b1, b2, (b3 :: t3); repeat split; try done; lia
             | right; right; exists b1, b2, b3, t3; repeat split; try done; try lia ].
  all: clearbody n0 n1 n2 n3; change 7%N with (N.ones 3); change 63%N with (N.ones 6);
    rewrite !land_low; change (2 ^ 3)%N with 8%N; change (2 ^ 6)%N with 64%N; mod_lia.
Qed.

Lemma DecodeRune_ascii (b : ascii) (t : gostring) :
  isASCII b = true -> DecodeRuneInString (b :: t) = (N_of_ascii b, 1).
Proof.
  intros Hb. rewrite isASCII_N in Hb. unfold DecodeRuneInString. cbn [map]. by rewrite Hb.
Qed.

(** The bytes of a well-formed sequence are all above 0x7F. *)
Lemma DecodeRune_wide_bytes (b : ascii) (t : gostring) (c : N) (size : nat) :
  isASCII b = false ->
  DecodeRuneInString (b :: t) = (c, size) ->
  (c =? RuneError)%N && (size =? 1) = false ->
  1 <= size /\ Forall (fun x => (128 <= N_of_ascii x)%N) (take size (b :: t)).
Proof.
  intros Hb Hdec Hvalid. pose proof Hb as Hb'. rewrite isASCII_N in Hb'. range_facts.
  destruct (DecodeRune_wide b t c size Hb Hdec Hvalid)
    as [(b1 & t' & -> & -> & ? & ? & _)
       | [(b1 & b2 & t' & -> & -> & ? & ? & ? & _)
         | (b1 & b2 & b3 & t' & -> & -> & ? & ? & ? & ? & _)]];
    (split; [lia|]); cbn [take]; repeat constructor; lia.
Qed.

(** The two line separators of JavaScript are written E2 80 A8 and
    E2 80 A9. *)
Lemma DecodeRune_separator (b : ascii) (t : gostring) (c : N) (size : nat) :
  isASCII b = false ->
  DecodeRuneInString (b :: t) = (c, size) ->
  c = 8232%N \/ c = 8233%N ->
  take size (b :: t) = encodeRune c.
Proof.
  intros Hb Hdec Hc.
  assert (Hvalid : (c =? RuneError)%N && (size =? 1) = false)
    by (destruct Hc as [-> | ->]; reflexivity).
  destruct (DecodeRune_wide b t c size Hb Hdec Hvalid)
    as [(b1 & t' & -> & -> & H0 & H1 & Hcode)
       | [(b1 & b2 & t' & -> & -> & H0 & H1 & H2 & Hcode)
         | (b1 & b2 & b3 & t' & -> & -> & _ & _ & _ & _ & Hcode)]].
  - exfalso. revert Hcode. change 31%N with (N.ones 5). change 63%N with (N.ones 6).
    rewrite !land_low. change (2 ^ 5)%N with 32%N. change (2 ^ 6)%N with 64%N.
    intros Hcode. destruct Hc; mod_lia.
  - revert Hcode. change 15%N with (N.ones 4). change 63%N with (N.ones 6).
    rewrite !land_low. change (2 ^ 4)%N with 16%N. change (2 ^ 6)%N with 64%N.
    intros Hcode. cbn [take].
    rewrite <- (ascii_N_embedding b), <- (ascii_N_embedding b1), <- (ascii_N_embedding b2).
    destruct Hc as [Hc | Hc].
    + assert (N_of_ascii b = 226 /\ N_of_ascii b1 = 128 /\ N_of_ascii b2 = 168)%N
        as (-> & -> & ->) by mod_lia.
      by rewrite Hc.
    + assert (N_of_ascii b = 226 /\ N_of_ascii b1 = 128 /\ N_of_ascii b2 = 169)%N
        as (-> & -> & ->) by mod_lia.
      by rewrite Hc.
  - exfalso. destruct Hc; lia.
Qed.

Lemma DecodeRune_wide_size (b : ascii) (t : gostring) (c : N) (size : nat) :
  isASCII b = false ->
  DecodeRuneInString (b :: t) = (c, size) ->
  (c =? RuneError)%N && (size =? 1) = false ->
  size <= 4.
Proof.
  intros Hb Hdec Hvalid.
  destruct (DecodeRune_wide b t c size Hb Hdec Hvalid)
    as [(? & ? & _ & -> & _) | [(? & ? & ? & _ & -> & _) | (? & ? & ? & ? & _ & -> & _)]];
    lia.
Qed.

(** An ASCII byte is read back from what [appendString] writes for it. *)
Lemma readItems_ascii (b : ascii) :
  isASCII b = true ->
  exists it,
    (forall tail,
        readItems ((if htmlSafe b then [b] else escapeByte b) ++ tail)
        = consItem it (readItems tail))
    /\ forall l, decodeItems (it :: l) = b :: decodeItems l.
Proof.
  destruct b as [b0 b1 b2 b3 b4 b5 b6 b7]. intros Hb.
  destruct b7; [by destruct b0, b1, b2, b3, b4, b5, b6|].
  destruct b0, b1, b2, b3, b4, b5, b6;
    (eexists; split; [intros tail; reflexivity | intros l; reflexivity]).
Qed.

Lemma consItems_Some (w items : list item) (rest : gostring) :
  consItems w (Some (items, rest)) = Some (w ++ items, rest).
Proof. induction w as [|x w IH]; [done|]. cbn [consItems app]. by rewrite IH. Qed.

(** Bytes above 0x7F are read as they are. *)
Lemma readItems_plain (w tail : gostring) :
  Forall (fun x => (128 <= N_of_ascii x)%N) w ->
  readItems (w ++ tail) = consItems (map Lit w) (readItems tail).
Proof.
  induction 1 as [|x w Hx _ IH]; [done|].
  cbn [app map consItems]. rewrite <- IH.
  cbn [readItems].
  assert (Ascii.eqb x byte_dquote = false) as ->.
  { apply Ascii.eqb_neq. intros ->. vm_compute in Hx. by apply Hx. }
  assert (Ascii.eqb x byte_backslash = false) as ->.
  { apply Ascii.eqb_neq. intros ->. vm_compute in Hx. by apply Hx. }
  assert ((N_of_ascii x <? 32)%N = false) as -> by (apply N.ltb_ge; lia).
  done.
Qed.

Lemma decodeItems_plain (w : gostring) (l : list item) :
  decodeItems (map Lit w ++ l) = w ++ decodeItems l.
Proof. induction w as [|x w IH]; [done|]. simpl. by rewrite IH. Qed.

(** What [appendString] writes between the quotes reads back as the
    string, with U+FFFD in the place of each invalid byte. *)
Lemma readItems_appendStringLoop (fuel : nat) (src : gostring) :
  length src <= fuel ->
  exists items,
    (forall rest,
        readItems (appendStringLoop fuel src ++ byte_dquote :: rest) = Some (items, rest))
    /\ decodeItems items = replaceInvalidLoop fuel src.
Proof.
  revert src. induction fuel as [|fuel IH]; intros src Hlen.
  { destruct src; [|simpl in Hlen; lia]. exists []. split; [|done].
    intros rest. cbn [appendStringLoop app readItems]. by rewrite Ascii.eqb_refl. }
  destruct src as [|b src'].
  { exists []. split; [|done]. intros rest. cbn [appendStringLoop app readItems].
    by rewrite Ascii.eqb_refl. }
  cbn [length] in Hlen.
  cbn [appendStringLoop replaceInvalidLoop]. cbn [take].
  destruct (isASCII b) eqn:Hb.
  - rewrite (DecodeRune_ascii b _ Hb).
    assert ((N_of_ascii b =? RuneError)%N = false) as ->.
    { apply N.eqb_neq. rewrite isASCII_N in Hb. apply N.ltb_lt in Hb.
      unfold RuneError. lia. }
    cbn [andb take drop].
    destruct (readItems_ascii b Hb) as (it & Hread & Hdec).
    destruct (IH src' ltac:(lia)) as (items & Hr & Hd).
    exists (it :: items). split.
    + intros rest. by rewrite <- app_assoc, Hread, Hr.
    + by rewrite Hdec, Hd.
  - destruct (DecodeRuneInString (b :: take 3 src')) as [c size] eqn:Hdecode.
    destruct ((c =? RuneError)%N && (size =? 1)) eqn:Hvalid.
    + destruct (IH src' ltac:(lia)) as (items & Hr & Hd).
      exists (map Lit replacementBytes ++ items). split.
      * intros rest. rewrite <- app_assoc.
        rewrite readItems_plain by (repeat constructor; vm_compute; discriminate).
        by rewrite Hr, consItems_Some.
      * by rewrite decodeItems_plain, Hd.
    + destruct (DecodeRune_wide_bytes b _ c size Hb Hdecode Hvalid) as [Hsize Hbytes].
      pose proof (DecodeRune_wide_size b _ c size Hb Hdecode Hvalid) as Hsize4.
      assert (Htake : take size (b :: take 3 src') = take size (b :: src')).
      { change (b :: take 3 src') with (take 4 (b :: src')).
        rewrite take_take. f_equal. lia. }
      rewrite Htake in Hbytes.
      destruct (IH (drop size (b :: src'))) as (items & Hr & Hd).
      { rewrite length_drop. cbn [length]. lia. }
      destruct ((c =? 8232)%N || (c =? 8233)%N) eqn:Hsep.
      * assert (Hc : c = 8232%N \/ c = 8233%N).
        { apply orb_true_iff in Hsep as [?%N.eqb_eq | ?%N.eqb_eq]; auto. }
        rewrite <- Htake, (DecodeRune_separator b _ c size Hb Hdecode Hc).
        exists (Unit16 c :: items). split.
        -- intros rest. rewrite <- app_assoc.
           destruct Hc as [-> | ->]; cbn [N.land hexDigit]; cbn [app readItems];
             cbn; by rewrite Hr.
        -- destruct Hc as [-> | ->]; cbn [decodeItems]; by rewrite <- Hd.
      * exists (map Lit (take size (b :: src')) ++ items). split.
        -- intros rest. by rewrite <- app_assoc, readItems_plain, Hr, consItems_Some.
        -- by rewrite decodeItems_plain, Hd.
Qed.

(** The items of a string literal of the payload. *)
Lemma literal_items (s : gostring) :
  exists items,
    (forall rest,
        readItems (appendStringLoop (length s) s ++ byte_dquote :: rest)
        = Some (items, rest))
    /\ decodeItems items = replaceInvalid s.
Proof. by apply readItems_appendStringLoop. Qed.

(** A string literal of the payload denotes its string. *)
Lemma readString_appendString (s : gostring) :
  readString (appendString s) = Some (replaceInvalid s).
Proof.
  unfold readString, appendString. cbn [app].
  rewrite Ascii.eqb_refl.
  destruct (literal_items s) as (items & Hr & Hd).
  change (appendStringLoop (length s) s ++ [byte_dquote])
    with (appendStringLoop (length s) s ++ byte_dquote :: []).
  by rewrite Hr, Hd.
Qed.

(** Text of bytes below 0x80 is read back as it is. *)
Lemma replaceInvalid_ascii (s : gostring) :
  Forall (fun b => isASCII b = true) s -> replaceInvalid s = s.
Proof.
  unfold replaceInvalid. induction 1 as [|b s Hb _ IH]; [done|].
  cbn [length replaceInvalidLoop take]. rewrite (DecodeRune_ascii b _ Hb).
  assert ((N_of_ascii b =? RuneError)%N = false) as ->.
  { apply N.eqb_neq. rewrite isASCII_N in Hb. apply N.ltb_lt in Hb.
    unfold RuneError. lia. }
  cbn [andb]. exact (f_equal (cons b) IH).
Qed.


(** ** Reading back the payload *)

Lemma readValue_ws (F : nat) (w : ascii) (s : gostring) :
  isWS w = true -> readValue F (w :: s) = readValue F s.
Proof. intros Hw. destruct F as [|F]; [done|]. cbn [readValue skipWS]. by rewrite Hw. Qed.

(** A record of the payload reads as the object of its three fields. *)
Lemma read_voiceObject (F : nat) (v : Voice) (rest : gostring) :
  5 <= F -> readValue F (voiceObject v ++ rest) = Some (recordValue v, rest).
Proof.
  intros HF. do 5 (destruct F as [|F]; [lia|]). clear HF.
  destruct (literal_items (Name v)) as (i1 & Hr1 & Hd1).
  destruct (literal_items (Locale v)) as (i2 & Hr2 & Hd2).
  destruct (literal_items (Description v)) as (i3 & Hr3 & Hd3).
  unfold voiceObject, recordValue, newline. rewrite <- !app_assoc.
  unfold appendString. rewrite <- !app_assoc.
  simpl. rewrite Hr1. simpl. rewrite Hr2. simpl. rewrite Hr3. simpl.
  by rewrite Hd1, Hd2, Hd3.
Qed.

Lemma readValue_ws_app (F : nat) (ws s : gostring) :
  Forall (fun w => isWS w = true) ws -> readValue F (ws ++ s) = readValue F s.
Proof. induction 1 as [|w ws Hw _ IH]; [done|]. cbn [app]. by rewrite readValue_ws. Qed.

Lemma readElements_more (F : nat) (s : gostring) (x : json) (r : gostring) :
  readValue F s = Some (x, ","%char :: r) ->
  readElements (S F) s
  = match readElements F r with
    | Some (vs, rest) => Some (x :: vs, rest)
    | None => None
    end.
Proof. intros H. cbn [readElements]. by rewrite H. Qed.

Lemma readElements_last (F : nat) (s : gostring) (x : json) (r r' : gostring) :
  readValue F s = Some (x, r) -> skipWS r = "]"%char :: r' ->
  readElements (S F) s = Some ([x], r').
Proof. intros H Hr. cbn [readElements]. by rewrite H, Hr. Qed.

(** The records of the array, each after a line break and four spaces,
    up to the closing bracket. *)
Lemma read_records (vs : list Voice) (v : Voice) (F : nat) (tail : gostring) :
  length vs + 6 <= F ->
  readElements F
    (newline ++ B "    " ++ joinWith recordSeparator (map voiceObject (v :: vs))
     ++ newline ++ B "  ]" ++ tail)
  = Some (map recordValue (v :: vs), tail).
Proof.
  assert (Hws : Forall (fun w => isWS w = true) (newline ++ B "    "))
    by (repeat constructor).
  revert v F. induction vs as [|v' vs IH]; intros v F HF.
  - cbn [length] in HF. destruct F as [|F]; [lia|].
    cbn [map joinWith].
    apply (readElements_last F _ (recordValue v) (newline ++ B "  ]" ++ tail)); [|done].
    rewrite (app_assoc newline), readValue_ws_app by done.
    by rewrite read_voiceObject by lia.
  - cbn [length] in HF. destruct F as [|F]; [lia|].
    cbn [map]. rewrite joinWith_cons.
    rewrite (readElements_more F _ (recordValue v)
               (newline ++ B "    "
                ++ joinWith recordSeparator (map voiceObject (v' :: vs))
                ++ newline ++ B "  ]" ++ tail)).
    + by rewrite IH by lia.
    + rewrite (app_assoc newline), readValue_ws_app by done.
      rewrite <- !app_assoc. rewrite read_voiceObject by lia.
      unfold recordSeparator. by rewrite <- !app_assoc.
Qed.

Lemma readValue_array (F : nat) (r r' : gostring) (c : ascii) :
  skipWS r = c :: r' -> Ascii.eqb c "]"%char = false ->
  readValue (S F) ("["%char :: r)
  = match readElements F r with
    | Some (items, rest) => Some (JArray items, rest)
    | None => None
    end.
Proof. intros Hr Hc. simpl. by rewrite Hr, Hc. Qed.

Lemma joinWith_voiceObject_head (sep : gostring) (v : Voice) (vs : list Voice) :
  exists t, joinWith sep (map voiceObject (v :: vs)) = "{"%char :: t.
Proof. destruct vs; eexists; reflexivity. Qed.

(** The array of the payload. *)
Lemma read_array (vs : list Voice) (F : nat) (tail : gostring) :
  length vs + 6 <= F ->
  readValue F
    (B " " ++ match vs with
              | [] => B "[]"
              | _ :: _ =>
                  B "[" ++ newline ++ B "    "
                  ++ joinWith recordSeparator (map voiceObject vs)
                  ++ newline ++ B "  ]"
              end ++ tail)
  = Some (JArray (map recordValue vs), tail).
Proof.
  intros HF. destruct F as [|F]; [lia|]. destruct vs as [|v vs]; [done|].
  cbn [length] in HF.
  rewrite (readValue_ws_app _ (B " ")) by (repeat constructor).
  rewrite <- !app_assoc.
  change (B "[" ++ ?x) with ("["%char :: x).
  destruct (joinWith_voiceObject_head recordSeparator v vs) as [t Ht].
  rewrite (readValue_array F _ (t ++ newline ++ B "  ]" ++ tail) "{"%char);
    [|by rewrite Ht|done].
  by rewrite read_records by lia.
Qed.

(** The whole payload reads as the document of its records, and nothing
    is left over. *)
Lemma read_document (vs : list Voice) (F : nat) :
  length vs + 8 <= F ->
  readValue F (voicesDocument vs) = Some (documentValue vs, []).
Proof.
  intros HF. do 2 (destruct F as [|F]; [lia|]).
  pose proof (read_array vs F (newline ++ B "}") ltac:(lia)) as Harr.
  unfold voicesDocument.
  change (B "," ++ newline ++ B "    ") with recordSeparator.
  set (arr := match vs with [] => B "[]" | _ :: _ => _ end) in *.
  clearbody arr.
  change (B " " ++ arr ++ newline ++ B "}") with (" "%char :: arr ++ newline ++ B "}") in Harr.
  simpl.
  change (arr ++ [byte_lf; "}"%char]) with (arr ++ newline ++ B "}").
  by rewrite Harr.
Qed.

Lemma voicesDocument_length (vs : list Voice) : length vs + 8 <= length (voicesDocument vs).
Proof.
  unfold voicesDocument. destruct vs as [|v vs]; [vm_compute; lia|].
  pose proof (joinWith_length_ge (B "," ++ newline ++ B "    ")
                (map voiceObject (v :: vs)) ltac:(simpl; lia)) as Hlen.
  rewrite length_map in Hlen.
  set (j := joinWith _ _) in *. clearbody j.
  rewrite !length_app. simpl in *. lia.
Qed.

(** The payload is a JSON text, and it denotes the document of the
    records. *)
Lemma readJSON_voicesDocument (vs : list Voice) :
  readJSON (voicesDocument vs) = Some (documentValue vs).
Proof.
  unfold readJSON. by rewrite read_document by apply voicesDocument_length.
Qed.

(** ** The layout of the payload *)

Lemma recordText_voiceObject (v : Voice) :
  recordText (literalsOf v) = B "    " ++ voiceObject v.
Proof.
  unfold recordText, recordLines, voiceObject, quoted, literalsOf.
  cbn [joinWith nameLit localeLit descriptionLit].
  generalize (appendString (Name v)) (appendString (Locale v))
    (appendString (Description v)).
  intros a b c. rewrite <- !app_assoc. reflexivity.
Qed.

Lemma records_layout (v : Voice) (vs : list Voice) :
  B "    " ++ joinWith recordSeparator (map voiceObject (v :: vs))
  = joinWith (B "," ++ newline) (map recordText (map literalsOf (v :: vs))).
Proof.
  revert v. induction vs as [|v' vs IH]; intros v.
  - cbn [map joinWith]. by rewrite recordText_voiceObject.
  - cbn [map]. rewrite !joinWith_cons. cbn [map] in IH. rewrite <- IH.
    rewrite recordText_voiceObject. unfold recordSeparator.
    by rewrite <- !app_assoc.
Qed.

(** The payload is laid out as [documentText] says, whatever stands in
    its string literals. *)
Lemma voicesDocument_layout (vs : list Voice) :
  voicesDocument vs = documentText (map literalsOf vs).
Proof.
  destruct vs as [|v vs]; [reflexivity|].
  unfold voicesDocument, documentText.
  change (B "," ++ newline ++ B "    ") with recordSeparator.
  rewrite <- records_layout.
  generalize (joinWith recordSeparator (map voiceObject (v :: vs))).
  intros j. cbn [map joinWith]. unfold quoted. rewrite <- !app_assoc. reflexivity.
Qed.

Lemma literalsOf_denoted (vs : list Voice) : Forall2 denoted (map literalsOf vs) vs.
Proof.
  induction vs as [|v vs IH]; constructor; [|done].
  repeat split; apply readString_appendString.
Qed.

(** ** The order of the records *)

(** The lines fall into the well-formed ones and the others, and the
    records are those of the well-formed ones, one each, in order. *)
Lemma records_in_order (lines : list gostring) :
  exists good bad,
    interleaved good bad lines
    /\ Forall wellFormedLine good
    /\ Forall (fun l => ~ wellFormedLine l) bad
    /\ Forall2 recordOfLine good (concat (map parseLine lines)).
Proof.
  induction lines as [|l lines (good & bad & Hi & Hg & Hb & Hall)].
  { exists [], []. repeat split; constructor. }
  cbn [map concat]. destruct (parseLine l) as [|v rest] eqn:Hp.
  - exists good, (l :: bad).
    repeat split; [by apply interleaved_right|done| |done].
    constructor; [|done]. intros (m1 & m2 & m3 & Hshape).
    destruct (parseLine_complete _ _ _ _ Hshape) as [v Hv]. congruence.
  - pose proof Hp as Hs. apply parseLine_sound in Hs as (_ & _ & m1 & m2 & m3 & Hshape & _).
    apply parseLine_first in Hp as (-> & Hrec).
    exists (l :: good), bad. cbn [app].
    repeat split; [by apply interleaved_left| |done|by constructor].
    constructor; [|done]. by exists m1, m2, m3.
Qed.

(** ** The payload of both revisions *)

(** C9: when the listing command succeeds, both revisions of
    [handleVoices] return as text one payload, and the command run is
    the say command with the arguments -v and ?. The payload is a JSON
    text: a reader of JSON takes all of it and gets an object with the
    single field voices, an array of objects with exactly the fields
    name, locale and description, in this order, whose strings are the
    fields of the records (with U+FFFD in the place of a byte that is not
    part of well-formed UTF-8). It is laid out with two spaces per level,
    as [documentText] says, around string literals that denote the
    fields. The records are those of the well-formed lines of the
    output, one for each, in the order of the lines; the other lines
    give nothing. *)
Theorem C9_list_voices_payload (ctx : Context) (request : CallToolRequest)
        (output : gostring) :
  exists (payload : gostring) (lits : list Literals) (good bad : list gostring),
    (exists k, Main.handleVoices ctx request
               = CombinedOutput (CommandContext ctx sayCommand [B "-v"; B "?"]) k
               /\ k (output, None) = Ret (NewToolResultText payload, None))
    /\ (exists k, Refactored.handleVoices ctx request
                  = CombinedOutput (CommandContext ctx sayCommand [B "-v"; B "?"]) k
                  /\ k (output, None) = Ret (NewToolResultText payload, None))
    /\ readJSON payload = Some (documentValue (parseVoices output))
    /\ payload = documentText lits
    /\ Forall2 denoted lits (parseVoices output)
    /\ interleaved good bad (linesOf output)
    /\ Forall wellFormedLine good
    /\ Forall (fun l => ~ wellFormedLine l) bad
    /\ Forall2 recordOfLine good (parseVoices output).
Proof.
  destruct (records_in_order (linesOf output)) as (good & bad & Hi & Hg & Hb & Hall).
  rewrite <- Split_linesOf, <- parseVoices_concat in Hall.
  exists (voicesDocument (parseVoices output)), (map literalsOf (parseVoices output)),
    good, bad.
  split; [|split].
  - eexists. split; [reflexivity|]. cbv beta iota zeta.
    by rewrite MarshalIndent_voices.
  - eexists. split; [reflexivity|]. cbv beta iota zeta.
    by rewrite MarshalIndent_voices.
  - split; [apply readJSON_voicesDocument|].
    split; [apply voicesDocument_layout|].
    split; [apply literalsOf_denoted|done].
Qed.

Example voicesDocument_albert :
  voicesDocument (parseVoices (B "Albert    en_US    # Hello! My name is Albert."))
  = joinWith newline
      [ B "{";
        B "  " ++ [byte_dquote] ++ B "voices" ++ [byte_dquote] ++ B ": [";
        B "    {";
        B "      " ++ [byte_dquote] ++ B "name" ++ [byte_dquote] ++ B ": "
          ++ [byte_dquote] ++ B "Albert" ++ [byte_dquote] ++ B ",";
        B "      " ++ [byte_dquote] ++ B "locale" ++ [byte_dquote] ++ B ": "
          ++ [byte_dquote] ++ B "en_US" ++ [byte_dquote] ++ B ",";
        B "      " ++ [byte_dquote] ++ B "description" ++ [byte_dquote] ++ B ": "
          ++ [byte_dquote] ++ B "Hello! My name is Albert." ++ [byte_dquote];
        B "    }";
        B "  ]";
        B "}" ].
Proof. vm_compute. reflexivity. Qed.

(** ** Instances *)

Lemma wellFormedLine_parsed (line : gostring) : parseLine line <> [] -> wellFormedLine line.
Proof.
  destruct (parseLine line) as [|v rest] eqn:Hp; [done|]. intros _.
  apply parseLine_sound in Hp as (_ & _ & m1 & m2 & m3 & Hshape & _).
  by exists m1, m2, m3.
Qed.

Lemma malformed_unparsed (line : gostring) : parseLine line = [] -> ~ wellFormedLine line.
Proof. intros Hp [v Hv]%parseLine_wellFormed. congruence. Qed.

(** C1 at the request {text: "  Hello ", voice: "Alex", rate: 120}. *)
Lemma C1_speak_args_exact_witness :
  speakArgs (B "  Hello ") (Some (B "Alex")) (Some (Float64OfZ 120))
  = [B "-v"; B "Alex"; B "-r"; B "120"; B "Hello"]
  /\ (exists k, Main.handleSpeak ctxActive requestFull
                = CombinedOutput
                    (CommandContext ctxActive sayCommand
                       (speakArgs (B "  Hello ") (Some (B "Alex")) (Some (Float64OfZ 120)))) k)
  /\ (exists k, Refactored.handleSpeak ctxActive requestFull
                = CombinedOutput
                    (CommandContext ctxActive sayCommand
                       (speakArgs (B "  Hello ") (Some (B "Alex")) (Some (Float64OfZ 120)))) k).
Proof.
  split; [vm_compute; reflexivity|].
  apply C1_speak_args_exact.
  - vm_compute. reflexivity.
  - vm_compute. discriminate.
  - split; [vm_compute; reflexivity | vm_compute; discriminate].
  - split; [vm_compute; reflexivity | intros _; split; vm_compute; reflexivity].
Defined.

(** C2 at the request {text: "   "}. *)
Lemma C2_validation_runs_no_process_witness :
  failsValidation requestBlank
  /\ rejectsLocally (Main.handleSpeak ctxActive requestBlank)
  /\ rejectsLocally (Refactored.handleSpeak ctxActive requestBlank).
Proof.
  assert (Hfail : failsValidation requestBlank).
  { apply (textEmpty _ (B "   ")); vm_compute; reflexivity. }
  split; [exact Hfail|].
  destruct (C2_validation_runs_no_process ctxActive requestBlank Hfail) as (H1 & H2 & _).
  split; [exact H1 | exact H2].
Defined.

Example speak_rate_900 :
  Main.handleSpeak ctxActive requestTooFast
  = Ret (NewToolResultError
           (B "Rate 900 is outside acceptable range (90-500 words per minute)"), None).
Proof. vm_compute. reflexivity. Qed.

(** C4 at a cancelled context, with a command that fails for lack of
    permission. *)
Lemma C4_cancellation_takes_precedence_witness :
  cancelled ctxCanceled
  /\ (forall p,
        afterCommand (Main.handleSpeak ctxCanceled requestHi) ([], Some errDenied) = Some p ->
        p = Ret (NewToolResultError
                   (cancellationMessage (B "Speech synthesis") ctxCanceled), None)).
Proof.
  assert (Hc : cancelled ctxCanceled) by (left; reflexivity).
  split; [exact Hc|].
  destruct (C4_cancellation_takes_precedence ctxCanceled requestHi errDenied [] Hc)
    as (_ & H & _).
  exact H.
Defined.

(** C5 at a live context, with a listing command that fails for lack of
    permission. *)
Lemma C5_permission_guidance_appended_witness :
  Contains (Error errDenied) (B "permission denied") = true
  /\ afterCommand (Refactored.handleVoices ctxActive requestHi) ([], Some errDenied)
     = Some (Ret (NewToolResultError
                    (baseErrorMessage (B "retrieve voice list") errDenied []
                     ++ permissionGuidance), None)).
Proof.
  assert (Hp : Contains (Error errDenied) (B "permission denied") = true)
    by (vm_compute; reflexivity).
  split; [exact Hp|].
  destruct (C5_permission_guidance_appended ctxActive requestHi errDenied [] Hp)
    as [Hactive _].
  destruct (Hactive eq_refl) as (_ & _ & H & _). exact H.
Defined.

(** C6 at the catalog line of Albert. *)
Lemma C6_records_come_from_whole_matches_witness :
  albert ∈ parseVoices albertLine /\ Name albert <> [].
Proof.
  assert (Hin : albert ∈ parseVoices albertLine).
  { apply list_elem_of_singleton. vm_compute. reflexivity. }
  split; [exact Hin|].
  destruct (C6_records_come_from_whole_matches albertLine albert Hin) as (_ & H & _).
  exact H.
Defined.

(** C7 at the request {text: "Hello", rate: 120.4}. *)
Lemma C7_rate_token_rounds_witness :
  GetArguments request120_4 !! B "rate" = Some (AFloat64 f64_120_4)
  /\ SFltb f64_0 f64_120_4 = true
  /\ SFleb f64_90 f64_120_4 = true
  /\ SFleb f64_120_4 f64_500 = true
  /\ forall args,
       addRate (GetArguments request120_4) args = inr (args ++ [B "-r"; B "120"]).
Proof.
  assert (H1 : GetArguments request120_4 !! B "rate" = Some (AFloat64 f64_120_4))
    by (vm_compute; reflexivity).
  assert (H2 : SFltb f64_0 f64_120_4 = true) by (vm_compute; reflexivity).
  assert (H3 : SFleb f64_90 f64_120_4 = true) by (vm_compute; reflexivity).
  assert (H4 : SFleb f64_120_4 f64_500 = true) by (vm_compute; reflexivity).
  repeat (split; [assumption|]).
  destruct (C7_rate_token_rounds ctxActive request120_4 f64_120_4 H1 H2 H3 H4)
    as (m & e & n & _ & _ & _ & H120 & Hadd & _).
  intros args. rewrite <- (H120 eq_refl). apply Hadd.
Defined.

(** C8 at the arguments {text: "Hi", voice: true}. *)
Lemma C8_wrong_type_ignored_witness :
  argsBoolVoice !! B "voice" = Some (ABool true)
  /\ wrongType (B "voice") (ABool true)
  /\ Main.handleSpeak ctxActive (requestOf argsBoolVoice)
     = Main.handleSpeak ctxActive (requestOf (delete (B "voice") argsBoolVoice)).
Proof.
  assert (Hm : argsBoolVoice !! B "voice" = Some (ABool true)) by (vm_compute; reflexivity).
  assert (Hw : wrongType (B "voice") (ABool true)).
  { left. split; [reflexivity | intros s; discriminate]. }
  split; [exact Hm|]. split; [exact Hw|].
  destruct (C8_wrong_type_ignored ctxActive argsBoolVoice (B "voice") (ABool true) Hm Hw)
    as (_ & _ & H & _).
  exact H.
Defined.

(** C10 at a live context, with a command that fails for lack of
    permission. *)
Lemma C10_revisions_agree_witness :
  runExec sysDenied (Main.handleSpeak ctxActive requestHi)
  = runExec sysDenied (Refactored.handleSpeak ctxActive requestHi).
Proof.
  assert (H : forall cmd err,
             cmd ∈ snd (runExec sysDenied (Main.handleSpeak ctxActive requestHi))
             \/ cmd ∈ snd (runExec sysDenied (Main.handleVoices ctxActive requestHi)) ->
             snd (sysDenied cmd) = Some err -> ctxActive = ctxActive)
    by (intros; reflexivity).
  destruct (C10_revisions_agree ctxActive requestHi sysDenied H) as [Hs _].
  exact Hs.
Defined.

(** C3 at a catalog of a header, Albert, an empty line, Alice and Zoe. *)
Lemma C3_parser_round_trip_and_order_witness :
  exists v1 v2 v3,
    parseVoices (joinWith newline catalogLines) = [v1; v2; v3]
    /\ Forall2 (fun l v => parseLine l = [v]) catalogGood [v1; v2; v3].
Proof.
  destruct C3_parser_round_trip_and_order as (_ & _ & _ & H).
  apply (H catalogGood catalogBad catalogLines).
  - apply interleaved_right, interleaved_left, interleaved_right,
      interleaved_left, interleaved_left, interleaved_nil.
  - reflexivity.
  - reflexivity.
  - repeat constructor; apply wellFormedLine_parsed; vm_compute; discriminate.
  - repeat constructor; apply malformed_unparsed; vm_compute; reflexivity.
  - repeat constructor;
      (intros Hin; repeat (apply elem_of_cons in Hin as [Hin|Hin]; [discriminate|]);
       by apply elem_of_nil in Hin).
Defined.

(** * Further properties of the handlers *)

(** ** What a handler returns and runs *)

Lemma snd_runExec_CombinedOutput {A : Type} (sys : System) (cmd : Cmd)
      (k : gostring * option error -> Exec A) :
  snd (runExec sys (CombinedOutput cmd k)) = cmd :: snd (runExec sys (k (sys cmd))).
Proof. cbn [runExec]. by destruct (runExec sys (k (sys cmd))). Qed.

Lemma fst_runExec_CombinedOutput {A : Type} (sys : System) (cmd : Cmd)
      (k : gostring * option error -> Exec A) :
  fst (runExec sys (CombinedOutput cmd k)) = fst (runExec sys (k (sys cmd))).
Proof. cbn [runExec]. by destruct (runExec sys (k (sys cmd))). Qed.

(** The handlers never return a Go error: failures travel in the result.
    [handleSpeak] starts at most one command, [handleVoices] exactly one,
    the say command with the arguments -v and ?, bound to the context. *)
Ltac returns_at_once := cbn [runExec fst snd length]; split; [reflexivity | lia].

Theorem handlers_return_no_error (ctx : Context) (request : CallToolRequest)
        (sys : System) :
  (snd (fst (runExec sys (Main.handleSpeak ctx request))) = None
   /\ length (snd (runExec sys (Main.handleSpeak ctx request))) <= 1)
  /\ (snd (fst (runExec sys (Refactored.handleSpeak ctx request))) = None
      /\ length (snd (runExec sys (Refactored.handleSpeak ctx request))) <= 1)
  /\ (snd (fst (runExec sys (Main.handleVoices ctx request))) = None
      /\ snd (runExec sys (Main.handleVoices ctx request))
         = [CommandContext ctx sayCommand [B "-v"; B "?"]])
  /\ (snd (fst (runExec sys (Refactored.handleVoices ctx request))) = None
      /\ snd (runExec sys (Refactored.handleVoices ctx request))
         = [CommandContext ctx sayCommand [B "-v"; B "?"]]).
Proof.
  split; [|split; [|split]].
  - unfold Main.handleSpeak.
    destruct (RequireString request (B "text")) as [text [e|]]; [returns_at_once|].
    destruct (isEmpty (TrimSpace text)); [returns_at_once|].
    destruct (addRate _ _) as [failure|args]; [returns_at_once|].
    rewrite snd_runExec_CombinedOutput, fst_runExec_CombinedOutput.
    destruct (sys _) as [output [err|]]; [|returns_at_once].
    destruct (_ || _); returns_at_once.
  - unfold Refactored.handleSpeak.
    destruct (RequireString request (B "text")) as [text [e|]]; [returns_at_once|].
    destruct (isEmpty (TrimSpace text)); [returns_at_once|].
    destruct (addRate _ _) as [failure|args]; [returns_at_once|].
    rewrite snd_runExec_CombinedOutput, fst_runExec_CombinedOutput.
    destruct (sys _) as [output [err|]]; returns_at_once.
  - unfold Main.handleVoices.
    rewrite snd_runExec_CombinedOutput, fst_runExec_CombinedOutput.
    destruct (sys _) as [output [err|]].
    + by destruct (_ || _).
    + by rewrite MarshalIndent_voices.
  - unfold Refactored.handleVoices.
    rewrite snd_runExec_CombinedOutput, fst_runExec_CombinedOutput.
    destruct (sys _) as [output [err|]]; [done|].
    by rewrite MarshalIndent_voices.
Qed.

(** When the say command returns without error, [handleSpeak] reports
    success and echoes the trimmed text, whatever the command printed and
    whatever the state of the context: cancellation is looked at only
    after a failure. *)
Theorem speak_success_echoes_trimmed_text (ctx : Context) (request : CallToolRequest)
        (output : gostring) (p : Exec (CallToolResult * option error)) :
  afterCommand (Main.handleSpeak ctx request) (output, None) = Some p
  \/ afterCommand (Refactored.handleSpeak ctx request) (output, None) = Some p ->
  exists text,
    GetArguments request !! B "text" = Some (AString text)
    /\ p = Ret (NewToolResultText (B "Successfully spoke: " ++ TrimSpace text), None).
Proof.
  unfold Main.handleSpeak, Refactored.handleSpeak, RequireString.
  destruct (GetArguments request !! B "text") as [[| | |text| |]|];
    try (intros [H|H]; discriminate).
  destruct (isEmpty (TrimSpace text)); [intros [H|H]; discriminate|].
  destruct (addRate _ _) as [failure|args]; [intros [H|H]; discriminate|].
  cbn [afterCommand]. intros [[= <-] | [= <-]]; by exists text.
Qed.

(** ** Trimming *)

Lemma trimRightLoop_done (fuel : nat) (s : gostring) :
  length s <= fuel -> trailingSpace (trimRightLoop fuel s) = None.
Proof.
  revert s. induction fuel as [|fuel IH]; intros s Hlen; simpl.
  - destruct s; [reflexivity | simpl in Hlen; lia].
  - destruct (trailingSpace s) as [r|] eqn:Hl; [|done].
    apply IH. apply trailingSpace_Some in Hl as (enc & Henc & ->).
    apply space_enc_length in Henc. rewrite length_app in Hlen. lia.
Qed.

Lemma TrimSpace_no_trailing (s : gostring) : trailingSpace (TrimSpace s) = None.
Proof. unfold TrimSpace, TrimRightSpace. by apply trimRightLoop_done. Qed.

Lemma TrimSpace_no_leading' (s : gostring) : leadingSpace (TrimSpace s) = None.
Proof.
  destruct (TrimSpace s) as [|a t] eqn:E; [reflexivity|].
  rewrite <- E. apply TrimSpace_no_leading. by rewrite E.
Qed.

Lemma TrimSpace_fixed (u : gostring) :
  leadingSpace u = None -> trailingSpace u = None -> TrimSpace u = u.
Proof.
  intros Hl Ht. unfold TrimSpace, TrimLeftSpace.
  replace (trimLeftLoop (length u) u) with u
    by (destruct u; [done | simpl; by rewrite Hl]).
  unfold TrimRightSpace. destruct u; [done | simpl; by rewrite Ht].
Qed.

Lemma TrimSpace_idempotent (s : gostring) : TrimSpace (TrimSpace s) = TrimSpace s.
Proof. apply TrimSpace_fixed; [apply TrimSpace_no_leading' | apply TrimSpace_no_trailing]. Qed.

(** ** The command of the speak handler, for every request *)

Lemma addVoice_shape (m : gmap gostring any) (args : list gostring) :
  exists vpart,
    addVoice m args = args ++ vpart
    /\ (vpart = []
        \/ exists voice, m !! B "voice" = Some (AString voice) /\ voice <> []
                         /\ vpart = [B "-v"; voice]).
Proof.
  unfold addVoice.
  destruct (m !! B "voice") as [[| | |voice| |]|];
    try (exists []; split; [by rewrite app_nil_r | by left]).
  destruct voice as [|a voice]; cbn [isEmpty negb].
  - exists []. split; [by rewrite app_nil_r | by left].
  - exists [B "-v"; a :: voice]. split; [done|]. right. by exists (a :: voice).
Qed.

Lemma addRate_shape (m : gmap gostring any) (args args' : list gostring) :
  addRate m args = inr args' ->
  exists rpart,
    args' = args ++ rpart
    /\ (rpart = []
        \/ exists rate, m !! B "rate" = Some (AFloat64 rate)
                        /\ SFltb f64_0 rate = true
                        /\ SFltb rate f64_90 = false /\ SFltb f64_500 rate = false
                        /\ rpart = [B "-r"; fmt_f0 rate]).
Proof.
  unfold addRate.
  destruct (m !! B "rate") as [[| |rate| | |]|];
    try (intros [= <-]; exists []; split; [by rewrite app_nil_r | by left]).
  destruct (SFltb f64_0 rate) eqn:Hpos;
    [|intros [= <-]; exists []; split; [by rewrite app_nil_r | by left]].
  destruct (SFltb rate f64_90) eqn:Hlo; [done|].
  destruct (SFltb f64_500 rate) eqn:Hhi; [done|]. cbn [orb].
  intros [= <-]. exists [B "-r"; fmt_f0 rate]. split; [done|]. right. by exists rate.
Qed.

(** Whatever the request, a command that [handleSpeak] starts is the say
    command bound to the handler's context; its arguments are an optional
    "-v" with a non-empty voice, an optional "-r" with the token of a rate
    that passed the range check, and last the trimmed text, which is not
    empty and neither begins nor ends with white space. Nothing else is
    ever passed. *)
Theorem speak_command_shape (ctx : Context) (request : CallToolRequest) (cmd : Cmd)
        (k : gostring * option error -> Exec (CallToolResult * option error)) :
  Main.handleSpeak ctx request = CombinedOutput cmd k
  \/ Refactored.handleSpeak ctx request = CombinedOutput cmd k ->
  Path cmd = sayCommand /\ cmdCtx cmd = ctx
  /\ exists text vpart rpart,
      GetArguments request !! B "text" = Some (AString text)
      /\ Args cmd = vpart ++ rpart ++ [TrimSpace text]
      /\ TrimSpace text <> []
      /\ leadingSpace (TrimSpace text) = None
      /\ trailingSpace (TrimSpace text) = None
      /\ (vpart = []
          \/ exists voice,
              GetArguments request !! B "voice" = Some (AString voice)
              /\ voice <> [] /\ vpart = [B "-v"; voice])
      /\ (rpart = []
          \/ exists rate,
              GetArguments request !! B "rate" = Some (AFloat64 rate)
              /\ SFltb f64_0 rate = true
              /\ SFltb rate f64_90 = false /\ SFltb f64_500 rate = false
              /\ rpart = [B "-r"; fmt_f0 rate]).
Proof.
  unfold Main.handleSpeak, Refactored.handleSpeak, RequireString.
  destruct (GetArguments request !! B "text") as [[| | |text| |]|];
    try (intros [H|H]; discriminate).
  destruct (isEmpty (TrimSpace text)) eqn:Hempty; [intros [H|H]; discriminate|].
  destruct (addVoice_shape (GetArguments request) []) as (vpart & Hv & Hvoice).
  rewrite Hv. cbn [app].
  destruct (addRate (GetArguments request) vpart) as [failure|args] eqn:Hr;
    [intros [H|H]; discriminate|].
  apply addRate_shape in Hr as (rpart & -> & Hrate).
  intros Hrun.
  assert (Hcmd : cmd = CommandContext ctx sayCommand ((vpart ++ rpart) ++ [TrimSpace text]))
    by (destruct Hrun as [H|H]; by injection H as <-).
  subst cmd. cbn [Path cmdCtx Args CommandContext].
  split; [done|]. split; [done|].
  exists text, vpart, rpart. rewrite <- app_assoc.
  repeat split; try done.
  - by destruct (TrimSpace text).
  - apply TrimSpace_no_leading'.
  - apply TrimSpace_no_trailing.
Qed.

(** ** Entries that are passed over *)

(** An empty voice and a rate that is not above zero (zero, negative,
    minus infinity, NaN) are passed over in silence: nothing is added, no
    error is raised, and [handleSpeak] goes on as for the request without
    that entry. *)
Theorem skipped_values_ignored (ctx : Context) (m : gmap gostring any)
        (key : gostring) (v : any) :
  m !! key = Some v ->
  skippedValue key v ->
  Main.handleSpeak ctx (requestOf m) = Main.handleSpeak ctx (requestOf (delete key m))
  /\ Refactored.handleSpeak ctx (requestOf m)
     = Refactored.handleSpeak ctx (requestOf (delete key m)).
Proof.
  intros Hm Hskip.
  assert (Htext : RequireString (requestOf m) (B "text")
                  = RequireString (requestOf (delete key m)) (B "text")).
  { unfold RequireString, requestOf, GetArguments. simpl.
    rewrite lookup_delete_ne; [done|]. by destruct Hskip as [[-> _] | [-> _]]. }
  assert (Hvoice : forall args,
             addVoice (GetArguments (requestOf m)) args
             = addVoice (GetArguments (requestOf (delete key m))) args).
  { intros args. unfold requestOf, GetArguments. cbn [Arguments].
    destruct Hskip as [[-> ->] | [-> _]].
    - rewrite (addVoice_absent (delete _ m)) by apply lookup_delete_eq.
      unfold addVoice. by rewrite Hm.
    - apply addVoice_ext. by rewrite lookup_delete_ne. }
  assert (Hrate : forall args,
             addRate (GetArguments (requestOf m)) args
             = addRate (GetArguments (requestOf (delete key m))) args).
  { intros args. unfold requestOf, GetArguments. cbn [Arguments].
    destruct Hskip as [[-> _] | [-> (f & -> & Hf)]].
    - apply addRate_ext. by rewrite lookup_delete_ne.
    - rewrite (addRate_absent (delete _ m)) by apply lookup_delete_eq.
      unfold addRate. by rewrite Hm, Hf. }
  split; [by apply Main_handleSpeak_ext | by apply Refactored_handleSpeak_ext].
Qed.

(** Rates that are not above zero. *)
Example rates_not_above_zero :
  Forall (fun f => SFltb f64_0 f = false)
    [ S754_zero false; S754_zero true; S754_nan; S754_infinity true;
      S754_finite true 1 0; Float64OfZ (-120) ].
Proof. repeat constructor. Qed.

(** Trimming the text beforehand changes nothing: [handleSpeak] treats a
    text and its trimmed form alike. *)
Theorem speak_text_pretrimmed (ctx : Context) (m : gmap gostring any) (text : gostring) :
  m !! B "text" = Some (AString text) ->
  Main.handleSpeak ctx (requestOf m)
  = Main.handleSpeak ctx (requestOf (<[B "text" := AString (TrimSpace text)]> m))
  /\ Refactored.handleSpeak ctx (requestOf m)
     = Refactored.handleSpeak ctx (requestOf (<[B "text" := AString (TrimSpace text)]> m)).
Proof.
  intros Hm.
  assert (Hv : forall args,
             addVoice m args = addVoice (<[B "text" := AString (TrimSpace text)]> m) args)
    by (intros; apply addVoice_ext; by rewrite lookup_insert_ne).
  assert (Hr : forall args,
             addRate m args = addRate (<[B "text" := AString (TrimSpace text)]> m) args)
    by (intros; apply addRate_ext; by rewrite lookup_insert_ne).
  unfold Main.handleSpeak, Refactored.handleSpeak, RequireString, requestOf, GetArguments.
  cbn [Arguments]. rewrite Hm, lookup_insert_eq. cbv zeta.
  rewrite TrimSpace_idempotent.
  destruct (isEmpty (TrimSpace text)); [done|].
  by rewrite <- Hv, <- Hr.
Qed.

(** ** The rate token of a binary64 rate *)

Lemma digits2_pos_bounds (m : positive) :
  (2 ^ (Z.pos (digits2_pos m) - 1) <= Z.pos m < 2 ^ Z.pos (digits2_pos m))%Z.
Proof.
  induction m as [p IH|p IH|]; cbn [digits2_pos].
  - rewrite Pos2Z.inj_succ.
    replace (Z.succ (Z.pos (digits2_pos p)) - 1)%Z
      with (Z.succ (Z.pos (digits2_pos p) - 1)) by lia.
    rewrite !Z.pow_succ_r by lia. lia.
  - rewrite Pos2Z.inj_succ.
    replace (Z.succ (Z.pos (digits2_pos p)) - 1)%Z
      with (Z.succ (Z.pos (digits2_pos p) - 1)) by lia.
    rewrite !Z.pow_succ_r by lia. lia.
  - simpl. lia.
Qed.

(** The mantissa of a binary64 has at most 53 bits, and exactly 53 unless
    the exponent is the least one. *)
Lemma valid_binary64_mantissa (s : bool) (m : positive) (e : Z) :
  valid_binary 53 1024 (S754_finite s m e) = true ->
  (Z.pos m < 2 ^ 53)%Z /\ ((-1074 < e)%Z -> (2 ^ 52 <= Z.pos m)%Z).
Proof.
  cbn [valid_binary]. unfold bounded, canonical_mantissa, fexp, emin.
  intros [Hc _]%andb_true_iff. apply Z.eqb_eq in Hc.
  pose proof (digits2_pos_bounds m) as [Hlo Hhi].
  set (d := Z.pos (digits2_pos m)) in *.
  assert (Hd : (d <= 53)%Z) by lia.
  split.
  - eapply Z.lt_le_trans; [exact Hhi|]. apply Z.pow_le_mono_r; lia.
  - intros He. assert (d = 53)%Z as Hd53 by lia. rewrite Hd53 in Hlo. exact Hlo.
Qed.

Lemma SFltb_finite_pos (m1 m2 : positive) (e1 e2 : Z) :
  SFltb (S754_finite false m1 e1) (S754_finite false m2 e2)
  = match (e1 ?= e2)%Z with
    | Lt => true
    | Gt => false
    | Eq => match (m1 ?= m2)%positive with Lt => true | _ => false end
    end.
Proof. unfold SFltb. cbn [SFcompare]. destruct (e1 ?= e2)%Z; reflexivity. Qed.

(** A binary64 that passes the range check lies between 90 and 500: its
    exponent is -46, -45 or -44 and its mantissa is bounded accordingly. *)
Lemma accepted_rate_bounds (m : positive) (e : Z) :
  valid_binary 53 1024 (S754_finite false m e) = true ->
  SFltb (S754_finite false m e) f64_90 = false ->
  SFltb f64_500 (S754_finite false m e) = false ->
  (e = -46 /\ 90 * 2 ^ 46 <= Z.pos m < 2 ^ 53)%Z
  \/ (e = -45 /\ 2 ^ 52 <= Z.pos m < 2 ^ 53)%Z
  \/ (e = -44 /\ 2 ^ 52 <= Z.pos m <= 500 * 2 ^ 44)%Z.
Proof.
  intros Hvalid Hlo Hhi.
  destruct (valid_binary64_mantissa _ _ _ Hvalid) as [Hm Hnormal].
  unfold f64_90 in Hlo. unfold f64_500 in Hhi.
  rewrite SFltb_finite_pos in Hlo, Hhi.
  destruct (Z.compare_spec e (-46)) as [He|He|He]; [|done|].
  - left. split; [done|]. split; [|done].
    subst e. change (-44 ?= -46)%Z with Gt in Hhi.
    change (90 * 2 ^ 46)%Z with (Z.pos 6333186975989760).
    destruct (Pos.compare_spec m 6333186975989760) as [Hc|Hc|Hc]; [|done|].
    + rewrite Hc. apply Z.le_refl.
    + apply Z.lt_le_incl. exact Hc.
  - destruct (Z.compare_spec (-44) e) as [He'|He'|He']; [|done|].
    + right. right. subst e. split; [done|]. split; [by apply Hnormal|].
      change (500 * 2 ^ 44)%Z with (Z.pos 8796093022208000).
      destruct (Pos.compare_spec 8796093022208000 m) as [Hc|Hc|Hc]; [|done|].
      * rewrite Hc. apply Z.le_refl.
      * apply Z.lt_le_incl. exact Hc.
    + right. left. split; [lia|]. split; [apply Hnormal; lia | done].
Qed.

Lemma nearest_between (m d n lo hi : Z) :
  (0 < d)%Z ->
  (Z.abs (2 * m - 2 * n * d) <= d)%Z ->
  (lo * d <= m <= hi * d)%Z ->
  (lo <= n <= hi)%Z.
Proof.
  intros Hd Hn [Hlo Hhi]. split.
  - destruct (Z.le_gt_cases lo n) as [|Hlt]; [done|].
    assert (((n + 1) * d <= lo * d)%Z) by (apply Z.mul_le_mono_nonneg_r; lia).
    lia.
  - destruct (Z.le_gt_cases n hi) as [|Hlt]; [done|].
    assert (((hi + 1) * d <= n * d)%Z) by (apply Z.mul_le_mono_nonneg_r; lia).
    lia.
Qed.

Lemma roundHalfEven_accepted (m : positive) (e : Z) :
  (e = -46 /\ 90 * 2 ^ 46 <= Z.pos m < 2 ^ 53)%Z
  \/ (e = -45 /\ 2 ^ 52 <= Z.pos m < 2 ^ 53)%Z
  \/ (e = -44 /\ 2 ^ 52 <= Z.pos m <= 500 * 2 ^ 44)%Z ->
  (90 <= roundHalfEven m e <= 500)%Z.
Proof.
  pose proof (roundHalfEven_nearest m e) as Hn.
  intros [[-> Hm] | [[-> Hm] | [-> Hm]]].
  - apply (nearest_between (Z.pos m) (2 ^ 46) _ 90 500); [done | exact Hn |].
    change (2 ^ 53)%Z with (128 * 2 ^ 46)%Z in Hm.
    assert (0 < 2 ^ 46)%Z by done. lia.
  - apply (nearest_between (Z.pos m) (2 ^ 45) _ 90 500); [done | exact Hn |].
    change (2 ^ 53)%Z with (256 * 2 ^ 45)%Z in Hm.
    change (2 ^ 52)%Z with (128 * 2 ^ 45)%Z in Hm.
    assert (0 < 2 ^ 45)%Z by done. lia.
  - apply (nearest_between (Z.pos m) (2 ^ 44) _ 90 500); [done | exact Hn |].
    change (2 ^ 52)%Z with (256 * 2 ^ 44)%Z in Hm.
    assert (0 < 2 ^ 44)%Z by done. lia.
Qed.

(** For a binary64 rate, the token that the rate step appends is the
    decimal rendering of an integer between 90 and 500. *)
Theorem rate_token_between_90_and_500 (request : CallToolRequest) (rate : float64)
        (args args' : list gostring) :
  valid_binary 53 1024 rate = true ->
  GetArguments request !! B "rate" = Some (AFloat64 rate) ->
  SFltb f64_0 rate = true ->
  addRate (GetArguments request) args = inr args' ->
  exists n : Z, (90 <= n <= 500)%Z /\ args' = args ++ [B "-r"; decimal n].
Proof.
  intros Hvalid Hrate Hpos Hadd.
  unfold addRate in Hadd. rewrite Hrate, Hpos in Hadd.
  destruct (SFltb rate f64_90) eqn:Hlo; [done|].
  destruct (SFltb f64_500 rate) eqn:Hhi; [done|].
  cbn [orb] in Hadd. injection Hadd as <-.
  destruct (SFltb_zero_inv _ Hpos) as [-> | (m & e & ->)]; [done|].
  exists (roundHalfEven m e). split; [|done].
  by apply roundHalfEven_accepted, accepted_rate_bounds.
Qed.

(** ** The message about a rate out of range *)

Lemma SFleb_finite_pos (m1 m2 : positive) (e1 e2 : Z) :
  SFleb (S754_finite false m1 e1) (S754_finite false m2 e2)
  = match (e1 ?= e2)%Z with
    | Lt => true
    | Gt => false
    | Eq => match (m1 ?= m2)%positive with Gt => false | _ => true end
    end.
Proof. unfold SFleb. cbn [SFcompare]. destruct (e1 ?= e2)%Z; reflexivity. Qed.

Lemma speak_rate_rejected (ctx : Context) (request : CallToolRequest)
      (text : gostring) (rate : float64) :
  GetArguments request !! B "text" = Some (AString text) ->
  TrimSpace text <> [] ->
  GetArguments request !! B "rate" = Some (AFloat64 rate) ->
  SFltb f64_0 rate = true ->
  SFltb rate f64_90 || SFltb f64_500 rate = true ->
  Main.handleSpeak ctx request
  = Ret (NewToolResultError (rateErrorMessage (fmt_f0 rate)), None)
  /\ Refactored.handleSpeak ctx request
     = Ret (NewToolResultError (rateErrorMessage (fmt_f0 rate)), None).
Proof.
  intros Htext Hne Hrate Hpos Hout.
  unfold Main.handleSpeak, Refactored.handleSpeak, RequireString, addRate.
  by rewrite Htext, (isEmpty_false _ Hne), Hrate, Hpos, Hout.
Qed.

Lemma Pos_compare_le (a b : positive) :
  match (a ?= b)%positive with Gt => false | _ => true end = true ->
  (Z.pos a <= Z.pos b)%Z.
Proof. unfold Z.le. cbn [Z.compare]. by destruct (a ?= b)%positive. Qed.

Lemma Pos_compare_lt (a b : positive) :
  match (a ?= b)%positive with Lt => true | _ => false end = true ->
  (Z.pos a < Z.pos b)%Z.
Proof. unfold Z.lt. cbn [Z.compare]. by destruct (a ?= b)%positive. Qed.

(** Rounding to [n]: the value [m / 2^k] is within one half of [n], the
    two ties being allowed when [n] is even. *)
Lemma roundHalfEven_eq (m k : positive) (n : Z) :
  ((2 * n - 1) * 2 ^ Z.pos k < 2 * Z.pos m < (2 * n + 1) * 2 ^ Z.pos k)%Z
  \/ (Z.even n = true
      /\ ((2 * n - 1) * 2 ^ Z.pos k <= 2 * Z.pos m <= (2 * n + 1) * 2 ^ Z.pos k)%Z) ->
  roundHalfEven m (Z.neg k) = n.
Proof.
  intros H. unfold roundHalfEven. cbn [Z.leb Z.compare]. cbv zeta.
  change (- Z.neg k)%Z with (Z.pos k).
  assert (Hd : (0 < 2 ^ Z.pos k)%Z) by (apply Z.pow_pos_nonneg; lia).
  set (d := (2 ^ Z.pos k)%Z) in *.
  pose proof (Z.div_mod (Z.pos m) d ltac:(lia)) as Hdm.
  pose proof (Z.mod_pos_bound (Z.pos m) d Hd) as Hr.
  set (q := (Z.pos m / d)%Z) in *. set (r := (Z.pos m mod d)%Z) in *.
  set (x := Z.pos m) in *.
  clearbody d q r x.
  destruct (2 * r <? d)%Z eqn:H1.
  { apply Z.ltb_lt in H1.
    assert (n <= q /\ q <= n)%Z; [|lia].
    destruct H as [H | [_ H]]; split; nia. }
  apply Z.ltb_ge in H1.
  destruct (d <? 2 * r)%Z eqn:H2.
  { apply Z.ltb_lt in H2.
    assert (n <= q + 1 /\ q + 1 <= n)%Z; [|lia].
    destruct H as [H | [_ H]]; split; nia. }
  apply Z.ltb_ge in H2.
  assert (Hrd : (2 * r = d)%Z) by lia.
  destruct H as [H | [Hev H]].
  { assert ((n - 1 < q)%Z) by nia. assert ((q < n)%Z) by nia. lia. }
  assert (Hq : (q = n \/ q + 1 = n)%Z).
  { assert ((n - 1 <= q)%Z) by nia. assert ((q <= n)%Z) by nia. lia. }
  destruct (Z.even q) eqn:Heq; destruct Hq as [Hq | Hq]; try lia.
  - exfalso. rewrite <- Hq, Z.add_1_r, Z.even_succ, <- Z.negb_even, Heq in Hev. done.
  - exfalso. rewrite Hq in Heq. congruence.
Qed.

Lemma SFleb_finite_inv (m1 m2 : positive) (e1 e2 : Z) :
  SFleb (S754_finite false m1 e1) (S754_finite false m2 e2) = true ->
  (e1 < e2)%Z \/ (e1 = e2 /\ (Z.pos m1 <= Z.pos m2)%Z).
Proof.
  rewrite SFleb_finite_pos.
  destruct (Z.compare_spec e1 e2) as [He|He|He]; [|by left|done].
  intros Hm. right. split; [done|]. by apply Pos_compare_le.
Qed.

Lemma SFltb_finite_inv (m1 m2 : positive) (e1 e2 : Z) :
  SFltb (S754_finite false m1 e1) (S754_finite false m2 e2) = true ->
  (e1 < e2)%Z \/ (e1 = e2 /\ (Z.pos m1 < Z.pos m2)%Z).
Proof.
  rewrite SFltb_finite_pos.
  destruct (Z.compare_spec e1 e2) as [He|He|He]; [|by left|done].
  intros Hm. right. split; [done|]. by apply Pos_compare_lt.
Qed.

(** [%.0f] of a binary64 from 89.5 up to, not including, 90. *)
Lemma fmt_f0_below_90 (m : positive) (e : Z) :
  SFleb f64_89_5 (S754_finite false m e) = true ->
  SFltb (S754_finite false m e) f64_90 = true ->
  fmt_f0 (S754_finite false m e) = B "90".
Proof.
  unfold f64_89_5, f64_90.
  intros Hlo%SFleb_finite_inv Hhi%SFltb_finite_inv.
  assert (He : e = (-46)%Z) by lia. subst e.
  destruct Hlo as [Hlo | [_ Hlo]]; [lia|].
  destruct Hhi as [Hhi | [_ Hhi]]; [lia|].
  cbn [fmt_f0]. rewrite (roundHalfEven_eq m 46 90); [done|].
  right. split; [done|].
  change ((2 * 90 - 1) * 2 ^ 46)%Z with (2 * 6298002603900928)%Z.
  change ((2 * 90 + 1) * 2 ^ 46)%Z with (2 * 6333186975989760 + 70368744177664)%Z.
  lia.
Qed.

(** [%.0f] of a binary64 above 500 and up to 500.5. *)
Lemma fmt_f0_above_500 (m : positive) (e : Z) :
  SFltb f64_500 (S754_finite false m e) = true ->
  SFleb (S754_finite false m e) f64_500_5 = true ->
  fmt_f0 (S754_finite false m e) = B "500".
Proof.
  unfold f64_500, f64_500_5.
  intros Hlo%SFltb_finite_inv Hhi%SFleb_finite_inv.
  assert (He : e = (-44)%Z) by lia. subst e.
  destruct Hlo as [Hlo | [_ Hlo]]; [lia|].
  destruct Hhi as [Hhi | [_ Hhi]]; [lia|].
  cbn [fmt_f0]. rewrite (roundHalfEven_eq m 44 500); [done|].
  right. split; [done|].
  change ((2 * 500 - 1) * 2 ^ 44)%Z with (2 * 8796093022208000 - 17592186044416)%Z.
  change ((2 * 500 + 1) * 2 ^ 44)%Z with (2 * 8804889115230208)%Z.
  lia.
Qed.

(** The message shows the rounded rate, so a rate just outside the range
    is reported with a number inside it: every rate from 89.5 up to, but
    not including, 90 is refused as "Rate 90", and every rate above 500
    up to 500.5 as "Rate 500". *)
Theorem rejected_rate_shown_rounded (ctx : Context) (request : CallToolRequest)
        (text : gostring) (rate : float64) :
  GetArguments request !! B "text" = Some (AString text) ->
  TrimSpace text <> [] ->
  GetArguments request !! B "rate" = Some (AFloat64 rate) ->
  (SFleb f64_89_5 rate = true -> SFltb rate f64_90 = true ->
   Main.handleSpeak ctx request
   = Ret (NewToolResultError (rateErrorMessage (B "90")), None)
   /\ Refactored.handleSpeak ctx request
      = Ret (NewToolResultError (rateErrorMessage (B "90")), None))
  /\ (SFltb f64_500 rate = true -> SFleb rate f64_500_5 = true ->
      Main.handleSpeak ctx request
      = Ret (NewToolResultError (rateErrorMessage (B "500")), None)
      /\ Refactored.handleSpeak ctx request
         = Ret (NewToolResultError (rateErrorMessage (B "500")), None)).
Proof.
  intros Htext Hne Hrate. split; intros Hlo Hhi.
  - assert (Hfin : exists m e, rate = S754_finite false m e).
    { destruct rate as [[]|[]| |[] m e]; try discriminate. eauto. }
    destruct Hfin as (m & e & ->).
    rewrite <- (fmt_f0_below_90 m e Hlo Hhi).
    apply (speak_rate_rejected ctx request text); [done..|].
    by rewrite Hhi.
  - assert (Hfin : exists m e, rate = S754_finite false m e).
    { destruct rate as [[]|[]| |[] m e]; try discriminate. eauto. }
    destruct Hfin as (m & e & ->).
    rewrite <- (fmt_f0_above_500 m e Hlo Hhi).
    apply (speak_rate_rejected ctx request text); [done..|].
    rewrite Hlo. apply orb_true_r.
Qed.

(** ** The error flag *)

Lemma addRate_failure (m : gmap gostring any) (args : list gostring)
      (failure : CallToolResult) :
  addRate m args = inl failure ->
  failure = NewToolResultError (Text failure).
Proof.
  unfold addRate. intros H.
  repeat case_match; try discriminate; by injection H as <-.
Qed.

Ltac flagged_at_once :=
  split; [by intros [=] | cbn [runExec snd]; by intros (? & [=] & _)].

(** The result of a handler is flagged as an error exactly when no
    command returned without error: [handleSpeak] succeeds only if it
    started the command and the command returned nil, [handleVoices]
    succeeds exactly when its command returned nil. *)
Theorem error_flag_reflects_command (ctx : Context) (request : CallToolRequest)
        (sys : System) :
  (IsError (fst (fst (runExec sys (Main.handleSpeak ctx request)))) = false <->
   exists cmd, snd (runExec sys (Main.handleSpeak ctx request)) = [cmd]
               /\ snd (sys cmd) = None)
  /\ (IsError (fst (fst (runExec sys (Refactored.handleSpeak ctx request)))) = false <->
      exists cmd, snd (runExec sys (Refactored.handleSpeak ctx request)) = [cmd]
                  /\ snd (sys cmd) = None)
  /\ (IsError (fst (fst (runExec sys (Main.handleVoices ctx request)))) = false <->
      snd (sys (CommandContext ctx sayCommand [B "-v"; B "?"])) = None)
  /\ (IsError (fst (fst (runExec sys (Refactored.handleVoices ctx request)))) = false <->
      snd (sys (CommandContext ctx sayCommand [B "-v"; B "?"])) = None).
Proof.
  split; [|split; [|split]].
  - unfold Main.handleSpeak.
    destruct (RequireString request (B "text")) as [text [e|]]; [flagged_at_once|].
    cbv zeta.
    destruct (isEmpty (TrimSpace text)); [flagged_at_once|].
    destruct (addRate _ _) as [failure|args] eqn:Hadd;
      [rewrite (addRate_failure _ _ _ Hadd); flagged_at_once|].
    cbn [runExec].
    destruct (sys _) as [output [err|]] eqn:Hsys.
    + destruct (_ || _); cbn [runExec fst snd]; (split; [intros [=]|]);
        intros (cmd & [= <-] & Hnone); by rewrite Hsys in Hnone.
    + cbn [runExec fst snd]. split; [|done].
      intros _. eexists. split; [reflexivity|]. by rewrite Hsys.
  - unfold Refactored.handleSpeak.
    destruct (RequireString request (B "text")) as [text [e|]]; [flagged_at_once|].
    cbv zeta.
    destruct (isEmpty (TrimSpace text)); [flagged_at_once|].
    destruct (addRate _ _) as [failure|args] eqn:Hadd;
      [rewrite (addRate_failure _ _ _ Hadd); flagged_at_once|].
    cbn [runExec].
    destruct (sys _) as [output [err|]] eqn:Hsys; cbn [runExec fst snd].
    + split; [intros [=]|]. intros (cmd & [= <-] & Hnone). by rewrite Hsys in Hnone.
    + split; [|done]. intros _. eexists. split; [reflexivity|]. by rewrite Hsys.
  - unfold Main.handleVoices. rewrite fst_runExec_CombinedOutput.
    destruct (sys _) as [output [err|]]; cbn [snd].
    + by destruct (_ || _).
    + by rewrite MarshalIndent_voices.
  - unfold Refactored.handleVoices. rewrite fst_runExec_CombinedOutput.
    destruct (sys _) as [output [err|]]; cbn [snd]; [done|].
    by rewrite MarshalIndent_voices.
Qed.

(** ** Lines and records *)

Lemma linesOf_app (a b : gostring) :
  linesOf (a ++ byte_lf :: b) = linesOf a ++ linesOf b.
Proof.
  induction a as [|c a IH]; cbn [app linesOf].
  - by rewrite Ascii.eqb_refl.
  - destruct (Ascii.eqb c byte_lf); [by rewrite IH|].
    rewrite IH. pose proof (linesOf_nonempty a).
    by destruct (linesOf a).
Qed.

Lemma linesOf_length (s : gostring) : length (linesOf s) = S (countNewlines s).
Proof.
  unfold countNewlines. induction s as [|a t IH]; [done|]. cbn [linesOf].
  rewrite filter_cons.
  destruct (Ascii.eqb a byte_lf) eqn:Ha.
  - apply Ascii.eqb_eq in Ha. rewrite decide_True by done. cbn [length]. by rewrite IH.
  - apply Ascii.eqb_neq in Ha. rewrite decide_False by done.
    pose proof (linesOf_nonempty t). destruct (linesOf t); [done|].
    cbn [length] in *. lia.
Qed.

(** The records of a text made of two parts joined by a newline are the
    records of the first part followed by those of the second; a final
    newline adds nothing, and there are never more records than lines. *)
Theorem parseVoices_by_parts (a b : gostring) :
  parseVoices (a ++ newline ++ b) = parseVoices a ++ parseVoices b
  /\ parseVoices (a ++ newline) = parseVoices a
  /\ length (parseVoices a) <= S (countNewlines a).
Proof.
  assert (Happ : forall x y, parseVoices (x ++ newline ++ y) = parseVoices x ++ parseVoices y).
  { intros x y. rewrite !parseVoices_concat, !Split_linesOf.
    change (x ++ newline ++ y) with (x ++ byte_lf :: y).
    by rewrite linesOf_app, map_app, concat_app. }
  split; [apply Happ|]. split.
  - replace (a ++ newline) with (a ++ newline ++ []) by done.
    rewrite Happ. change (parseVoices []) with (@nil Voice). by rewrite app_nil_r.
  - rewrite parseVoices_concat, Split_linesOf, <- linesOf_length.
    induction (linesOf a) as [|l ls IH]; [done|]. cbn [map concat].
    rewrite length_app. cbn [length].
    destruct (parseLine l) as [|v rest] eqn:Hp; [simpl; lia|].
    apply parseLine_sound in Hp as (-> & _). simpl. lia.
Qed.

(** Every field of every record is trimmed and free of newlines, and the
    locale holds no byte of the pattern's white space at all. *)
Theorem parsed_fields_are_trimmed (output : gostring) (v : Voice) :
  v ∈ parseVoices output ->
  (TrimSpace (Name v) = Name v /\ byte_lf ∉ Name v)
  /\ (TrimSpace (Locale v) = Locale v /\ allOf notPerlSpace (Locale v))
  /\ (TrimSpace (Description v) = Description v /\ byte_lf ∉ Description v).
Proof.
  intros Hv. rewrite parseVoices_concat in Hv.
  apply elem_of_concat_parse in Hv as (line & Hline & Hv).
  destruct (parseLine line) as [|v' rest] eqn:Hp; [by apply elem_of_nil in Hv|].
  apply parseLine_sound in Hp as (-> & Hne & m1 & m2 & m3 & Hshape & ->).
  apply list_elem_of_singleton in Hv as ->.
  destruct Hshape as (ws1 & ws2 & ws3 & Ht & _ & Hm1 & _ & _ & _ & Hm2 & _ & _ & _ & Hm3).
  assert (Hnl : forall m, allOf anyCharNotNL m -> byte_lf ∉ TrimSpace m).
  { intros m Hm Hin.
    assert (Forall (fun a => anyCharNotNL a = true) (TrimSpace m)) as Hall
        by (by apply TrimSpace_Forall).
    rewrite Forall_forall in Hall. specialize (Hall _ Hin). done. }
  cbn [voiceOf Name Locale Description].
  split; [split; [apply TrimSpace_idempotent | by apply Hnl]|].
  split; [split; [apply TrimSpace_idempotent | by apply TrimSpace_Forall]|].
  split; [apply TrimSpace_idempotent | by apply Hnl].
Qed.

(** ** A catalog without voices *)

(** When the listing succeeds but no line of the output has a '#' (an
    empty output, for one), the payload is the document with the empty
    array, never null and never an error. *)
Theorem no_voices_empty_array (ctx : Context) (request : CallToolRequest)
        (output : gostring) :
  byte_hash ∉ output ->
  afterCommand (Main.handleVoices ctx request) (output, None)
  = Some (Ret (NewToolResultText
                 (B "{" ++ newline ++ B "  " ++ [byte_dquote] ++ B "voices"
                  ++ [byte_dquote] ++ B ": []" ++ newline ++ B "}"), None))
  /\ afterCommand (Refactored.handleVoices ctx request) (output, None)
     = Some (Ret (NewToolResultText
                    (B "{" ++ newline ++ B "  " ++ [byte_dquote] ++ B "voices"
                     ++ [byte_dquote] ++ B ": []" ++ newline ++ B "}"), None)).
Proof.
  intros Hno. unfold Main.handleVoices, Refactored.handleVoices. cbn [afterCommand].
  rewrite (parseVoices_no_hash _ Hno). split; reflexivity.
Qed.

(** ** The declaration of the speak tool and its handler *)

Lemma conforms_speak_text (args : gmap gostring any) :
  conforms speakTool args -> exists text, args !! B "text" = Some (AString text).
Proof.
  intros Hc.
  specialize (Hc {| paramName := B "text"; paramType := PString; paramRequired := true;
                    paramDescription := B "The text to be spoken aloud" |}).
  cbn [paramName paramType paramRequired] in Hc.
  destruct (args !! B "text") as [v|].
  - destruct Hc as [s ->]; [by left | by exists s].
  - discriminate Hc. by left.
Qed.

(** [handleSpeak] answers "Invalid parameter 'text'" exactly when the
    text entry is missing or not a string; for arguments that conform to
    the declaration of the speak tool in [main], the only errors it
    raises on its own are the one about empty text and the one about the
    rate. *)
Theorem speak_errors_for_declared_arguments (ctx : Context) (request : CallToolRequest) :
  ((forall text, GetArguments request !! B "text" <> Some (AString text)) ->
   exists reason,
     Main.handleSpeak ctx request
     = Ret (NewToolResultError (B "Invalid parameter 'text': " ++ reason), None)
     /\ Refactored.handleSpeak ctx request
        = Ret (NewToolResultError (B "Invalid parameter 'text': " ++ reason), None))
  /\ (conforms speakTool (GetArguments request) ->
      forall msg,
        Main.handleSpeak ctx request = Ret (NewToolResultError msg, None)
        \/ Refactored.handleSpeak ctx request = Ret (NewToolResultError msg, None) ->
        msg = B "Parameter 'text' cannot be empty"
        \/ exists rate,
            GetArguments request !! B "rate" = Some (AFloat64 rate)
            /\ msg = rateErrorMessage (fmt_f0 rate)).
Proof.
  split.
  - intros Hno. unfold Main.handleSpeak, Refactored.handleSpeak, RequireString.
    destruct (GetArguments request !! B "text") as [[| | |text| |]|];
      try (eexists; split; reflexivity).
    by destruct (Hno text).
  - intros Hc msg Hret.
    destruct (conforms_speak_text _ Hc) as [text Htext].
    unfold Main.handleSpeak, Refactored.handleSpeak, RequireString in Hret.
    rewrite Htext in Hret.
    destruct (isEmpty (TrimSpace text)).
    { left. by destruct Hret as [[= <-] | [= <-]]. }
    right. unfold addRate in Hret.
    destruct (GetArguments request !! B "rate") as [[| |rate| | |]|];
      try (destruct Hret; discriminate).
    destruct (SFltb f64_0 rate); [|destruct Hret; discriminate].
    destruct (SFltb rate f64_90 || SFltb f64_500 rate); [|destruct Hret; discriminate].
    exists rate. split; [done|]. by destruct Hret as [[= <-] | [= <-]].
Qed.

(** ** When the permission guidance is appended *)

Lemma HasPrefix_true (s p : gostring) : HasPrefix s p = true <-> exists r, s = p ++ r.
Proof.
  unfold HasPrefix. destruct (stripPrefix p s) as [r|] eqn:Hp.
  - apply stripPrefix_Some in Hp. split; [by exists r | done].
  - split; [done|]. intros [r ->].
    assert (stripPrefix p (p ++ r) = Some r) as H by (by apply stripPrefix_Some).
    congruence.
Qed.

(** [strings.Contains] finds exactly the substrings. *)
Lemma Contains_substring (s sub : gostring) :
  Contains s sub = true <-> exists pre post, s = pre ++ sub ++ post.
Proof.
  unfold Contains. induction s as [|a s IH]; cbn [Index].
  - destruct (HasPrefix [] sub) eqn:Hp.
    + apply HasPrefix_true in Hp as [r Hr]. split; [|done]. intros _. by exists [], r.
    + split; [done|]. intros (pre & post & H).
      destruct pre; [|done]. simpl in H.
      assert (HasPrefix [] sub = true) by (apply HasPrefix_true; by exists post).
      congruence.
  - destruct (HasPrefix (a :: s) sub) eqn:Hp.
    + apply HasPrefix_true in Hp as [r Hr]. split; [|done]. intros _. by exists [], r.
    + destruct (Index s sub) as [i|]; cbn [fmap option_fmap option_map].
      * split; [|done]. intros _.
        destruct IH as [IH _]. destruct (IH eq_refl) as (pre & post & ->).
        by exists (a :: pre), post.
      * split; [done|]. intros (pre & post & H).
        destruct pre as [|b pre].
        { simpl in H.
          assert (HasPrefix (a :: s) sub = true) by (apply HasPrefix_true; by exists post).
          congruence. }
        injection H as -> ->.
        destruct IH as [_ IH]. discriminate IH. by exists pre, post.
Qed.

(** Under a live context the guidance is appended exactly when the text
    "permission denied" occurs in the error message as written, lower
    case: by [handleSpeak] of main.go and by [formatCommandError]. The
    listing handler of main.go never appends it. *)
Theorem guidance_exactly_for_substring (request : CallToolRequest)
        (err : error) (output : gostring) :
  ((exists pre post, Error err = pre ++ B "permission denied" ++ post) ->
   (forall p,
       afterCommand (Main.handleSpeak ctxActive request) (output, Some err) = Some p ->
       p = Ret (NewToolResultError
                  (baseErrorMessage (B "execute speech synthesis") err output
                   ++ permissionGuidance), None))
   /\ (forall action,
         Refactored.formatCommandError ctxActive action err output
         = baseErrorMessage (ToLower action) err output ++ permissionGuidance))
  /\ ((~ exists pre post, Error err = pre ++ B "permission denied" ++ post) ->
      (forall p,
          afterCommand (Main.handleSpeak ctxActive request) (output, Some err) = Some p ->
          p = Ret (NewToolResultError
                     (baseErrorMessage (B "execute speech synthesis") err output), None))
      /\ (forall action,
            Refactored.formatCommandError ctxActive action err output
            = baseErrorMessage (ToLower action) err output))
  /\ afterCommand (Main.handleVoices ctxActive request) (output, Some err)
     = Some (Ret (NewToolResultError
                    (baseErrorMessage (B "retrieve voice list") err output), None)).
Proof.
  split; [|split].
  - intros Hsub. apply Contains_substring in Hsub. split.
    + intros p Hp. apply Main_handleSpeak_after in Hp. rewrite active_Is in Hp.
      cbv zeta in Hp. by rewrite Hsub in Hp.
    + intros action. rewrite formatCommandError_active. cbv zeta. by rewrite Hsub.
  - intros Hsub.
    assert (Contains (Error err) (B "permission denied") = false) as Hc.
    { destruct (Contains _ _) eqn:E; [|done]. by apply Contains_substring in E. }
    split.
    + intros p Hp. apply Main_handleSpeak_after in Hp. rewrite active_Is in Hp.
      cbv zeta in Hp. by rewrite Hc in Hp.
    + intros action. rewrite formatCommandError_active. cbv zeta. by rewrite Hc.
  - by rewrite Main_handleVoices_after.
Qed.

Example guidance_is_case_sensitive :
  Contains (B "fork/exec /usr/bin/say: Permission denied") (B "permission denied") = false.
Proof. vm_compute. reflexivity. Qed.

(** ** Instances of the further properties *)

(** Success under a cancelled context, for {text: "  Hello ", voice:
    "Alex", rate: 120}. *)
Lemma speak_success_echoes_trimmed_text_witness :
  afterCommand (Main.handleSpeak ctxCanceled requestFull) (B "ignored", None)
  = Some (Ret (NewToolResultText (B "Successfully spoke: Hello"), None))
  /\ exists text,
      GetArguments requestFull !! B "text" = Some (AString text)
      /\ Ret (NewToolResultText (B "Successfully spoke: Hello"), @None error)
         = Ret (NewToolResultText (B "Successfully spoke: " ++ TrimSpace text), None).
Proof.
  assert (H : afterCommand (Main.handleSpeak ctxCanceled requestFull) (B "ignored", None)
              = Some (Ret (NewToolResultText (B "Successfully spoke: Hello"), None)))
    by (vm_compute; reflexivity).
  split; [exact H|].
  exact (speak_success_echoes_trimmed_text ctxCanceled requestFull (B "ignored") _
           (or_introl H)).
Defined.

(** The command for {text: "  Hello ", voice: "Alex", rate: 120}. *)
Lemma speak_command_shape_witness :
  exists cmd k,
    Main.handleSpeak ctxActive requestFull = CombinedOutput cmd k
    /\ Path cmd = sayCommand /\ cmdCtx cmd = ctxActive.
Proof.
  assert (H : exists cmd k, Main.handleSpeak ctxActive requestFull = CombinedOutput cmd k)
    by (vm_compute; eexists _, _; reflexivity).
  destruct H as (cmd & k & H). exists cmd, k. split; [exact H|].
  destruct (speak_command_shape ctxActive requestFull cmd k (or_introl H))
    as (Hpath & Hctx & _).
  split; [exact Hpath | exact Hctx].
Defined.

(** A rate of zero, for {text: "Hi", rate: 0}. *)
Lemma skipped_values_ignored_witness :
  argsZeroRate !! B "rate" = Some (AFloat64 (S754_zero false))
  /\ skippedValue (B "rate") (AFloat64 (S754_zero false))
  /\ Main.handleSpeak ctxActive (requestOf argsZeroRate)
     = Main.handleSpeak ctxActive (requestOf (delete (B "rate") argsZeroRate)).
Proof.
  assert (Hm : argsZeroRate !! B "rate" = Some (AFloat64 (S754_zero false)))
    by (vm_compute; reflexivity).
  assert (Hs : skippedValue (B "rate") (AFloat64 (S754_zero false))).
  { right. split; [reflexivity|]. exists (S754_zero false).
    split; reflexivity. }
  split; [exact Hm|]. split; [exact Hs|].
  destruct (skipped_values_ignored ctxActive argsZeroRate (B "rate") _ Hm Hs) as [H _].
  exact H.
Defined.

(** The padded text "  Hello " against its trimmed form. *)
Lemma speak_text_pretrimmed_witness :
  argsPadded !! B "text" = Some (AString (B "  Hello "))
  /\ Main.handleSpeak ctxActive (requestOf argsPadded)
     = Main.handleSpeak ctxActive
         (requestOf (<[B "text" := AString (TrimSpace (B "  Hello "))]> argsPadded)).
Proof.
  assert (Hm : argsPadded !! B "text" = Some (AString (B "  Hello ")))
    by (vm_compute; reflexivity).
  split; [exact Hm|].
  destruct (speak_text_pretrimmed ctxActive argsPadded (B "  Hello ") Hm) as [H _].
  exact H.
Defined.

(** The rate 120.4. *)
Lemma rate_token_between_90_and_500_witness :
  exists n : Z, (90 <= n <= 500)%Z /\ [B "-r"; B "120"] = [] ++ [B "-r"; decimal n].
Proof.
  apply (rate_token_between_90_and_500 request120_4 f64_120_4 [] [B "-r"; B "120"]).
  - vm_compute. reflexivity.
  - vm_compute. reflexivity.
  - vm_compute. reflexivity.
  - vm_compute. reflexivity.
Defined.

(** The rate 89.7 is refused as "Rate 90". *)
Lemma rejected_rate_shown_rounded_witness :
  SFleb f64_89_5 f64_89_7 = true /\ SFltb f64_89_7 f64_90 = true
  /\ Main.handleSpeak ctxActive request89_7
     = Ret (NewToolResultError (rateErrorMessage (B "90")), None).
Proof.
  assert (H1 : SFleb f64_89_5 f64_89_7 = true) by (vm_compute; reflexivity).
  assert (H2 : SFltb f64_89_7 f64_90 = true) by (vm_compute; reflexivity).
  split; [exact H1|]. split; [exact H2|].
  assert (Ht : GetArguments request89_7 !! B "text" = Some (AString (B "Hi")))
    by (vm_compute; reflexivity).
  assert (Hne : TrimSpace (B "Hi") <> []) by (vm_compute; discriminate).
  assert (Hr : GetArguments request89_7 !! B "rate" = Some (AFloat64 f64_89_7))
    by (vm_compute; reflexivity).
  destruct (rejected_rate_shown_rounded ctxActive request89_7 (B "Hi") f64_89_7 Ht Hne Hr)
    as [H _].
  destruct (H H1 H2) as [Hmain _]. exact Hmain.
Defined.

(** The record of Albert. *)
Lemma parsed_fields_are_trimmed_witness :
  albert ∈ parseVoices albertLine /\ TrimSpace (Name albert) = Name albert.
Proof.
  assert (Hin : albert ∈ parseVoices albertLine).
  { apply list_elem_of_singleton. vm_compute. reflexivity. }
  split; [exact Hin|].
  destruct (parsed_fields_are_trimmed albertLine albert Hin) as ((H & _) & _).
  exact H.
Defined.

(** The empty output. *)
Lemma no_voices_empty_array_witness :
  afterCommand (Main.handleVoices ctxActive requestHi) ([], None)
  = Some (Ret (NewToolResultText
                 (B "{" ++ newline ++ B "  " ++ [byte_dquote] ++ B "voices"
                  ++ [byte_dquote] ++ B ": []" ++ newline ++ B "}"), None)).
Proof.
  destruct (no_voices_empty_array ctxActive requestHi [] (not_elem_of_nil _)) as [H _].
  exact H.
Defined.

(** The request {text: "Hi"} conforms to the declaration of the speak
    tool. *)
Lemma speak_errors_for_declared_arguments_witness :
  conforms speakTool (GetArguments requestHi)
  /\ forall msg,
      Main.handleSpeak ctxActive requestHi = Ret (NewToolResultError msg, None)
      \/ Refactored.handleSpeak ctxActive requestHi = Ret (NewToolResultError msg, None) ->
      msg = B "Parameter 'text' cannot be empty"
      \/ exists rate,
          GetArguments requestHi !! B "rate" = Some (AFloat64 rate)
          /\ msg = rateErrorMessage (fmt_f0 rate).
Proof.
  assert (Hc : conforms speakTool (GetArguments requestHi)).
  { intros p Hp. cbn [toolParams speakTool] in Hp.
    repeat (apply elem_of_cons in Hp as [->|Hp]); [..|by apply elem_of_nil in Hp].
    - vm_compute. eexists. reflexivity.
    - vm_compute. reflexivity.
    - vm_compute. reflexivity. }
  split; [exact Hc|].
  destruct (speak_errors_for_declared_arguments ctxActive requestHi) as [_ H].
  exact (H Hc).
Defined.

(** An error that says "Permission denied" with a capital gets no
    guidance. *)
Lemma guidance_exactly_for_substring_witness :
  Refactored.formatCommandError ctxActive (B "Retrieve voice list") errCapital []
  = baseErrorMessage (ToLower (B "Retrieve voice list")) errCapital [].
Proof.
  destruct (guidance_exactly_for_substring requestHi errCapital []) as (_ & H & _).
  assert (Hno : ~ exists pre post,
               Error errCapital = pre ++ B "permission denied" ++ post).
  { intros Hsub. apply Contains_substring in Hsub. vm_compute in Hsub. discriminate Hsub. }
  destruct (H Hno) as [_ Hf]. apply Hf.
Defined.
